(** * cleanup_project.py: comment stripping and whitespace normalisation

    A shallow embedding of [Improve_ImgSLI/icons/cleanup_project.py].

    Python [str] values are sequences of Unicode code points; a text is a
    [list N].  The regular expressions of the program are terms of a small
    backtracking engine that follows the matching order of Python's [re];
    the standard-library services whose behaviour is table- or
    platform-driven ([str.lower], the [\w] class, the [tokenize] module,
    file access) are Section variables. *)

From Stdlib Require Import NArith String Ascii Lia.
From stdpp Require Import base option list gmap sets.

Local Open Scope N_scope.
Local Open Scope list_scope.

(** ** Texts *)

Module Text.

Definition TAB : N := 9.
Definition LF : N := 10.
Definition VT : N := 11.
Definition FF : N := 12.
Definition CR : N := 13.
Definition SPACE : N := 32.
Definition BANG : N := 33.
Definition HASH : N := 35.
Definition STAR : N := 42.
Definition MINUS : N := 45.
Definition DOT : N := 46.
Definition SLASH : N := 47.
Definition COLON : N := 58.
Definition LT : N := 60.
Definition EQUALS : N := 61.
Definition GT : N := 62.
Definition UNDERSCORE : N := 95.

(** Source literals: [lit] reads a Rocq string the way Python reads a
    literal, with the escapes [\n], [\t], [\r], [\f], [\v] and [\\]. *)
Fixpoint unescape (l : list ascii) : list N :=
  match l with
  | [] => []
  | "\"%char :: c :: l' =>
      (match c with
       | "n"%char => LF
       | "t"%char => TAB
       | "r"%char => CR
       | "f"%char => FF
       | "v"%char => VT
       | _ => N_of_ascii c
       end) :: unescape l'
  | c :: l' => N_of_ascii c :: unescape l'
  end.

Definition lit (s : string) : list N := unescape (list_ascii_of_string s).

(** [str.startswith] *)
Fixpoint startswith (s p : list N) {struct p} : bool :=
  match p, s with
  | [], _ => true
  | c :: p', x :: s' => (x =? c) && startswith s' p'
  | _ :: _, [] => false
  end.

(** [str.endswith] *)
Definition endswith (s p : list N) : bool := startswith (rev s) (rev p).

(** [sub in s] for strings: some position of [s] starts with [sub]. *)
Fixpoint contains (s sub : list N) : bool :=
  startswith s sub ||
  match s with
  | [] => false
  | _ :: s' => contains s' sub
  end.

(** [str.isspace] on one code point (the Unicode White_Space set of
    CPython's [_PyUnicode_IsWhitespace]). *)
Definition isspace (c : N) : bool :=
  ((9 <=? c) && (c <=? 13)) || ((28 <=? c) && (c <=? 32))
  || (c =? 133) || (c =? 160) || (c =? 5760)
  || ((8192 <=? c) && (c <=? 8202))
  || (c =? 8232) || (c =? 8233) || (c =? 8239) || (c =? 8287) || (c =? 12288).

(** [str.lstrip()] *)
Fixpoint lstrip (s : list N) : list N :=
  match s with
  | c :: s' => if isspace c then lstrip s' else s
  | [] => []
  end.

(** Line boundaries of [str.splitlines]. *)
Definition islinebreak (c : N) : bool :=
  ((10 <=? c) && (c <=? 13)) || ((28 <=? c) && (c <=? 30))
  || (c =? 133) || (c =? 8232) || (c =? 8233).

(** [str.splitlines(keepends=True)]: [cur] is the line being read, in
    reverse; [\r\n] is one boundary. *)
Fixpoint splitlines_from (cur : list N) (s : list N) : list (list N) :=
  match s with
  | [] => match cur with [] => [] | _ => [rev cur] end
  | c :: s' =>
      if islinebreak c then
        match s' with
        | d :: s'' =>
            if (c =? CR) && (d =? LF)
            then rev (d :: c :: cur) :: splitlines_from [] s''
            else rev (c :: cur) :: splitlines_from [] s'
        | [] => [rev (c :: cur)]
        end
      else splitlines_from (c :: cur) s'
  end.

Definition splitlines (s : list N) : list (list N) := splitlines_from [] s.

(** ["".join(lines)] *)
Definition join (ls : list (list N)) : list N := concat ls.

End Text.

Import Text.

(** ** Regular expressions

    The fragment of Python's [re] syntax that the program uses.  Matching is
    by backtracking in the order of [re]: a greedy repetition tries the
    longest run first, a lazy one the shortest. *)

Module Re.

Inductive regex : Type :=
| Chr (c : N)                       (* one literal character *)
| Cls (f : N -> bool)               (* a character class *)
| Cat (r1 r2 : regex)               (* r1 r2 *)
| Many (n : nat) (f : N -> bool)    (* greedy  [f]{n,}  *)
| LazyStar (f : N -> bool)          (* lazy    [f]*?    *)
| Eol                               (* $ under re.MULTILINE *)
| NotAfter (c : N)                  (* (?<!c) *)
| Eps.                              (* the empty pattern *)

(** A position in the subject: the character before it and the text
    from it on. *)
Definition pos : Type := option N * list N.

Section Matcher.
Context {A : Type}.

Fixpoint greedy (n : nat) (f : N -> bool) (k : pos -> option A)
    (prev : option N) (s : list N) : option A :=
  let stop := match n with O => k (prev, s) | S _ => None end in
  match s with
  | x :: s' =>
      if f x then
        match greedy (Nat.pred n) f k (Some x) s' with
        | Some a => Some a
        | None => stop
        end
      else stop
  | [] => stop
  end.

Fixpoint lazy (f : N -> bool) (k : pos -> option A)
    (prev : option N) (s : list N) : option A :=
  match k (prev, s) with
  | Some a => Some a
  | None =>
      match s with
      | x :: s' => if f x then lazy f k (Some x) s' else None
      | [] => None
      end
  end.

Fixpoint run (r : regex) (k : pos -> option A) (p : pos) : option A :=
  match r with
  | Chr c =>
      match p.2 with
      | x :: s' => if x =? c then k (Some x, s') else None
      | [] => None
      end
  | Cls f =>
      match p.2 with
      | x :: s' => if f x then k (Some x, s') else None
      | [] => None
      end
  | Cat r1 r2 => run r1 (run r2 k) p
  | Many n f => greedy n f k p.1 p.2
  | LazyStar f => lazy f k p.1 p.2
  | Eol =>
      match p.2 with
      | [] => k p
      | x :: _ => if x =? LF then k p else None
      end
  | NotAfter c =>
      match p.1 with
      | Some x => if x =? c then None else k p
      | None => k p
      end
  | Eps => k p
  end.
End Matcher.

(** The character before the position reached by reading [cs]. *)
Definition last_seen (prev : option N) (cs : list N) : option N :=
  match last cs with
  | Some x => Some x
  | None => prev
  end.

(** The literal string [cs] followed by [r]. *)
Definition word (cs : list N) (r : regex) : regex :=
  foldr (fun c acc => Cat (Chr c) acc) r cs.

(** A match of [r] starting exactly at [p]; with [advance] an empty match
    is refused (the engine's rule right after an empty match). *)
Definition match_at (r : regex) (advance : bool) (p : pos) : option pos :=
  run r (fun q =>
           if advance && negb (length q.2 <? length p.2)%nat
           then None else Some q) p.

(** [re.search(r, s) is not None] *)
Fixpoint search_from (r : regex) (prev : option N) (s : list N) : bool :=
  match match_at r false (prev, s) with
  | Some _ => true
  | None =>
      match s with
      | x :: s' => search_from r (Some x) s'
      | [] => false
      end
  end.

Definition search (r : regex) (s : list N) : bool := search_from r None s.

(** [re.sub(r, repl, s)] for a literal replacement: the leftmost match is
    replaced and the scan resumes at its end. *)
Fixpoint sub_loop (fuel : nat) (r : regex) (repl : list N) (advance : bool)
    (prev : option N) (s : list N) : list N :=
  match fuel with
  | O => s
  | S fuel' =>
      match match_at r advance (prev, s) with
      | Some (prev', s') =>
          if (length s' <? length s)%nat
          then repl ++ sub_loop fuel' r repl false prev' s'
          else repl ++ sub_loop fuel' r repl true prev s
      | None =>
          match s with
          | x :: s' => x :: sub_loop fuel' r repl false (Some x) s'
          | [] => []
          end
      end
  end.

Definition sub (r : regex) (repl : list N) (s : list N) : list N :=
  sub_loop (2 * length s + 2) r repl false None s.

End Re.

Import Re.

(** ** The patterns of the program *)

Definition is_char (c : N) : N -> bool := fun x => x =? c.
Definition blank (c : N) : bool := (c =? SPACE) || (c =? TAB).
Definition any_char (c : N) : bool := true.
Definition not_newline (c : N) : bool := negb (c =? LF).

(** [[ \t]+$] with [re.MULTILINE] *)
Definition TRAILING_BLANKS_RE : regex := Cat (Many 1 blank) Eol.

(** [\n{3,}] *)
Definition NEWLINE_RUN_RE : regex := Many 3 (is_char LF).

(** [<!--.*?-->] with [re.DOTALL] *)
Definition HTML_COMMENT_RE : regex :=
  word (lit "<!--") (Cat (LazyStar any_char) (word (lit "-->") Eps)).

(** [/\*.*?\*/] with [re.DOTALL] *)
Definition BLOCK_COMMENT_RE : regex :=
  word (lit "/*") (Cat (LazyStar any_char) (word (lit "*/") Eps)).

(** [(?<!:)//.*] *)
Definition LINE_COMMENT_RE : regex :=
  Cat (NotAfter COLON) (word (lit "//") (Many 0 not_newline)).

(** ** Whitespace normaliser *)

Definition cleanup_empty_lines (text : list N) : list N :=
  let text := sub TRAILING_BLANKS_RE [] text in
  let text := sub NEWLINE_RUN_RE (lit "\n\n") text in
  if negb (endswith text (lit "\n")) && negb (bool_decide (text = []))
  then text ++ lit "\n"
  else text.

(** ** HTML, CSS and JS strippers *)

Definition strip_html_comments (source : list N) : list N :=
  let cleaned := sub HTML_COMMENT_RE [] source in
  cleanup_empty_lines cleaned.

Definition strip_css_comments (source : list N) : list N :=
  let cleaned := sub BLOCK_COMMENT_RE [] source in
  cleanup_empty_lines cleaned.

Definition strip_js_comments (source : list N) : list N :=
  let cleaned := sub BLOCK_COMMENT_RE [] source in
  let cleaned := sub LINE_COMMENT_RE [] cleaned in
  cleanup_empty_lines cleaned.

(** ** Outcomes of fallible code *)

Inductive exn : Type :=
| TokenError
| IndentationError
| SyntaxError
| ValueError
| IndexError
| UnicodeEncodeError
| UnicodeDecodeError
| FileNotFoundError
| IsADirectoryError
| PermissionError
| OSError
| RuntimeError.

Inductive result (A : Type) : Type :=
| Return (a : A)
| Raise (e : exn).

Arguments Return {A} a.
Arguments Raise {A} e.

(** ** Tokens of the [tokenize] module *)

Inductive token_type : Type :=
| ENCODING | COMMENT | NL | NEWLINE | NAME | NUMBER | STRING | OP
| INDENT | DEDENT | ERRORTOKEN | ENDMARKER.

Record TokenInfo : Type := mkTok {
  tok_type : token_type;
  tok_string : list N;
  tok_start : nat * nat;
  tok_end : nat * nat;
  tok_line : list N
}.

(** ** Keyword policy, shebang and encoding cookie *)

Definition has_shebang (line : list N) : bool := startswith line (lit "#!").

Section Policy.

(** [str.lower], driven by the Unicode case tables. *)
Variable lower : list N -> list N.

(** [str.isalnum] on one code point, the other table behind [\w]. *)
Variable isalnum : N -> bool.

Definition word_char (c : N) : bool := isalnum c || (c =? UNDERSCORE).

(** [coding[:=]\s*([-\.\w]+)] *)
Definition ENCODING_COOKIE_RE : regex :=
  word (lit "coding")
    (Cat (Cls (fun c => (c =? COLON) || (c =? EQUALS)))
       (Cat (Many 0 isspace)
          (Many 1 (fun c => (c =? MINUS) || (c =? DOT) || word_char c)))).

Definition has_encoding_cookie (line : list N) : bool :=
  search ENCODING_COOKIE_RE line.

(** [any(kw in lower for kw in keep_keywords)] *)
Definition any_keyword_in (lower_text : list N) (keep_keywords : gset (list N)) : bool :=
  existsb (fun kw => contains lower_text kw) (elements keep_keywords).

Definition should_keep_py_comment (comment_text : list N)
    (keep_keywords : gset (list N)) : bool :=
  let lower_text := lower comment_text in
  any_keyword_in lower_text keep_keywords.

Definition should_keep_sh_comment (comment_line : list N)
    (keep_keywords : gset (list N)) : bool :=
  let text_part := lstrip (drop 1 (lstrip comment_line)) in
  let lower_text := lower text_part in
  any_keyword_in lower_text keep_keywords.

(** ** Shell stripper *)

(** One turn of the loop over the lines after the shebang. *)
Definition shell_step (keep_keywords : gset (list N))
    (new_lines : list (list N)) (line : list N) : list (list N) :=
  let stripped_line := lstrip line in
  if startswith stripped_line (lit "#") then
    if should_keep_sh_comment stripped_line keep_keywords
    then new_lines ++ [line]
    else new_lines
  else new_lines ++ [line].

Definition shell_new_lines (lines : list (list N))
    (keep_keywords : gset (list N)) : list (list N) :=
  match lines with
  | [] => []
  | line0 :: _ =>
      let '(new_lines, start_index) :=
        if has_shebang line0 then ([line0], 1%nat) else ([], 0%nat) in
      fold_left (shell_step keep_keywords) (drop start_index lines) new_lines
  end.

Definition strip_shell_comments (source : list N)
    (keep_keywords : gset (list N)) : list N :=
  let lines := splitlines source in
  match lines with
  | [] => []
  | _ => cleanup_empty_lines (join (shell_new_lines lines keep_keywords))
  end.

(** ** Python stripper *)

(** [tokenize.tokenize(io.BytesIO(text.encode("utf-8")).readline)] run to
    its end: the tokens it yields and the exception that then stops it,
    if any. *)
Variable tokenize : list N -> list TokenInfo * option exn.

(** [tokenize.untokenize(tokens)], decoded. *)
Variable untokenize : list TokenInfo -> result (list N).

(** The lines kept as they are at the head of the file, and the index of
    the first line that is analysed. *)
Definition python_prefix (lines : list (list N)) : list (list N) * nat :=
  let '(preserved_prefix, remaining_start_index) :=
    match lines with
    | line0 :: _ =>
        if has_shebang line0 then ([line0], 1%nat) else ([], 0%nat)
    | [] => ([], 0%nat)
    end in
  match lines !! remaining_start_index with
  | Some line =>
      if has_encoding_cookie line
      then (preserved_prefix ++ [line], S remaining_start_index)
      else (preserved_prefix, remaining_start_index)
  | None => (preserved_prefix, remaining_start_index)
  end.

(** One turn of the loop over the tokens. *)
Definition python_step (keep_keywords : gset (list N))
    (tokens : list TokenInfo) (tok : TokenInfo) : list TokenInfo :=
  match tok_type tok with
  | COMMENT =>
      if should_keep_py_comment (tok_string tok) keep_keywords
      then tokens ++ [tok]
      else tokens
  | _ => tokens ++ [tok]
  end.

Definition strip_python_comments (source : list N)
    (keep_keywords : gset (list N)) : result (list N) :=
  let lines := splitlines source in
  let '(preserved_prefix, remaining_start_index) := python_prefix lines in
  let remaining := join (drop remaining_start_index lines) in
  let '(yielded, stopped) := tokenize remaining in
  let tokens := fold_left (python_step keep_keywords) yielded [] in
  match stopped with
  | Some TokenError => Return source
  | Some e => Raise e
  | None =>
      match untokenize tokens with
      | Raise _ => Return source
      | Return processed_text =>
          Return (join preserved_prefix ++ cleanup_empty_lines processed_text)
      end
  end.

End Policy.

(** ** Change-aware writer *)

Section Writer.

Context {path world : Type}.

(** [path.read_text(encoding="utf-8")] in a given state of the disk. *)
Variable read_text : world -> path -> result (list N).

(** [path.write_text(new_content, encoding="utf-8")]: the disk
    afterwards, and the exception raised, if any. *)
Variable write_text : world -> path -> list N -> world * option exn.

Definition write_if_changed (w : world) (p : path) (new_content : list N)
    (dry_run : bool) : result bool * world :=
  let old_content :=
    match read_text w p with
    | Return s => Some s
    | Raise _ => None
    end in
  if bool_decide (old_content = Some new_content) then (Return false, w)
  else if dry_run then (Return true, w)
  else
    match write_text w p new_content with
    | (w', None) => (Return true, w')
    | (w', Some e) => (Raise e, w')
    end.

End Writer.

(** ** Reference functions

    Direct descriptions of what the substitutions compute, used to state
    and prove the properties of the strippers. *)

(** Length of the longest prefix of [s] made of characters in [f]. *)
Fixpoint run_len (f : N -> bool) (s : list N) : nat :=
  match s with
  | x :: s' => if f x then S (run_len f s') else O
  | [] => O
  end.

(** The position right after that prefix. *)
Fixpoint run_end (f : N -> bool) (prev : option N) (s : list N) : pos :=
  match s with
  | x :: s' => if f x then run_end f (Some x) s' else (prev, s)
  | [] => (prev, [])
  end.

(** The text stops here or a newline comes next. *)
Definition at_eol (s : list N) : bool :=
  match s with
  | [] => true
  | x :: _ => x =? LF
  end.

(** Every blank that ends a line is dropped. *)
Fixpoint rstrip_lines (s : list N) : list N :=
  match s with
  | [] => []
  | x :: s' =>
      let r := rstrip_lines s' in
      if blank x && at_eol r then r else x :: r
  end.

(** A newline followed by two more is dropped. *)
Fixpoint squeeze_newlines (s : list N) : list N :=
  match s with
  | [] => []
  | x :: s' =>
      let r := squeeze_newlines s' in
      if (x =? LF) && startswith r (lit "\n\n") then r else x :: r
  end.

(** No blank stands right before a newline or at the very end. *)
Definition no_trailing_blank (s : list N) : Prop :=
  forall p c q, s = p ++ c :: q -> blank c = true -> at_eol q = false.

(** [d] does not occur in [s]. *)
Definition free_of (d s : list N) : Prop :=
  forall p q, s <> p ++ d ++ q.

(** The text after the first occurrence of [d] in [s]. *)
Fixpoint after_first (d s : list N) : option (list N) :=
  if startswith s d then Some (drop (length d) s)
  else match s with
       | [] => None
       | _ :: s' => after_first d s'
       end.

(** Scan left to right; at an opener [o] that has a closer [c] after it,
    skip through the nearest such closer; copy everything else.  [skip] is
    the number of characters of the current span still to be skipped. *)
Fixpoint cut (o c : list N) (skip : nat) (s : list N) : list N :=
  match s with
  | [] => []
  | x :: s' =>
      match skip with
      | S n => cut o c n s'
      | O =>
          if startswith s o then
            match after_first c (drop (length o) s) with
            | Some rest => cut o c (length s' - length rest) s'
            | None => x :: cut o c 0 s'
            end
          else x :: cut o c 0 s'
      end
  end.

Definition remove_spans (o c : list N) (s : list N) : list N := cut o c 0 s.

(** Scan left to right; at a [//] that does not follow a colon, drop
    everything up to the next newline; copy everything else.  [skipping]
    holds inside such a comment. *)
Fixpoint uncomment_lines (skipping : bool) (prev : option N) (s : list N) : list N :=
  match s with
  | [] => []
  | x :: s' =>
      if skipping then
        if x =? LF then x :: uncomment_lines false (Some x) s'
        else uncomment_lines true (Some x) s'
      else if negb (bool_decide (prev = Some COLON)) && startswith s (lit "//")
           then uncomment_lines true (Some x) s'
           else x :: uncomment_lines false (Some x) s'
  end.

Definition remove_line_comments (s : list N) : list N := uncomment_lines false None s.

(** The last step of the normaliser. *)
Definition ensure_final_newline (text : list N) : list N :=
  if negb (endswith text (lit "\n")) && negb (bool_decide (text = []))
  then text ++ lit "\n"
  else text.

(** The text ends with one newline and not with two. *)
Definition one_trailing_newline (s : list N) : Prop :=
  endswith s (lit "\n") = true /\ endswith s (lit "\n\n") = false.

(** ** Reference functions for the Shell and Python strippers *)

Section Reference.

Variable lower : list N -> list N.
Variable isalnum : N -> bool.

(** A whole-line comment: the line begins with [#] after its leading
    whitespace. *)
Definition sh_comment_line (line : list N) : bool :=
  startswith (lstrip line) (lit "#").

(** The line stays: it is no whole-line comment, or the text after its
    [#], leading whitespace stripped and lower-cased, contains a keyword. *)
Definition sh_line_kept (keep_keywords : gset (list N)) (line : list N) : bool :=
  negb (sh_comment_line line)
  || any_keyword_in (lower (lstrip (drop 1 (lstrip line)))) keep_keywords.

(** The lines that are put to the keyword test: all but a first-line
    shebang. *)
Definition sh_tested_lines (lines : list (list N)) : list (list N) :=
  match lines with
  | line0 :: rest => if has_shebang line0 then rest else lines
  | [] => []
  end.

(** The first-line shebang, if there is one. *)
Definition sh_shebang (lines : list (list N)) : list (list N) :=
  match lines with
  | line0 :: _ => if has_shebang line0 then [line0] else []
  | [] => []
  end.

(** The head of a Python source that is kept as it is, and the text that
    is handed to the tokenizer. *)
Definition kept_head (s : list N) : list N :=
  join (python_prefix isalnum (splitlines s)).1.

Definition analysed_text (s : list N) : list N :=
  join (drop (python_prefix isalnum (splitlines s)).2 (splitlines s)).

End Reference.

(** ** Instances used in the examples *)

(** [str.lower] on texts of ASCII characters. *)
Definition lower_ascii (s : list N) : list N :=
  map (fun c => if (65 <=? c) && (c <=? 90) then c + 32 else c) s.

(** [str.isalnum] on ASCII characters. *)
Definition isalnum_ascii (c : N) : bool :=
  ((48 <=? c) && (c <=? 57)) || ((65 <=? c) && (c <=? 90))
  || ((97 <=? c) && (c <=? 122)).

(** [tokenize.untokenize] on full tokens, as in CPython 3.11. *)
Module Untokenizer.

Record state : Type := mkState {
  tokens : list N;
  prev_row : nat;
  prev_col : nat;
  indents : list (list N);
  startline : bool
}.

Definition add_whitespace (st : state) (start : nat * nat) : result state :=
  let '(row, col) := start in
  if (row <? prev_row st)%nat
     || ((row =? prev_row st)%nat && (col <? prev_col st)%nat)
  then Raise ValueError
  else
    let row_offset := (row - prev_row st)%nat in
    let st :=
      if (row_offset =? 0)%nat then st
      else mkState (tokens st ++ concat (replicate row_offset (lit "\\\n")))
             (prev_row st) 0 (indents st) (startline st) in
    let col_offset := (col - prev_col st)%nat in
    Return (mkState (tokens st ++ replicate col_offset SPACE)
              (prev_row st) (prev_col st) (indents st) (startline st)).

Definition is_newline (ty : token_type) : bool :=
  match ty with
  | NEWLINE | NL => true
  | _ => false
  end.

Fixpoint loop (st : state) (toks : list TokenInfo) : result state :=
  match toks with
  | [] => Return st
  | t :: rest =>
      match tok_type t with
      | ENCODING => loop st rest
      | ENDMARKER => Return st
      | INDENT =>
          loop (mkState (tokens st) (prev_row st) (prev_col st)
                  (indents st ++ [tok_string t]) (startline st)) rest
      | DEDENT =>
          match indents st with
          | [] => Raise IndexError
          | _ :: _ =>
              loop (mkState (tokens st) (tok_end t).1 (tok_end t).2
                      (removelast (indents st)) (startline st)) rest
          end
      | ty =>
          let st :=
            if is_newline ty then
              mkState (tokens st) (prev_row st) (prev_col st) (indents st) true
            else
              match startline st, last (indents st) with
              | true, Some indent =>
                  if (length indent <=? (tok_start t).2)%nat
                  then mkState (tokens st ++ indent) (prev_row st)
                         (length indent) (indents st) false
                  else mkState (tokens st) (prev_row st) (prev_col st)
                         (indents st) false
              | _, _ => st
              end in
          match add_whitespace st (tok_start t) with
          | Raise e => Raise e
          | Return st =>
              let st := mkState (tokens st ++ tok_string t)
                          (tok_end t).1 (tok_end t).2
                          (indents st) (startline st) in
              let st :=
                if is_newline ty
                then mkState (tokens st) (S (prev_row st)) 0
                       (indents st) (startline st)
                else st in
              loop st rest
          end
      end
  end.

Definition untokenize (toks : list TokenInfo) : result (list N) :=
  match loop (mkState [] 1 0 [] false) toks with
  | Return st => Return (tokens st)
  | Raise e => Raise e
  end.

End Untokenizer.

(** Runs of CPython 3.11's tokenizer on the sources of the examples,
    replayed from a table. *)
Module Recorded.

Definition run_note : list N * (list TokenInfo * option exn) :=
  (lit "x = 1  # note\n",
   ([ mkTok ENCODING (lit "utf-8") (0, 0) (0, 0) (lit "");
      mkTok NAME (lit "x") (1, 0) (1, 1) (lit "x = 1  # note\n");
      mkTok OP (lit "=") (1, 2) (1, 3) (lit "x = 1  # note\n");
      mkTok NUMBER (lit "1") (1, 4) (1, 5) (lit "x = 1  # note\n");
      mkTok COMMENT (lit "# note") (1, 7) (1, 13) (lit "x = 1  # note\n");
      mkTok NEWLINE (lit "\n") (1, 13) (1, 14) (lit "x = 1  # note\n");
      mkTok ENDMARKER (lit "") (2, 0) (2, 0) (lit "")
    ]%nat, None)).

Definition run_plain : list N * (list TokenInfo * option exn) :=
  (lit "x = 1\n",
   ([ mkTok ENCODING (lit "utf-8") (0, 0) (0, 0) (lit "");
      mkTok NAME (lit "x") (1, 0) (1, 1) (lit "x = 1\n");
      mkTok OP (lit "=") (1, 2) (1, 3) (lit "x = 1\n");
      mkTok NUMBER (lit "1") (1, 4) (1, 5) (lit "x = 1\n");
      mkTok NEWLINE (lit "\n") (1, 5) (1, 6) (lit "x = 1\n");
      mkTok ENDMARKER (lit "") (2, 0) (2, 0) (lit "")
    ]%nat, None)).

(** The dedent of the third line matches no enclosing block. *)
Definition run_dedent : list N * (list TokenInfo * option exn) :=
  (lit "if x:\n        a\n    b\n",
   ([ mkTok ENCODING (lit "utf-8") (0, 0) (0, 0) (lit "");
      mkTok NAME (lit "if") (1, 0) (1, 2) (lit "if x:\n");
      mkTok NAME (lit "x") (1, 3) (1, 4) (lit "if x:\n");
      mkTok OP (lit ":") (1, 4) (1, 5) (lit "if x:\n");
      mkTok NEWLINE (lit "\n") (1, 5) (1, 6) (lit "if x:\n");
      mkTok INDENT (lit "        ") (2, 0) (2, 8) (lit "        a\n");
      mkTok NAME (lit "a") (2, 8) (2, 9) (lit "        a\n");
      mkTok NEWLINE (lit "\n") (2, 9) (2, 10) (lit "        a\n")
    ]%nat, Some IndentationError)).

(** The triple-quoted string is never closed. *)
Definition run_open_string : list N * (list TokenInfo * option exn) :=
  (lit "x = '''abc\n",
   ([ mkTok ENCODING (lit "utf-8") (0, 0) (0, 0) (lit "");
      mkTok NAME (lit "x") (1, 0) (1, 1) (lit "x = '''abc\n");
      mkTok OP (lit "=") (1, 2) (1, 3) (lit "x = '''abc\n")
    ]%nat, Some TokenError)).

(** A comment that ends with a blank, and the same without the blank. *)
Definition run_blank_comment : list N * (list TokenInfo * option exn) :=
  (lit "x = 1 # foo \n",
   ([ mkTok ENCODING (lit "utf-8") (0, 0) (0, 0) (lit "");
      mkTok NAME (lit "x") (1, 0) (1, 1) (lit "x = 1 # foo \n");
      mkTok OP (lit "=") (1, 2) (1, 3) (lit "x = 1 # foo \n");
      mkTok NUMBER (lit "1") (1, 4) (1, 5) (lit "x = 1 # foo \n");
      mkTok COMMENT (lit "# foo ") (1, 6) (1, 12) (lit "x = 1 # foo \n");
      mkTok NEWLINE (lit "\n") (1, 12) (1, 13) (lit "x = 1 # foo \n");
      mkTok ENDMARKER (lit "") (2, 0) (2, 0) (lit "")
    ]%nat, None)).

Definition run_comment : list N * (list TokenInfo * option exn) :=
  (lit "x = 1 # foo\n",
   ([ mkTok ENCODING (lit "utf-8") (0, 0) (0, 0) (lit "");
      mkTok NAME (lit "x") (1, 0) (1, 1) (lit "x = 1 # foo\n");
      mkTok OP (lit "=") (1, 2) (1, 3) (lit "x = 1 # foo\n");
      mkTok NUMBER (lit "1") (1, 4) (1, 5) (lit "x = 1 # foo\n");
      mkTok COMMENT (lit "# foo") (1, 6) (1, 11) (lit "x = 1 # foo\n");
      mkTok NEWLINE (lit "\n") (1, 11) (1, 12) (lit "x = 1 # foo\n");
      mkTok ENDMARKER (lit "") (2, 0) (2, 0) (lit "")
    ]%nat, None)).

(** The empty source. *)
Definition run_empty : list TokenInfo * option exn :=
  ([ mkTok ENCODING (lit "utf-8") (0, 0) (0, 0) (lit "");
     mkTok ENDMARKER (lit "") (1, 0) (1, 0) (lit "")
   ]%nat, None).

Definition runs : list (list N * (list TokenInfo * option exn)) :=
  [run_note; run_plain; run_dedent; run_open_string; run_blank_comment;
   run_comment].

(** A source outside the table is answered like the empty source. *)
Definition tokenize (text : list N) : list TokenInfo * option exn :=
  match List.find (fun r => bool_decide (r.1 = text)) runs with
  | Some r => r.2
  | None => run_empty
  end.

End Recorded.

(** A disk of directories, text files and files that are not UTF-8. *)
Module Disk.

Inductive node : Type :=
| Dir
| TextFile (content : list N)
| BinaryFile.

Definition world : Type := gmap string node.

Definition read_text (w : world) (p : string) : result (list N) :=
  match w !! p with
  | None => Raise FileNotFoundError
  | Some Dir => Raise IsADirectoryError
  | Some (TextFile s) => Return s
  | Some BinaryFile => Raise UnicodeDecodeError
  end.

Definition write_text (w : world) (p : string) (s : list N) : world * option exn :=
  match w !! p with
  | Some Dir => (w, Some IsADirectoryError)
  | _ => (<[p := TextFile s]> w, None)
  end.

Definition sample : world :=
  {[ "src"%string := Dir;
     "src/a.py"%string := TextFile (lit "x = 1\n");
     "src/b.py"%string := BinaryFile ]}.

End Disk.


(** ** Further reference functions *)

(** A character that is neither a blank nor a newline. *)
Definition visible (c : N) : bool := negb (blank c) && negb (c =? LF).

(** The token is handed on to [untokenize]: it is no comment, or its text
    passes the keyword test. *)
Definition py_token_kept (lower : list N -> list N)
    (keep_keywords : gset (list N)) (tok : TokenInfo) : bool :=
  match tok_type tok with
  | COMMENT => should_keep_py_comment lower (tok_string tok) keep_keywords
  | _ => true
  end.

(** ** Keyword options of [main] *)

Definition COMMA : N := 44.

(** [s.split(sep)] for a separator of one character; [cur] is the piece
    being read, in reverse. *)
Fixpoint split_from (sep : N) (cur : list N) (s : list N) : list (list N) :=
  match s with
  | [] => [rev cur]
  | c :: s' =>
      if c =? sep then rev cur :: split_from sep [] s'
      else split_from sep (c :: cur) s'
  end.

Definition split (s : list N) (sep : N) : list (list N) := split_from sep [] s.

(** [str.rstrip()] and [str.strip()] *)
Definition rstrip (s : list N) : list N := rev (lstrip (rev s)).
Definition strip (s : list N) : list N := rstrip (lstrip s).

(** [sep.join(l)] *)
Fixpoint join_with (sep : list N) (l : list (list N)) : list N :=
  match l with
  | [] => []
  | a :: l' =>
      match l' with
      | [] => a
      | _ :: _ => a ++ sep ++ join_with sep l'
      end
  end.

(** [{kw.strip().lower() for kw in arg.split(",") if kw.strip()}] *)
Definition parse_keep_keywords (lower : list N -> list N) (arg : list N) :
    gset (list N) :=
  list_to_set
    (map (fun kw => lower (strip kw))
       (List.filter (fun kw => negb (bool_decide (strip kw = [])))
          (split arg COMMA))).

Definition DEFAULT_KEEP_PY_COMMENT_KEYWORDS : gset (list N) :=
  {[ lit "noqa"; lit "type: ignore"; lit "fmt: off"; lit "fmt: on";
     lit "isort: skip"; lit "pylint"; lit "pragma"; lit "pyright:";
     lit "mypy:"; lit "coding:" ]}.

Definition DEFAULT_KEEP_SH_COMMENT_KEYWORDS : gset (list N) :=
  {[ lit "shellcheck" ]}.

(** The class [[-\.\w]] of the encoding pattern. *)
Definition encoding_char (isalnum : N -> bool) (c : N) : bool :=
  (c =? MINUS) || (c =? DOT) || word_char isalnum c.

(** ** The stripping phase of [main] *)

Inductive kind : Type := PY | SH | HTML | CSS | JS.

(** What [main] prints, without the wording: the lines of the stripping
    phase, then those of [run_command], [ensure_tool] and
    [apply_formatting_tools], then the last line. *)
Inductive message (path : Type) : Type :=
| NoSupportedFiles
| InfoProcessing (n : nat) (file_type : kind)
| WillChange (relative : path)
| ErrorFile (file_path : path) (e : exn)
| Summary (dry_run : bool) (changed_count : nat)
| CommandNotFound (cmd0 : list N)
| InstallByHand (cli_name : list N)
| InstallSkipped (cli_name : list N)
| Installing (pip_name : list N)
| InstallFailed (pip_name : list N) (code : Z)
| Running (cli_name : list N)
| Done.

Arguments NoSupportedFiles {path}.
Arguments InfoProcessing {path} n file_type.
Arguments WillChange {path} relative.
Arguments ErrorFile {path} file_path e.
Arguments Summary {path} dry_run changed_count.
Arguments CommandNotFound {path} cmd0.
Arguments InstallByHand {path} cli_name.
Arguments InstallSkipped {path} cli_name.
Arguments Installing {path} pip_name.
Arguments InstallFailed {path} pip_name code.
Arguments Running {path} cli_name.
Arguments Done {path}.

(** A path is the list of its components; [Path(dirpath) / filename] adds
    one at the end. *)
Definition fspath : Type := list (list N).

(** The namespace that [parse_args] returns. *)
Record arguments : Type := mkArgs {
  paths : list fspath;
  dry_run : bool;
  only_comments : bool;
  no_install : bool;
  line_length : Z;
  skip_html : bool;
  skip_css : bool;
  skip_js : bool;
  skip_ruff : bool;
  skip_isort : bool;
  skip_black : bool;
  keep_py_keywords : list N;
  skip_sh : bool;
  skip_shellcheck : bool;
  skip_shfmt : bool;
  keep_sh_keywords : list N
}.

Section Pipeline.

Context {path world : Type}.

Variable lower : list N -> list N.
Variable isalnum : N -> bool.
Variable tokenize : list N -> list TokenInfo * option exn.
Variable untokenize : list TokenInfo -> result (list N).
Variable read_text : world -> path -> result (list N).
Variable write_text : world -> path -> list N -> world * option exn.

(** [file_path.relative_to(Path.cwd())] *)
Variable relative_to_cwd : path -> result path.

Record state : Type := mkPhase {
  disk : world;
  changed_count : nat;
  printed : list (message path)
}.

Definition failed (st : state) (w : world) (file_path : path) (e : exn) : state :=
  mkPhase w (changed_count st) (printed st ++ [ErrorFile file_path e]).

(** The body of the loop over the files of one kind, with its [try]. *)
Definition process_file (processor_func : list N -> result (list N))
    (dry : bool) (st : state) (file_path : path) : state :=
  match read_text (disk st) file_path with
  | Raise e => failed st (disk st) file_path e
  | Return original =>
      match processor_func original with
      | Raise e => failed st (disk st) file_path e
      | Return cleaned =>
          match write_if_changed read_text write_text
                  (disk st) file_path cleaned dry with
          | (Raise e, w) => failed st w file_path e
          | (Return false, w) => mkPhase w (changed_count st) (printed st)
          | (Return true, w) =>
              if dry then
                match relative_to_cwd file_path with
                | Raise e => failed st w file_path e
                | Return relative =>
                    mkPhase w (S (changed_count st))
                      (printed st ++ [WillChange relative])
                end
              else mkPhase w (S (changed_count st)) (printed st)
          end
      end
  end.

(** One turn of the loop over the processors. *)
Definition process_kind (source_files : kind -> list path) (dry : bool)
    (st : state)
    (entry : kind * ((list N -> result (list N)) * bool)) : state :=
  let '(file_type, (processor_func, skip)) := entry in
  if skip then st
  else
    let files_to_process := source_files file_type in
    match files_to_process with
    | [] => st
    | _ :: _ =>
        fold_left (process_file processor_func dry) files_to_process
          (mkPhase (disk st) (changed_count st)
             (printed st
              ++ [InfoProcessing (length files_to_process) file_type]))
    end.

Definition processors (source_files : kind -> list path) (args : arguments) :
    list (kind * ((list N -> result (list N)) * bool)) :=
  let py_keep_kw := parse_keep_keywords lower (keep_py_keywords args) in
  let sh_keep_kw := parse_keep_keywords lower (keep_sh_keywords args) in
  [ (PY, (fun src => strip_python_comments lower isalnum tokenize untokenize
                       src py_keep_kw,
          bool_decide (source_files PY = [])));
    (SH, (fun src => Return (strip_shell_comments lower src sh_keep_kw),
          skip_sh args));
    (HTML, (fun src => Return (strip_html_comments src), skip_html args));
    (CSS, (fun src => Return (strip_css_comments src), skip_css args));
    (JS, (fun src => Return (strip_js_comments src), skip_js args)) ].

(** [main] from the test for supported files to the summary line. *)
Definition strip_phase (source_files : kind -> list path) (args : arguments)
    (w : world) : state :=
  if forallb (fun k => bool_decide (source_files k = [])) [PY; SH; HTML; CSS; JS]
  then mkPhase w 0 [NoSupportedFiles]
  else
    let st :=
      fold_left (process_kind source_files (dry_run args))
        (processors source_files args) (mkPhase w 0 []) in
    mkPhase (disk st) (changed_count st)
      (printed st ++ [Summary (dry_run args) (changed_count st)]).

End Pipeline.

(** The number of lines that announce a change. *)
Definition will_change_count {path : Type} (l : list (message path)) : nat :=
  length (List.filter (fun m => match m with WillChange _ => true | _ => false end) l).

(** A line that reports neither a change nor an error. *)
Definition quiet {path : Type} (m : message path) : bool :=
  match m with
  | WillChange _ | ErrorFile _ _ => false
  | _ => true
  end.

(** A disk with one page that holds no comment. *)
Definition clean_site : Disk.world :=
  {[ "index.html"%string := Disk.TextFile (lit "<p>hi</p>\n") ]}.

(** ** Discovery of the source files *)

#[global] Instance kind_eq_dec : EqDecision kind.
Proof. solve_decision. Defined.

(** [PurePath.name]: the last component, empty when there is none. *)
Definition name (p : fspath) : list N := List.last p [].

(** [str.rfind] of one character: the index of its last occurrence, or -1. *)
Fixpoint rfind (c : N) (s : list N) : Z :=
  match s with
  | [] => (-1)%Z
  | x :: s' =>
      let i := rfind c s' in
      if (0 <=? i)%Z then (i + 1)%Z
      else if x =? c then 0%Z else (-1)%Z
  end.

(** [PurePath.suffix] as pathlib of CPython 3.11 defines it:
    [i = name.rfind('.')], and [name[i:]] if [0 < i < len(name) - 1],
    the empty string otherwise. *)
Definition suffix (p : fspath) : list N :=
  let i := rfind DOT (name p) in
  if ((0 <? i) && (i <? Z.of_nat (length (name p)) - 1))%Z
  then drop (Z.to_nat i) (name p)
  else [].

Definition supported_suffixes : list (list N * kind) :=
  [ (lit ".py", PY); (lit ".sh", SH); (lit ".html", HTML);
    (lit ".css", CSS); (lit ".js", JS) ].

(** [supported_suffixes[sfx]], if [sfx in supported_suffixes]. *)
Definition file_type_of (sfx : list N) : option kind :=
  snd <$> List.find (fun e => bool_decide (e.1 = sfx)) supported_suffixes.

Definition SAFE_EXCLUDED_DIRNAMES : gset (list N) :=
  {[ lit ".git"; lit "venv"; lit ".venv"; lit "env"; lit ".env";
     lit "build"; lit "dist"; lit "__pycache__"; lit "node_modules" ]}.

(** The test of the comprehension that prunes [dirnames]. *)
Definition keep_dirname (d : list N) : bool :=
  negb (bool_decide (d ∈ SAFE_EXCLUDED_DIRNAMES)) && negb (startswith d (lit ".")).

(** [if file_path.suffix in supported_suffixes:
       discovered[supported_suffixes[file_path.suffix]].append(file_path)] *)
Definition file_found (file_path : fspath) (discovered : kind -> list fspath) :
    kind -> list fspath :=
  match file_type_of (suffix file_path) with
  | Some file_type =>
      fun k => if decide (k = file_type) then discovered k ++ [file_path]
               else discovered k
  | None => discovered
  end.

(** What [os.walk] meets at a path: an entry that is no directory, or a
    directory with its entries in the order [os.scandir] lists them.
    A directory that cannot be listed and a link to a directory, which
    [os.walk] names without entering it, are directories without
    entries. *)
#[warnings="-register-all"] Inductive tree : Type :=
| File
| Dir (entries : list (list N * tree)).

Definition filenames_of (entries : list (list N * tree)) : list (list N) :=
  omap (fun e => match e.2 with File => Some e.1 | Dir _ => None end) entries.

(** The loop over [os.walk(root_path)]: the files of the directory first,
    then the directories that the pruning keeps, each with all below it,
    in their order. *)
Fixpoint walk (dirpath : fspath) (t : tree) (discovered : kind -> list fspath)
    {struct t} : kind -> list fspath :=
  match t with
  | File => discovered
  | Dir entries =>
      let discovered :=
        fold_left (fun d filename => file_found (dirpath ++ [filename]) d)
          (filenames_of entries) discovered in
      (fix walk_dirs (es : list (list N * tree))
           (discovered : kind -> list fspath) {struct es} :=
         match es with
         | [] => discovered
         | (d, sub) :: es' =>
             walk_dirs es'
               match sub with
               | Dir _ =>
                   if keep_dirname d then walk (dirpath ++ [d]) sub discovered
                   else discovered
               | File => discovered
               end
         end) entries discovered
  end.

(** The state of the file system as the paths given see it: nothing at
    the path, a regular file ([is_file()]), or what [os.walk] lists. *)
Definition discover_source_files (fs : fspath -> option tree)
    (paths : list fspath) : kind -> list fspath :=
  fold_left
    (fun discovered root_path =>
       match fs root_path with
       | Some File => file_found root_path discovered
       | None => discovered
       | Some t => walk root_path t discovered
       end)
    paths (fun _ => []).

(** [discover_source_files] when [is_file()] or [exists()] may raise:
    [status] gives what is at a path, or the exception of the test; the
    exception leaves the function. *)
Definition discover_step (status : fspath -> result (option tree))
    (acc : result (kind -> list fspath)) (root_path : fspath) :
    result (kind -> list fspath) :=
  match acc with
  | Raise e => Raise e
  | Return discovered =>
      match status root_path with
      | Raise e => Raise e
      | Return (Some File) => Return (file_found root_path discovered)
      | Return None => Return discovered
      | Return (Some t) => Return (walk root_path t discovered)
      end
  end.

Definition discover_source_files_or_raise
    (status : fspath -> result (option tree)) (paths : list fspath) :
    result (kind -> list fspath) :=
  fold_left (discover_step status) paths (Return (fun _ => [])).

(** What is seen at a path when the tests answer. *)
Definition seen (status : fspath -> result (option tree)) (p : fspath) :
    option tree :=
  match status p with
  | Return t => t
  | Raise _ => None
  end.

(** The components that lead from the entries of a directory to a file
    the walk reaches: every directory on the way passes the pruning. *)
Inductive below : list (list N * tree) -> list (list N) -> Prop :=
| below_file entries filename :
    (filename, File) ∈ entries -> below entries [filename]
| below_dir entries d sub rest :
    (d, Dir sub) ∈ entries -> keep_dirname d = true -> below sub rest ->
    below entries (d :: rest).

(** Induction on trees, with the hypothesis for every entry. *)
Fixpoint tree_ind' (P : tree -> Prop) (HF : P File)
    (HD : forall entries, Forall (fun e => P e.2) entries -> P (Dir entries))
    (t : tree) {struct t} : P t :=
  match t with
  | File => HF
  | Dir entries =>
      HD entries
        ((fix go (es : list (list N * tree)) : Forall (fun e => P e.2) es :=
            match es with
            | [] => List.Forall_nil _
            | (d, sub) :: es' =>
                @List.Forall_cons _ (fun e => P e.2) (d, sub) es'
                  (tree_ind' P HF HD sub) (go es')
            end) entries)
  end.

(** The inner loop of [walk] on its own. *)
Definition walk_dirs (dirpath : fspath) :
    list (list N * tree) -> (kind -> list fspath) -> kind -> list fspath :=
  fix walk_dirs (es : list (list N * tree))
      (discovered : kind -> list fspath) {struct es} :=
    match es with
    | [] => discovered
    | (d, sub) :: es' =>
        walk_dirs es'
          match sub with
          | Dir _ =>
              if keep_dirname d then walk (dirpath ++ [d]) sub discovered
              else discovered
          | File => discovered
          end
    end.

(** In every directory the entries have names of their own. *)
#[warnings="-register-all"] Inductive unique_names : tree -> Prop :=
| unique_names_file : unique_names File
| unique_names_dir entries :
    NoDup entries.*1 -> Forall (fun e => unique_names e.2) entries ->
    unique_names (Dir entries).

(** No path of the list is another one of it, or lies below one. *)
Fixpoint independent (paths : list fspath) : Prop :=
  match paths with
  | [] => True
  | root :: rest =>
      Forall (fun r => ~ root `prefix_of` r /\ ~ r `prefix_of` root) rest
      /\ independent rest
  end.

(** A tree for the examples. *)
Definition sample_tree : tree :=
  Dir [ (lit "main.py", File);
        (lit ".hidden.py", File);
        (lit "notes.txt", File);
        (lit ".git", Dir [ (lit "hook.py", File) ]);
        (lit "web", Dir [ (lit "site.css", File); (lit "app.js", File) ]) ].

Definition sample_fs (p : fspath) : option tree :=
  if decide (p = [lit "project"]) then Some sample_tree
  else if decide (p = [lit "run.sh"]) then Some File
  else None.

(** What a walk adds to the lists. *)
Definition walk_adds (t : tree) : Prop :=
  forall (dirpath : fspath) (d : kind -> list fspath) (p : fspath) (k : kind),
    p ∈ walk dirpath t d k <->
    p ∈ d k \/
    exists entries rel,
      t = Dir entries /\ below entries rel /\ p = dirpath ++ rel /\
      file_type_of (suffix p) = Some k.

(** Where a discovered path comes from. *)
Definition comes_from (fs : fspath -> option tree) (paths : list fspath)
    (p : fspath) : Prop :=
  exists root_path,
    root_path ∈ paths /\
    ((fs root_path = Some File /\ p = root_path) \/
     exists entries rel,
       fs root_path = Some (Dir entries) /\ below entries rel /\
       p = root_path ++ rel).

(** A walk adds no path twice. *)
Definition walk_fresh (t : tree) : Prop :=
  unique_names t ->
  forall (dirpath : fspath) (d : kind -> list fspath) (k : kind),
    NoDup (d k) ->
    (forall rel, rel <> [] -> dirpath ++ rel ∉ d k) ->
    NoDup (walk dirpath t d k).

(** ** The formatting tools *)

From Stdlib Require Import ZArith DecimalString.

(** [str(n)] for an [int] *)
Definition str_int (n : Z) : list N :=
  lit (NilEmpty.string_of_int (Z.to_int n)).

Section Tools.

Context {world : Type}.

(** [shutil.which(cli_name)] finds the tool. *)
Variable which : world -> list N -> bool.

(** [subprocess.run(cmd, check=False, capture_output=True, text=True)]:
    the world afterwards, and the return code or the exception raised. *)
Variable subprocess_run : world -> list (list N) -> world * result Z.

Variable sys_executable : list N.

(** [str(p)] *)
Variable str_path : fspath -> list N.

(** The world, the command lines handed to [subprocess.run] so far, and
    the lines printed so far. *)
Record session : Type := mkSession {
  sys : world;
  ran : list (list (list N));
  said : list (message fspath)
}.

(** A computation that may raise and that changes the session. *)
Definition action (A : Type) : Type := session -> result A * session.

Definition ret {A : Type} (a : A) : action A := fun st => (Return a, st).

Definition bind {A B : Type} (m : action A) (f : A -> action B) : action B :=
  fun st =>
    match m st with
    | (Return a, st') => f a st'
    | (Raise e, st') => (Raise e, st')
    end.

Local Notation "x <- m ;; f" := (bind m (fun x => f))
  (at level 100, m at next level, right associativity).
Local Notation "m ;; f" := (bind m (fun _ => f))
  (at level 100, right associativity).

Definition say (m : message fspath) : action unit :=
  fun st => (Return tt, mkSession (sys st) (ran st) (said st ++ [m])).

Definition shutil_which (cli_name : list N) : action bool :=
  fun st => (Return (which (sys st) cli_name), st).

Definition run_command (cmd : list (list N)) : action Z :=
  fun st =>
    let '(w, r) := subprocess_run (sys st) cmd in
    match r with
    | Return returncode => (Return returncode, mkSession w (ran st ++ [cmd]) (said st))
    | Raise FileNotFoundError =>
        (Return 127%Z,
         mkSession w (ran st ++ [cmd])
           (said st ++ [CommandNotFound (hd [] cmd)]))
    | Raise e => (Raise e, mkSession w (ran st ++ [cmd]) (said st))
    end.

Definition pip_install (pip_name : list N) : list (list N) :=
  [sys_executable; lit "-m"; lit "pip"; lit "install"; lit "-q"; pip_name].

Definition ensure_tool (cli_name : list N) (pip_name : option (list N))
    (allow_install : bool) : action bool :=
  found <- shutil_which cli_name ;;
  if found then ret true
  else
    match pip_name with
    | None | Some [] => say (InstallByHand cli_name) ;; ret false
    | Some pip_name =>
        if negb allow_install then say (InstallSkipped cli_name) ;; ret false
        else
          say (Installing pip_name) ;;
          code <- run_command (pip_install pip_name) ;;
          if negb (code =? 0)%Z
          then say (InstallFailed pip_name code) ;; ret false
          else shutil_which cli_name
    end.

Definition ruff_command (targets : list (list N)) : list (list N) :=
  [sys_executable; lit "-m"; lit "ruff"; lit "check"; lit "--select";
   lit "F"; lit "--fix"] ++ targets.

Definition isort_command (line_length : Z) (targets : list (list N)) :
    list (list N) :=
  [sys_executable; lit "-m"; lit "isort"; lit "--profile"; lit "black";
   lit "--line-length=" ++ str_int line_length] ++ targets.

Definition black_command (line_length : Z) (targets : list (list N)) :
    list (list N) :=
  [sys_executable; lit "-m"; lit "black";
   lit "--line-length=" ++ str_int line_length] ++ targets.

Definition shellcheck_command (targets : list (list N)) : list (list N) :=
  [lit "shellcheck"] ++ targets.

Definition shfmt_command (targets : list (list N)) : list (list N) :=
  [lit "shfmt"; lit "-w"; lit "-i"; lit "4"] ++ targets.

(** [if not skip and ensure_tool(cli_name, pip_name, allow_install):
       print(...); run_command(cmd)] *)
Definition use_tool (skip : bool) (cli_name : list N)
    (pip_name : option (list N)) (allow_install : bool)
    (cmd : list (list N)) : action unit :=
  if skip then ret tt
  else
    ok <- ensure_tool cli_name pip_name allow_install ;;
    if ok then say (Running cli_name) ;; _ <- run_command cmd ;; ret tt
    else ret tt.

Definition apply_formatting_tools (files : kind -> list fspath)
    (args : arguments) : action unit :=
  let py_files := files PY in
  let sh_files := files SH in
  let allow_install := negb (no_install args) in
  let line_length := line_length args in
  match py_files with
  | [] => ret tt
  | _ :: _ =>
      let py_targets := map str_path py_files in
      use_tool (skip_ruff args) (lit "ruff") (Some (lit "ruff")) allow_install
        (ruff_command py_targets) ;;
      use_tool (skip_isort args) (lit "isort") (Some (lit "isort"))
        allow_install (isort_command line_length py_targets) ;;
      use_tool (skip_black args) (lit "black") (Some (lit "black"))
        allow_install (black_command line_length py_targets)
  end ;;
  match sh_files with
  | [] => ret tt
  | _ :: _ =>
      let sh_targets := map str_path sh_files in
      use_tool (skip_shellcheck args) (lit "shellcheck") None allow_install
        (shellcheck_command sh_targets) ;;
      use_tool (skip_shfmt args) (lit "shfmt") None allow_install
        (shfmt_command sh_targets)
  end.

(** The command lines that the flags and the files found allow, in the
    order of the program. *)
Definition permitted_commands (files : kind -> list fspath)
    (args : arguments) : list (list (list N)) :=
  let install pip_name :=
    if no_install args then [] else [pip_install pip_name] in
  let py_targets := map str_path (files PY) in
  let sh_targets := map str_path (files SH) in
  match files PY with
  | [] => []
  | _ :: _ =>
      (if skip_ruff args then []
       else install (lit "ruff") ++ [ruff_command py_targets])
      ++ (if skip_isort args then []
          else install (lit "isort")
               ++ [isort_command (line_length args) py_targets])
      ++ (if skip_black args then []
          else install (lit "black")
               ++ [black_command (line_length args) py_targets])
  end
  ++ match files SH with
     | [] => []
     | _ :: _ =>
         (if skip_shellcheck args then [] else [shellcheck_command sh_targets])
         ++ (if skip_shfmt args then [] else [shfmt_command sh_targets])
     end.

(** The computation hands to [subprocess.run] a selection of the command
    lines [l], in their order, and nothing else. *)
Definition runs_within {A : Type} (l : list (list (list N))) (m : action A) :
    Prop :=
  forall st : session,
    exists new, ran (m st).2 = ran st ++ new /\ new `sublist_of` l.

(** The installation that [ensure_tool] may try. *)
Definition installs (pip_name : option (list N)) (allow_install : bool) :
    list (list (list N)) :=
  match pip_name with
  | Some (c :: s) =>
      if allow_install then [pip_install (c :: s)] else []
  | _ => []
  end.

(** ** [main] after the parsing of the arguments *)

Variable lower : list N -> list N.
Variable isalnum : N -> bool.
Variable tokenize : list N -> list TokenInfo * option exn.
Variable untokenize : list TokenInfo -> result (list N).
Variable read_text : world -> fspath -> result (list N).
Variable write_text : world -> fspath -> list N -> world * option exn.

(** [p.resolve()] and [Path.cwd()], or the exception they raise. *)
Variable resolve : world -> fspath -> result fspath.
Variable cwd : world -> result fspath.

(** What is at a path: nothing, a regular file, or what [os.walk] lists
    there; or the exception that [is_file()] or [exists()] raises. *)
Variable status : world -> fspath -> result (option tree).

(** [p.relative_to(base)] *)
Definition relative_to (base p : fspath) : result fspath :=
  if bool_decide (base `prefix_of` p) then Return (drop (length base) p)
  else Raise ValueError.

(** [file_path.relative_to(Path.cwd())] *)
Definition relative_to_cwd (w : world) (p : fspath) : result fspath :=
  match cwd w with
  | Return base => relative_to base p
  | Raise e => Raise e
  end.

(** [[p.resolve() for p in args.paths]] *)
Fixpoint resolve_all (w : world) (ps : list fspath) : result (list fspath) :=
  match ps with
  | [] => Return []
  | p :: ps' =>
      match resolve w p with
      | Raise e => Raise e
      | Return t =>
          match resolve_all w ps' with
          | Raise e => Raise e
          | Return ts => Return (t :: ts)
          end
      end
  end.

Definition targets_of (args : arguments) (w : world) : result (list fspath) :=
  match paths args with
  | [] =>
      match cwd w with
      | Return current => Return [current]
      | Raise e => Raise e
      end
  | _ :: _ => resolve_all w (paths args)
  end.

(** The first two statements of [main] after the parsing. *)
Definition find_sources (args : arguments) (w : world) :
    result (kind -> list fspath) :=
  match targets_of args w with
  | Raise e => Raise e
  | Return targets => discover_source_files_or_raise (status w) targets
  end.

Definition main (args : arguments) (w : world) : result Z * session :=
  match find_sources args w with
  | Raise e => (Raise e, mkSession w [] [])
  | Return source_files =>
      let st :=
        strip_phase lower isalnum tokenize untokenize read_text write_text
          (relative_to_cwd w) source_files args w in
      let started := mkSession (disk st) [] (printed st) in
      if forallb (fun k => bool_decide (source_files k = []))
           [PY; SH; HTML; CSS; JS]
      then (Return 0%Z, started)
      else
        ((if only_comments args then ret tt
          else apply_formatting_tools source_files args) ;;
         say Done ;;
         ret 0%Z) started
  end.

End Tools.

(** A machine for the examples: every tool is on the path and every
    command succeeds; nothing can be read. *)
Module Machine.

Definition world : Type := unit.

Definition which (w : world) (cli_name : list N) : bool := true.

Definition nothing_installed (w : world) (cli_name : list N) : bool := false.

Definition subprocess_run (w : world) (cmd : list (list N)) :
    world * result Z := (w, Return 0%Z).

Definition sys_executable : list N := lit "/usr/bin/python3".

Definition str_path (p : fspath) : list N := join_with [SLASH] p.

Definition read_text (w : world) (p : fspath) : result (list N) :=
  Raise PermissionError.

Definition write_text (w : world) (p : fspath) (s : list N) :
    world * option exn := (w, Some PermissionError).

Definition resolve (w : world) (p : fspath) : result fspath := Return p.

Definition cwd (w : world) : result fspath := Return [lit "project"].

Definition status (w : world) (p : fspath) : result (option tree) :=
  Return (sample_fs p).


(** [--dry-run --skip-sh run.sh] *)
Definition dry_run_args : arguments :=
  mkArgs [[lit "run.sh"]] true false false 88 false false false
    false false false (lit "noqa") true false false (lit "shellcheck").


(** [--no-install] *)
Definition no_install_args : arguments :=
  mkArgs [] false false true 88 false false false
    false false false (lit "noqa") false false false (lit "shellcheck").

End Machine.

(** A disk with one page that holds a comment, and a file beside it. *)
Definition commented_site : Disk.world :=
  {[ "index.html"%string := Disk.TextFile (lit "<p>hi</p><!-- to do -->\n");
     "notes.txt"%string := Disk.TextFile (lit "<!-- keep -->\n") ]}.

(** The files of the examples: one page. *)
Definition one_page (k : kind) : list string :=
  match k with
  | HTML => ["index.html"%string]
  | _ => []
  end.

(** After the phase the file holds the stripped text, or an error was
    reported for it. *)
Definition settled {path world : Type}
    (read_text : world -> path -> result (list N))
    (st : state) (p : path) (cleaned : list N) : Prop :=
  read_text (disk st) p = Return cleaned \/
  exists e, ErrorFile p e ∈ printed st.

(** The defaults of the options, but for the keywords. *)
Definition plain_args : arguments :=
  mkArgs [] false false false 88 false false false
    false false false (lit "noqa") false false false (lit "shellcheck").

(** [newline=None] on reading: [\r\n] and [\r] become [\n]. *)
Fixpoint universal_newlines (s : list N) : list N :=
  match s with
  | [] => []
  | c :: s' =>
      if c =? CR then
        LF :: match s' with
              | d :: s'' =>
                  if d =? LF then universal_newlines s''
                  else universal_newlines s'
              | [] => []
              end
      else c :: universal_newlines s'
  end.

(** [Disk.read_text] as a text-mode read: the newlines of the file are
    translated. *)
Definition read_text_translating (w : Disk.world) (p : string) :
    result (list N) :=
  match Disk.read_text w p with
  | Return s => Return (universal_newlines s)
  | Raise e => Raise e
  end.

(** The first line of a text with its line boundary, and the text after
    it, as [str.splitlines(keepends=True)] cuts them. *)
Fixpoint first_line (s : list N) : list N * list N :=
  match s with
  | [] => ([], [])
  | c :: s' =>
      if islinebreak c then
        match s' with
        | d :: s'' =>
            if (c =? CR) && (d =? LF) then ([c; d], s'') else ([c], s')
        | [] => ([c], [])
        end
      else let '(l, r) := first_line s' in (c :: l, r)
  end.

(** * Properties *)

(** ** Text primitives *)

Lemma startswith_spec (s p : list N) :
  startswith s p = true <-> exists q, s = p ++ q.
Proof.
  revert s. induction p as [|c p IH]; intros s; simpl.
  - split; [intros _; by exists s | done].
  - destruct s as [|x s]; simpl.
    + split; [discriminate | intros [q Hq]; discriminate].
    + rewrite andb_true_iff, N.eqb_eq, IH. split.
      * intros [-> [q ->]]. by exists q.
      * intros [q Hq]. injection Hq as -> ->. split; [done | by exists q].
Qed.

Lemma startswith_app (s p : list N) : startswith (p ++ s) p = true.
Proof. apply startswith_spec. by exists s. Qed.

Lemma startswith_length (s p : list N) :
  startswith s p = true -> (length p <= length s)%nat.
Proof.
  intros [q ->]%startswith_spec. rewrite length_app. lia.
Qed.

Lemma startswith_app_l (s t p : list N) :
  (length p <= length s)%nat -> startswith (s ++ t) p = startswith s p.
Proof.
  revert s. induction p as [|c p IH]; intros s Hlen; simpl; [done|].
  destruct s as [|x s]; simpl in *; [lia|].
  rewrite IH by lia. done.
Qed.

Lemma startswith_app_false (s t p : list N) :
  startswith (s ++ t) p = false -> startswith s p = false.
Proof.
  intros H. destruct (startswith s p) eqn:E; [|done].
  apply startswith_spec in E as [q ->].
  by rewrite <- app_assoc, startswith_app in H.
Qed.

Lemma startswith_drop (s p : list N) :
  startswith s p = true -> s = p ++ drop (length p) s.
Proof.
  intros [q ->]%startswith_spec. by rewrite drop_app_length.
Qed.

Lemma endswith_spec (s p : list N) :
  endswith s p = true <-> exists q, s = q ++ p.
Proof.
  unfold endswith. rewrite startswith_spec. split.
  - intros [q Hq]. exists (rev q).
    apply (f_equal (@rev N)) in Hq. rewrite rev_involutive in Hq.
    rewrite Hq, rev_app_distr, rev_involutive. done.
  - intros [q ->]. exists (rev q). by rewrite rev_app_distr.
Qed.

Lemma contains_spec (s d : list N) :
  contains s d = true <-> exists p q, s = p ++ d ++ q.
Proof.
  induction s as [|x s IH]; cbn [contains].
  - rewrite orb_false_r, startswith_spec. split.
    + intros [q Hq]. exists [], q. done.
    + intros (p & q & Hpq). destruct p as [|y p]; [|discriminate].
      simpl in Hpq. by exists q.
  - rewrite orb_true_iff, IH, startswith_spec. split.
    + intros [[q Hq] | (p & q & ->)].
      * exists [], q. done.
      * exists (x :: p), q. done.
    + intros (p & q & Hpq). destruct p as [|y p]; simpl in Hpq.
      * left. by exists q.
      * right. injection Hpq as -> ->. by exists p, q.
Qed.

Lemma contains_free (s d : list N) : contains s d = false <-> free_of d s.
Proof.
  unfold free_of. rewrite <- not_true_iff_false, contains_spec. split.
  - intros H p q Heq. apply H. eauto.
  - intros H (p & q & Heq). by apply (H p q).
Qed.

(** ** Runs of a character class *)

Lemma run_end_length (f : N -> bool) (prev : option N) (s : list N) :
  (length (run_end f prev s).2 + run_len f s)%nat = length s.
Proof.
  revert prev. induction s as [|x s IH]; intros prev; simpl; [done|].
  destruct (f x); simpl; [|lia]. specialize (IH (Some x)). lia.
Qed.

Lemma run_end_snd (f : N -> bool) (prev prev' : option N) (s : list N) :
  (run_end f prev s).2 = (run_end f prev' s).2.
Proof.
  revert prev prev'. induction s as [|x s IH]; intros prev prev'; simpl; [done|].
  destruct (f x); [apply IH | done].
Qed.

Lemma run_end_stop (f : N -> bool) (prev : option N) (s : list N) :
  run_len f (run_end f prev s).2 = 0%nat.
Proof.
  revert prev. induction s as [|x s IH]; intros prev; simpl; [done|].
  destruct (f x) eqn:Hx; [apply IH | simpl; by rewrite Hx].
Qed.

(** ** The matcher *)

Section MatcherFacts.
Context {A : Type}.
Implicit Types (k : pos -> option A) (f : N -> bool).

(** A greedy repetition whose continuation refuses every position inside
    the run can only stop at the end of the run. *)
Lemma greedy_maximal n f k prev s :
  (forall q x t, f x = true -> k (q, x :: t) = None) ->
  greedy n f k prev s =
    if (n <=? run_len f s)%nat then k (run_end f prev s) else None.
Proof.
  intros Hk. revert n prev.
  induction s as [|x s IH]; intros n prev; simpl.
  - by destruct n.
  - destruct (f x) eqn:Hx.
    + rewrite IH. destruct n as [|n]; simpl.
      * rewrite Hk by done. by destruct (k _).
      * destruct (n <=? run_len f s)%nat; [|done]. by destruct (k _).
    + by destruct n.
Qed.

(** The longest run is tried first. *)
Lemma greedy_first n f k prev s a :
  (n <= run_len f s)%nat ->
  k (run_end f prev s) = Some a ->
  greedy n f k prev s = Some a.
Proof.
  revert n prev. induction s as [|x s IH]; intros n prev Hn Hk; simpl in *.
  - by replace n with 0%nat by lia.
  - destruct (f x) eqn:Hx; simpl in *.
    + rewrite (IH (Nat.pred n) (Some x)); [done | lia | done].
    + by replace n with 0%nat by lia.
Qed.

Lemma greedy_short n f k prev s :
  (run_len f s < n)%nat -> greedy n f k prev s = None.
Proof.
  revert n prev. induction s as [|x s IH]; intros n prev Hn; simpl in *.
  - destruct n; [lia | done].
  - destruct (f x) eqn:Hx.
    + rewrite IH by lia. destruct n; [lia | done].
    + destruct n; [lia | done].
Qed.

Lemma run_word cs r k prev s :
  run (word cs r) k (prev, s) =
    if startswith s cs
    then run r k (last_seen prev cs, drop (length cs) s)
    else None.
Proof.
  revert prev s. induction cs as [|c cs IH]; intros prev s; [done|].
  cbn [word foldr run snd]. destruct s as [|x s]; [done|].
  cbn [startswith length drop]. destruct (x =? c) eqn:Hx; [|done].
  apply N.eqb_eq in Hx as ->. fold (word cs r). rewrite IH. cbn [andb].
  destruct (startswith s cs); [|done]. f_equal. f_equal.
  unfold last_seen. rewrite (last_cons c cs). by destruct (last cs).
Qed.

(** A lazy run over any character stops at the first success of the
    continuation. *)
Lemma lazy_closer c k0 prev s :
  lazy any_char (run (word c Eps) k0) prev s =
    if startswith s c
    then match k0 (last_seen prev c, drop (length c) s) with
         | Some a => Some a
         | None =>
             match s with
             | x :: s' => lazy any_char (run (word c Eps) k0) (Some x) s'
             | [] => None
             end
         end
    else match s with
         | x :: s' => lazy any_char (run (word c Eps) k0) (Some x) s'
         | [] => None
         end.
Proof.
  destruct s as [|x s]; cbn [lazy any_char]; rewrite run_word;
    cbn [run]; by destruct (startswith _ c).
Qed.

End MatcherFacts.

(** ** Stripping the blanks that end a line *)

Lemma match_trailing_blanks (prev : option N) (s : list N) :
  match_at TRAILING_BLANKS_RE false (prev, s) =
    if (1 <=? run_len blank s)%nat && at_eol (run_end blank prev s).2
    then Some (run_end blank prev s) else None.
Proof.
  unfold match_at, TRAILING_BLANKS_RE. cbn [run fst snd andb].
  rewrite greedy_maximal.
  - destruct (1 <=? run_len blank s)%nat; [|done]. cbn [andb run].
    destruct (run_end blank prev s) as [q [|y t]]; cbn [snd at_eol]; [done|].
    by destruct (y =? LF).
  - intros q x t Hx. cbn [run snd].
    destruct (x =? LF) eqn:E; [|done].
    apply N.eqb_eq in E as ->. discriminate.
Qed.

Lemma at_eol_rstrip_lines (prev : option N) (t : list N) :
  at_eol (rstrip_lines t) = at_eol (run_end blank prev t).2.
Proof.
  revert prev. induction t as [|y t IH]; intros prev; [done|].
  cbn [rstrip_lines run_end]. destruct (blank y) eqn:Hy; cbn [andb].
  - rewrite <- (IH (Some y)).
    destruct (at_eol (rstrip_lines t)) eqn:E; [done|].
    cbn [at_eol]. destruct (y =? LF) eqn:E'; [|done].
    apply N.eqb_eq in E' as ->. discriminate.
  - done.
Qed.

Lemma rstrip_lines_skip (prev : option N) (s : list N) :
  at_eol (run_end blank prev s).2 = true ->
  rstrip_lines s = rstrip_lines (run_end blank prev s).2.
Proof.
  revert prev. induction s as [|x s IH]; intros prev H; [done|].
  cbn [rstrip_lines run_end] in *.
  destruct (blank x) eqn:Hx; cbn [andb snd];
    [|cbn [rstrip_lines]; by rewrite Hx].
  rewrite (at_eol_rstrip_lines (Some x)), H. by apply IH.
Qed.

Lemma sub_trailing_blanks_loop (fuel : nat) (prev : option N) (s : list N) :
  (length s < fuel)%nat ->
  sub_loop fuel TRAILING_BLANKS_RE [] false prev s = rstrip_lines s.
Proof.
  revert prev s. induction fuel as [|fuel IH]; intros prev s Hlen; [lia|].
  cbn [sub_loop]. rewrite match_trailing_blanks.
  destruct ((1 <=? run_len blank s)%nat && at_eol (run_end blank prev s).2) eqn:E.
  - apply andb_true_iff in E as [E1 E2]. apply Nat.leb_le in E1.
    pose proof (run_end_length blank prev s) as Hl.
    destruct (run_end blank prev s) as [q t] eqn:Hr. cbn [snd] in *.
    replace (length t <? length s)%nat with true
      by (symmetry; apply Nat.ltb_lt; lia).
    cbn [app]. rewrite IH by lia.
    rewrite (rstrip_lines_skip prev s); by rewrite Hr.
  - destruct s as [|x s]; [done|]. cbn [length] in Hlen.
    rewrite IH by lia. cbn [rstrip_lines].
    destruct (blank x) eqn:Hx; [|done]. cbn [andb].
    rewrite (at_eol_rstrip_lines (Some x)).
    cbn [run_len run_end] in E. rewrite Hx in E. cbn in E. by rewrite E.
Qed.

Lemma sub_trailing_blanks (s : list N) :
  sub TRAILING_BLANKS_RE [] s = rstrip_lines s.
Proof. apply sub_trailing_blanks_loop. lia. Qed.

Lemma no_trailing_blank_cons (x : N) (s : list N) :
  no_trailing_blank (x :: s) <->
  (blank x = true -> at_eol s = false) /\ no_trailing_blank s.
Proof.
  unfold no_trailing_blank. split.
  - intros H. split.
    + intros Hx. by apply (H [] x s).
    + intros p c q -> Hc. by apply (H (x :: p) c q).
  - intros [H1 H2] p c q Heq Hc. destruct p as [|y p]; simpl in Heq.
    + injection Heq as -> ->. auto.
    + injection Heq as -> ->. by apply (H2 p c q).
Qed.

Lemma no_trailing_blank_nil : no_trailing_blank [].
Proof. intros [|y p] c q Heq; discriminate. Qed.

Lemma rstrip_lines_tidy (s : list N) : no_trailing_blank (rstrip_lines s).
Proof.
  induction s as [|x s IH]; [apply no_trailing_blank_nil|].
  cbn [rstrip_lines].
  destruct (blank x && at_eol (rstrip_lines s)) eqn:E; [done|].
  apply no_trailing_blank_cons. split; [|done].
  intros Hx. by rewrite Hx in E.
Qed.

Lemma rstrip_lines_fixed (s : list N) :
  no_trailing_blank s -> rstrip_lines s = s.
Proof.
  induction s as [|x s IH]; [done|].
  intros [H1 H2]%no_trailing_blank_cons. cbn [rstrip_lines].
  rewrite (IH H2). destruct (blank x); [|done]. by rewrite H1.
Qed.

(** ** Collapsing runs of newlines *)

Lemma match_newline_run (prev : option N) (s : list N) :
  match_at NEWLINE_RUN_RE false (prev, s) =
    if (3 <=? run_len (is_char LF) s)%nat
    then Some (run_end (is_char LF) prev s) else None.
Proof.
  unfold match_at, NEWLINE_RUN_RE. cbn [run fst snd andb].
  destruct (3 <=? run_len (is_char LF) s)%nat eqn:E.
  - apply Nat.leb_le in E. by apply greedy_first.
  - apply Nat.leb_gt in E. by apply greedy_short.
Qed.

Lemma startswith_two_newlines (r : list N) :
  startswith r (lit "\n\n") = (2 <=? run_len (is_char LF) r)%nat.
Proof.
  change (lit "\n\n") with [LF; LF].
  destruct r as [|x [|y r]]; cbn [startswith run_len]; unfold is_char.
  - done.
  - by destruct (x =? LF).
  - destruct (x =? LF); [|done]. by destruct (y =? LF).
Qed.

Lemma squeeze_run_len (t : list N) :
  run_len (is_char LF) (squeeze_newlines t) =
  Nat.min (run_len (is_char LF) t) 2.
Proof.
  induction t as [|x t IH]; [done|]. cbn [squeeze_newlines run_len].
  rewrite startswith_two_newlines, IH.
  change (x =? LF) with (is_char LF x).
  destruct (is_char LF x) eqn:Hx; cbn [andb].
  - destruct (2 <=? _)%nat eqn:E.
    + apply Nat.leb_le in E. rewrite IH. lia.
    + apply Nat.leb_gt in E. cbn [run_len]. rewrite Hx, IH. lia.
  - cbn [run_len]. by rewrite Hx.
Qed.

Lemma squeeze_newlines_run (prev : option N) (s : list N) :
  squeeze_newlines s =
    replicate (Nat.min (run_len (is_char LF) s) 2) LF
    ++ squeeze_newlines (run_end (is_char LF) prev s).2.
Proof.
  revert prev. induction s as [|x s IH]; intros prev; [done|].
  cbn [run_len run_end squeeze_newlines].
  rewrite startswith_two_newlines, squeeze_run_len.
  change (x =? LF) with (is_char LF x).
  destruct (is_char LF x) eqn:Hx; cbn [andb snd];
    [|cbn [squeeze_newlines]; change (x =? LF) with (is_char LF x);
      by rewrite Hx].
  apply N.eqb_eq in Hx as ->.
  destruct (2 <=? _)%nat eqn:E.
  - apply Nat.leb_le in E. rewrite (IH (Some LF)) at 1.
    f_equal. f_equal. lia.
  - apply Nat.leb_gt in E. rewrite (IH (Some LF)) at 1.
    replace (Nat.min (S (run_len (is_char LF) s)) 2)
      with (S (Nat.min (run_len (is_char LF) s) 2)) by lia.
    done.
Qed.

Lemma sub_newline_run_loop (fuel : nat) (prev : option N) (s : list N) :
  (length s < fuel)%nat ->
  sub_loop fuel NEWLINE_RUN_RE (lit "\n\n") false prev s = squeeze_newlines s.
Proof.
  revert prev s. induction fuel as [|fuel IH]; intros prev s Hlen; [lia|].
  cbn [sub_loop]. rewrite match_newline_run.
  destruct (3 <=? run_len (is_char LF) s)%nat eqn:E.
  - apply Nat.leb_le in E.
    pose proof (run_end_length (is_char LF) prev s) as Hl.
    rewrite (squeeze_newlines_run prev s).
    destruct (run_end (is_char LF) prev s) as [q t] eqn:Hr. cbn [snd] in *.
    replace (length t <? length s)%nat with true
      by (symmetry; apply Nat.ltb_lt; lia).
    rewrite IH by lia.
    by replace (Nat.min (run_len (is_char LF) s) 2) with 2%nat by lia.
  - apply Nat.leb_gt in E. destruct s as [|x s]; [done|].
    cbn [length] in Hlen. rewrite IH by lia. cbn [squeeze_newlines].
    rewrite startswith_two_newlines, squeeze_run_len.
    cbn [run_len] in E. change (x =? LF) with (is_char LF x).
    destruct (is_char LF x); [|done]. cbn [andb].
    replace (2 <=? _)%nat with false; [done|].
    symmetry. apply Nat.leb_gt. lia.
Qed.

Lemma sub_newline_run (s : list N) :
  sub NEWLINE_RUN_RE (lit "\n\n") s = squeeze_newlines s.
Proof. apply sub_newline_run_loop. lia. Qed.

Lemma startswith_three_newlines (x : N) (r : list N) :
  startswith (x :: r) (lit "\n\n\n") = (x =? LF) && startswith r (lit "\n\n").
Proof. done. Qed.

Lemma squeeze_newlines_no_run (s : list N) :
  contains (squeeze_newlines s) (lit "\n\n\n") = false.
Proof.
  induction s as [|x s IH]; [done|]. cbn [squeeze_newlines].
  destruct ((x =? LF) && _) eqn:E; [done|].
  cbn [contains]. by rewrite startswith_three_newlines, E, IH.
Qed.

Lemma squeeze_newlines_fixed (s : list N) :
  contains s (lit "\n\n\n") = false -> squeeze_newlines s = s.
Proof.
  induction s as [|x s IH]; [done|]. cbn [contains].
  rewrite startswith_three_newlines.
  intros [H1 H2]%orb_false_iff. cbn [squeeze_newlines].
  by rewrite (IH H2), H1.
Qed.

Lemma at_eol_squeeze_newlines (s : list N) :
  at_eol (squeeze_newlines s) = at_eol s.
Proof.
  destruct s as [|x s]; [done|]. cbn [squeeze_newlines].
  destruct (x =? LF) eqn:Hx; cbn [andb]; [|by cbn; rewrite Hx].
  destruct (startswith _ _) eqn:E; [|by cbn; rewrite Hx].
  apply startswith_spec in E as [q ->]. by cbn; rewrite Hx.
Qed.

Lemma squeeze_newlines_tidy (s : list N) :
  no_trailing_blank s -> no_trailing_blank (squeeze_newlines s).
Proof.
  induction s as [|x s IH]; [done|].
  intros [H1 H2]%no_trailing_blank_cons. cbn [squeeze_newlines].
  destruct ((x =? LF) && _); [by apply IH|].
  apply no_trailing_blank_cons. split; [|by apply IH].
  rewrite at_eol_squeeze_newlines. done.
Qed.

Lemma squeeze_newlines_nil (s : list N) : squeeze_newlines s = [] -> s = [].
Proof.
  destruct s as [|x s]; [done|]. cbn [squeeze_newlines].
  destruct ((x =? LF) && _) eqn:E; [|done].
  apply andb_true_iff in E as [_ [q E]%startswith_spec]. by rewrite E.
Qed.

Lemma rstrip_lines_nil (s : list N) :
  rstrip_lines s = [] <-> forallb blank s = true.
Proof.
  induction s as [|x s IH]; [done|]. cbn [rstrip_lines forallb].
  destruct (blank x) eqn:Hx; cbn [andb].
  - destruct (at_eol (rstrip_lines s)) eqn:E.
    + done.
    + split; [done|]. intros H. apply IH in H. by rewrite H in E.
  - done.
Qed.

(** ** The final newline *)

Lemma ensure_final_newline_tidy (t : list N) :
  no_trailing_blank t -> no_trailing_blank (ensure_final_newline t).
Proof.
  intros Ht. unfold ensure_final_newline.
  destruct (negb _ && negb _) eqn:E; [|done].
  change (lit "\n") with [LF]. intros p c q Heq Hc.
  destruct q as [|z q _] using rev_ind.
  - apply app_inj_tail in Heq as [_ <-]. discriminate.
  - change (p ++ c :: q ++ [z]) with (p ++ (c :: q) ++ [z]) in Heq.
    rewrite app_assoc in Heq. apply app_inj_tail in Heq as [-> <-].
    destruct q as [|y q].
    + by pose proof (Ht p c [] eq_refl Hc).
    + apply (Ht p c (y :: q)); done.
Qed.

Lemma ensure_final_newline_no_run (t : list N) :
  contains t (lit "\n\n\n") = false ->
  contains (ensure_final_newline t) (lit "\n\n\n") = false.
Proof.
  intros Ht. unfold ensure_final_newline.
  destruct (negb _ && negb _) eqn:E; [|done].
  apply andb_true_iff in E as [E _]. apply negb_true_iff in E.
  apply contains_free. apply contains_free in Ht.
  change (lit "\n") with [LF] in *. change (lit "\n\n\n") with [LF; LF; LF] in *.
  intros p q Heq. destruct q as [|z q _] using rev_ind.
  - rewrite app_nil_r in Heq.
    change [LF; LF; LF] with ([LF; LF] ++ [LF]) in Heq.
    rewrite app_assoc in Heq. apply app_inj_tail in Heq as [-> _].
    assert (endswith (p ++ [LF; LF]) [LF] = true) as E'
      by (apply endswith_spec; exists (p ++ [LF]); by rewrite <- app_assoc).
    congruence.
  - rewrite !app_assoc in Heq. apply app_inj_tail in Heq as [-> _].
    apply (Ht p q). by rewrite <- !app_assoc.
Qed.

Lemma ensure_final_newline_end (t : list N) :
  t <> [] -> endswith (ensure_final_newline t) (lit "\n") = true.
Proof.
  intros Ht. unfold ensure_final_newline.
  destruct (endswith t (lit "\n")) eqn:E; cbn [negb andb]; [done|].
  rewrite bool_decide_eq_false_2 by done. cbn [negb].
  apply endswith_spec. by exists t.
Qed.

Lemma ensure_final_newline_fixed (t : list N) :
  t = [] \/ endswith t (lit "\n") = true -> ensure_final_newline t = t.
Proof.
  unfold ensure_final_newline. intros [-> | ->]; done.
Qed.

(** ** The normaliser *)

Lemma cleanup_empty_lines_unfold (t : list N) :
  cleanup_empty_lines t =
  ensure_final_newline (squeeze_newlines (rstrip_lines t)).
Proof.
  unfold cleanup_empty_lines.
  by rewrite sub_trailing_blanks, sub_newline_run.
Qed.

Lemma cleanup_empty_lines_tidy (t : list N) :
  no_trailing_blank (cleanup_empty_lines t).
Proof.
  rewrite cleanup_empty_lines_unfold.
  apply ensure_final_newline_tidy, squeeze_newlines_tidy, rstrip_lines_tidy.
Qed.

Lemma cleanup_empty_lines_no_run (t : list N) :
  contains (cleanup_empty_lines t) (lit "\n\n\n") = false.
Proof.
  rewrite cleanup_empty_lines_unfold.
  apply ensure_final_newline_no_run, squeeze_newlines_no_run.
Qed.

Lemma cleanup_empty_lines_end (t : list N) :
  cleanup_empty_lines t = [] \/
  endswith (cleanup_empty_lines t) (lit "\n") = true.
Proof.
  rewrite cleanup_empty_lines_unfold.
  destruct (squeeze_newlines (rstrip_lines t)) as [|x r] eqn:E.
  - by left.
  - right. by apply ensure_final_newline_end.
Qed.

Lemma cleanup_empty_lines_fixed (r : list N) :
  no_trailing_blank r ->
  contains r (lit "\n\n\n") = false ->
  r = [] \/ endswith r (lit "\n") = true ->
  cleanup_empty_lines r = r.
Proof.
  intros H1 H2 H3. rewrite cleanup_empty_lines_unfold.
  rewrite rstrip_lines_fixed, squeeze_newlines_fixed by done.
  by apply ensure_final_newline_fixed.
Qed.

Lemma cleanup_empty_lines_again (x : list N) :
  cleanup_empty_lines (cleanup_empty_lines x) = cleanup_empty_lines x.
Proof.
  apply cleanup_empty_lines_fixed.
  - apply cleanup_empty_lines_tidy.
  - apply cleanup_empty_lines_no_run.
  - apply cleanup_empty_lines_end.
Qed.

Lemma cleanup_empty_lines_nil (t : list N) :
  cleanup_empty_lines t = [] <-> forallb blank t = true.
Proof.
  rewrite cleanup_empty_lines_unfold, <- rstrip_lines_nil. split.
  - intros H. apply squeeze_newlines_nil.
    destruct (squeeze_newlines (rstrip_lines t)) as [|y r] eqn:E; [done|].
    pose proof (ensure_final_newline_end (y :: r)) as He.
    rewrite H in He. by specialize (He ltac:(done)).
  - by intros ->.
Qed.

(** ** Delimited spans *)

Lemma after_first_occurrence (c t rest : list N) :
  after_first c t = Some rest -> exists u, t = u ++ c ++ rest.
Proof.
  induction t as [|x t IH]; cbn [after_first].
  - destruct (startswith [] c) eqn:E; [|done].
    intros [= <-]. exists []. by apply startswith_drop.
  - destruct (startswith (x :: t) c) eqn:E.
    + intros [= <-]. exists []. by apply startswith_drop.
    + intros [u ->]%IH. by exists (x :: u).
Qed.

Lemma after_first_none (c t : list N) :
  after_first c t = None <-> free_of c t.
Proof.
  rewrite <- contains_free.
  induction t as [|x t IH]; cbn [after_first contains].
  - rewrite orb_false_r. by destruct (startswith [] c).
  - destruct (startswith (x :: t) c); [done|]. by rewrite IH.
Qed.

Lemma lazy_after_first (c : list N) (prev : option N) (t : list N) :
  snd <$> lazy any_char (run (word c Eps) (fun q => Some q)) prev t =
  after_first c t.
Proof.
  revert prev. induction t as [|x t IH]; intros prev;
    rewrite lazy_closer; cbn [after_first];
    destruct (startswith _ c); try done; apply IH.
Qed.

Lemma match_span (o c : list N) (prev : option N) (s : list N) :
  snd <$> match_at (word o (Cat (LazyStar any_char) (word c Eps))) false (prev, s) =
  if startswith s o then after_first c (drop (length o) s) else None.
Proof.
  unfold match_at. rewrite run_word. destruct (startswith s o); [|done].
  cbn [run fst snd andb]. apply lazy_after_first.
Qed.

Lemma cut_skip (o c a rest : list N) :
  cut o c (length a) (a ++ rest) = cut o c 0 rest.
Proof. induction a as [|x a IH]; [by destruct rest | done]. Qed.

Lemma cut_cons (o c : list N) (x : N) (s : list N) :
  cut o c 0 (x :: s) =
    if startswith (x :: s) o then
      match after_first c (drop (length o) (x :: s)) with
      | Some rest => cut o c (length s - length rest) s
      | None => x :: cut o c 0 s
      end
    else x :: cut o c 0 s.
Proof. done. Qed.

Lemma sub_span_loop (o c : list N) (fuel : nat) (prev : option N) (s : list N) :
  o <> [] ->
  (length s < fuel)%nat ->
  sub_loop fuel (word o (Cat (LazyStar any_char) (word c Eps))) [] false prev s =
  cut o c 0 s.
Proof.
  intros Ho. revert prev s.
  induction fuel as [|fuel IH]; intros prev s Hlen; [lia|].
  cbn [sub_loop]. pose proof (match_span o c prev s) as Hm.
  destruct (match_at _ false (prev, s)) as [[q rest]|]; cbn in Hm.
  - destruct (startswith s o) eqn:Hs; [|done].
    apply startswith_drop in Hs as Hd. symmetry in Hm.
    apply after_first_occurrence in Hm as Hu. destruct Hu as [u Hu].
    destruct o as [|y o]; [done|]. destruct s as [|x s]; [done|].
    rewrite Hu in Hd. injection Hd as -> Hd.
    assert (length s = length (o ++ u ++ c) + length rest)%nat as Hl
      by (rewrite Hd, !length_app; lia).
    cbn [length] in Hlen.
    replace (length rest <? length (y :: s))%nat with true
      by (symmetry; apply Nat.ltb_lt; cbn [length]; lia).
    cbn [app]. rewrite cut_cons, Hs, Hm, IH by lia.
    replace (length s - length rest)%nat with (length (o ++ u ++ c)) by lia.
    replace s with ((o ++ u ++ c) ++ rest) at 1
      by (by rewrite Hd, <- !app_assoc).
    by rewrite cut_skip.
  - destruct s as [|x s]; [done|]. cbn [length] in Hlen.
    rewrite IH by lia. rewrite cut_cons.
    destruct (startswith (x :: s) o); [|done]. by rewrite <- Hm.
Qed.

Lemma sub_span (o c s : list N) :
  o <> [] ->
  sub (word o (Cat (LazyStar any_char) (word c Eps))) [] s = remove_spans o c s.
Proof. intros Ho. apply sub_span_loop; [done | lia]. Qed.

Lemma sub_html_comments (s : list N) :
  sub HTML_COMMENT_RE [] s = remove_spans (lit "<!--") (lit "-->") s.
Proof. by apply sub_span. Qed.

Lemma sub_block_comments (s : list N) :
  sub BLOCK_COMMENT_RE [] s = remove_spans (lit "/*") (lit "*/") s.
Proof. by apply sub_span. Qed.

(** ** Line comments *)

Lemma match_line_comment (prev : option N) (s : list N) :
  match_at LINE_COMMENT_RE false (prev, s) =
    if negb (bool_decide (prev = Some COLON)) && startswith s (lit "//")
    then Some (run_end not_newline (Some SLASH) (drop 2 s))
    else None.
Proof.
  unfold match_at, LINE_COMMENT_RE. cbn [run fst snd andb].
  assert (forall p : pos,
    run (word (lit "//") (Many 0 not_newline)) (fun q => Some q) p =
    if startswith p.2 (lit "//")
    then Some (run_end not_newline (Some SLASH) (drop 2 p.2)) else None)
    as Hw.
  { intros [q t]. rewrite run_word. cbn [snd].
    destruct (startswith t (lit "//")); [|done].
    cbn [run fst snd]. by apply greedy_first; [lia|]. }
  destruct prev as [x|]; cbn [negb andb].
  - destruct (x =? COLON) eqn:E.
    + apply N.eqb_eq in E as ->. by rewrite bool_decide_eq_true_2.
    + apply N.eqb_neq in E. rewrite bool_decide_eq_false_2 by congruence.
      apply Hw.
  - rewrite bool_decide_eq_false_2 by done. apply Hw.
Qed.

Lemma uncomment_lines_skip (p p' p'' : option N) (t : list N) :
  uncomment_lines true p t =
  uncomment_lines false p' (run_end not_newline p'' t).2.
Proof.
  revert p p' p''. induction t as [|y t IH]; intros p p' p''; [done|].
  cbn [uncomment_lines run_end]. unfold not_newline at 1.
  destruct (y =? LF) eqn:E; cbn [negb snd].
  - apply N.eqb_eq in E as ->. cbn [uncomment_lines].
    by rewrite andb_false_r.
  - apply IH.
Qed.

Lemma startswith_two (s : list N) (a b : N) :
  startswith s [a; b] = true -> exists t, s = a :: b :: t.
Proof. intros [t ->]%startswith_spec. by exists t. Qed.

Lemma sub_line_comments_loop (fuel : nat) (prev : option N) (s : list N) :
  (length s < fuel)%nat ->
  sub_loop fuel LINE_COMMENT_RE [] false prev s = uncomment_lines false prev s.
Proof.
  revert prev s. induction fuel as [|fuel IH]; intros prev s Hlen; [lia|].
  cbn [sub_loop]. rewrite match_line_comment.
  destruct (negb _ && startswith s (lit "//")) eqn:E.
  - apply andb_true_iff in E as E'. destruct E' as [_ Hs].
    change (lit "//") with [SLASH; SLASH] in Hs.
    apply startswith_two in Hs as [t ->].
    cbn [drop length] in *. rewrite drop_0.
    pose proof (run_end_length not_newline (Some SLASH) t) as Hl.
    destruct (run_end not_newline (Some SLASH) t) as [q rest] eqn:Hr.
    cbn [snd] in *.
    replace (length rest <? S (S (length t)))%nat with true
      by (symmetry; apply Nat.ltb_lt; lia).
    cbn [app]. rewrite IH by lia.
    cbn [uncomment_lines]. rewrite E.
    change (SLASH =? LF) with false. cbn iota.
    rewrite (uncomment_lines_skip _ q (Some SLASH) t). by rewrite Hr.
  - destruct s as [|x s]; [done|]. cbn [length] in Hlen.
    rewrite IH by lia. cbn [uncomment_lines]. by rewrite E.
Qed.

Lemma sub_line_comments (s : list N) :
  sub LINE_COMMENT_RE [] s = remove_line_comments s.
Proof. apply sub_line_comments_loop. lia. Qed.

(** ** Text without a match *)

Lemma sub_loop_no_match (r : regex) (repl : list N) (fuel : nat)
    (prev : option N) (s : list N) :
  search_from r prev s = false ->
  sub_loop fuel r repl false prev s = s.
Proof.
  revert fuel prev. induction s as [|x s IH]; intros [|fuel] prev; try done;
    cbn [search_from sub_loop];
    destruct (match_at r false _) as [[q t]|]; try done.
  intros H. by rewrite IH.
Qed.

Lemma sub_no_match (r : regex) (repl s : list N) :
  search r s = false -> sub r repl s = s.
Proof. apply sub_loop_no_match. Qed.

(** ** Text after the last closer *)

Lemma free_of_app_r (c u v : list N) : free_of c (u ++ v) -> free_of c v.
Proof.
  intros H p q ->. apply (H (u ++ p) q). by rewrite <- app_assoc.
Qed.

Lemma free_of_drop (c t : list N) (n : nat) : free_of c t -> free_of c (drop n t).
Proof.
  intros H. apply (free_of_app_r c (take n t)). by rewrite take_drop.
Qed.

Lemma cut_free (o c t : list N) : free_of c t -> cut o c 0 t = t.
Proof.
  induction t as [|x t IH]; [done|]. intros H. rewrite cut_cons.
  assert (after_first c (drop (length o) (x :: t)) = None) as ->
    by (by apply after_first_none, free_of_drop).
  rewrite IH by apply (free_of_app_r c [x]), H.
  by destruct (startswith _ o).
Qed.

Lemma after_first_app_some (c t b r : list N) :
  after_first c t = Some r -> after_first c (t ++ b) = Some (r ++ b).
Proof.
  induction t as [|x t IH]; cbn [after_first].
  - destruct (startswith [] c) eqn:E; [|done]. intros [= <-].
    apply startswith_length in E. destruct c; [|simpl in E; lia].
    simpl. by destruct b.
  - destruct (startswith (x :: t) c) eqn:E.
    + intros [= <-]. apply startswith_length in E as El.
      change ((x :: t) ++ b) with (x :: t ++ b). cbn [after_first].
      change (x :: t ++ b) with ((x :: t) ++ b).
      rewrite startswith_app_l, E by done. by rewrite drop_app_le.
    + intros H. pose proof (after_first_occurrence _ _ _ H) as [u Hu].
      assert (length c <= length (x :: t))%nat as El
        by (simpl; rewrite Hu, !length_app; lia).
      change ((x :: t) ++ b) with (x :: t ++ b). cbn [after_first].
      change (x :: t ++ b) with ((x :: t) ++ b).
      rewrite startswith_app_l, E by done. by apply IH.
Qed.

Lemma after_first_app_inv (c t b rest : list N) :
  c <> [] ->
  (forall p q, t ++ b = p ++ c ++ q -> (length p + length c <= length t)%nat) ->
  after_first c (t ++ b) = Some rest ->
  exists r, after_first c t = Some r /\ rest = r ++ b.
Proof.
  intros Hc. induction t as [|x t IH]; intros Hocc H.
  - apply after_first_occurrence in H as [u Hu].
    specialize (Hocc u rest Hu). destruct c; [done | simpl in Hocc; lia].
  - change ((x :: t) ++ b) with (x :: t ++ b) in H. cbn [after_first] in *.
    change (x :: t ++ b) with ((x :: t) ++ b) in H.
    destruct (startswith ((x :: t) ++ b) c) eqn:E.
    + injection H as <-. apply startswith_drop in E as Ed.
      pose proof (Hocc [] _ Ed) as Hl. simpl in Hl.
      rewrite startswith_app_l in E by (simpl; lia). rewrite E.
      exists (drop (length c) (x :: t)). split; [done|].
      change (x :: t ++ b) with ((x :: t) ++ b).
      rewrite drop_app_le; [done | simpl; lia].
    + rewrite (startswith_app_false _ _ _ E).
      apply IH; [|done]. intros p q Hpq.
      specialize (Hocc (x :: p) q). simpl in Hocc.
      rewrite Hpq in Hocc. specialize (Hocc eq_refl). lia.
Qed.

(** When every closer ends inside [a], nothing of [b] is removed. *)
Lemma cut_tail (o c a b : list N) (k : nat) :
  c <> [] ->
  (forall p q, a ++ b = p ++ c ++ q -> (length p + length c <= length a)%nat) ->
  (k <= length a)%nat ->
  cut o c k (a ++ b) = cut o c k a ++ b.
Proof.
  intros Hc. revert k. induction a as [|x a IH]; intros k Hocc Hk.
  - replace k with 0%nat by (simpl in Hk; lia). simpl.
    destruct b as [|y b]; [done|]. apply cut_free. intros p q Hpq.
    specialize (Hocc p q Hpq). destruct c; [done | simpl in Hocc; lia].
  - assert (forall p q, a ++ b = p ++ c ++ q ->
                        (length p + length c <= length a)%nat) as Hocc'.
    { intros p q Hpq. specialize (Hocc (x :: p) q). simpl in Hocc.
      rewrite Hpq in Hocc. specialize (Hocc eq_refl). lia. }
    destruct k as [|k]; [|simpl in *; apply IH; [done | lia]].
    change ((x :: a) ++ b) with (x :: a ++ b). rewrite !cut_cons.
    change (x :: a ++ b) with ((x :: a) ++ b).
    destruct (startswith ((x :: a) ++ b) o) eqn:Hs.
    + destruct (after_first c (drop (length o) ((x :: a) ++ b))) as [rest|] eqn:Hm.
      * apply startswith_drop in Hs as Hd.
        pose proof (after_first_occurrence _ _ _ Hm) as [u Hu].
        assert (length o <= length (x :: a))%nat as Hlo.
        { rewrite Hu in Hd. specialize (Hocc (o ++ u) rest).
          rewrite <- app_assoc in Hocc. specialize (Hocc Hd).
          rewrite length_app in Hocc. lia. }
        rewrite startswith_app_l in Hs by done. rewrite Hs.
        rewrite drop_app_le in Hm by done.
        apply after_first_app_inv in Hm as (r & Hr & ->); [|done|].
        -- rewrite Hr. rewrite !length_app.
           replace (length a + length b - (length r + length b))%nat
             with (length a - length r)%nat by lia.
           apply IH; [done | lia].
        -- intros p q Hpq. apply startswith_drop in Hs.
           specialize (Hocc (o ++ p) q). rewrite <- app_assoc, <- Hpq in Hocc.
           rewrite app_assoc, <- Hs in Hocc. specialize (Hocc eq_refl).
           rewrite length_app in Hocc. rewrite length_drop. lia.
      * rewrite IH by (done || lia).
        destruct (startswith (x :: a) o) eqn:Hs'; [|done].
        apply startswith_length in Hs' as Hlo.
        rewrite drop_app_le in Hm by done.
        destruct (after_first c (drop (length o) (x :: a))) as [r|] eqn:Hr;
          [|done].
        apply (after_first_app_some _ _ b) in Hr. congruence.
    + rewrite (startswith_app_false _ _ _ Hs).
      by rewrite IH by (done || lia).
Qed.

(** ** Lines *)

Lemma splitlines_from_cons (cur : list N) (c : N) (s : list N) :
  splitlines_from cur (c :: s) =
    if islinebreak c then
      match s with
      | d :: s' =>
          if (c =? CR) && (d =? LF)
          then rev (d :: c :: cur) :: splitlines_from [] s'
          else rev (c :: cur) :: splitlines_from [] s
      | [] => [rev (c :: cur)]
      end
    else splitlines_from (c :: cur) s.
Proof. done. Qed.

Lemma join_splitlines_from (n : nat) (s cur : list N) :
  (length s <= n)%nat -> join (splitlines_from cur s) = rev cur ++ s.
Proof.
  unfold join. revert s cur. induction n as [|n IH]; intros s cur Hn.
  - destruct s; [|simpl in Hn; lia]. simpl.
    destruct cur; simpl; by rewrite ?app_nil_r.
  - destruct s as [|c s].
    { simpl. destruct cur; simpl; by rewrite ?app_nil_r. }
    rewrite splitlines_from_cons. cbn [length] in Hn.
    destruct (islinebreak c).
    + destruct s as [|d s].
      * simpl. by rewrite app_nil_r.
      * cbn [length] in Hn.
        destruct ((c =? CR) && (d =? LF)); rewrite concat_cons.
        -- rewrite (IH s []) by lia. simpl. by rewrite <- !app_assoc.
        -- rewrite (IH (d :: s) []) by (cbn [length]; lia).
           simpl. by rewrite <- !app_assoc.
    + rewrite (IH s (c :: cur)) by lia. simpl. by rewrite <- app_assoc.
Qed.

Lemma join_splitlines (s : list N) : join (splitlines s) = s.
Proof. apply (join_splitlines_from (length s)). lia. Qed.

Lemma lstrip_lstrip (s : list N) : lstrip (lstrip s) = lstrip s.
Proof.
  induction s as [|c s IH]; [done|]. simpl.
  destruct (isspace c) eqn:E; [done|]. simpl. by rewrite E.
Qed.

Lemma filter_all {A : Type} (f : A -> bool) (l : list A) :
  forallb f l = true -> List.filter f l = l.
Proof.
  induction l as [|x l IH]; [done|]. simpl.
  intros [-> H]%andb_true_iff. by rewrite IH.
Qed.

(** ** Keyword policy *)

Section PolicyFacts.

Variable lower : list N -> list N.
Variable isalnum : N -> bool.
Variable tokenize : list N -> list TokenInfo * option exn.
Variable untokenize : list TokenInfo -> result (list N).

Lemma any_keyword_in_spec (text : list N) (K : gset (list N)) :
  any_keyword_in text K = true <->
  exists kw, kw ∈ K /\ exists p q, text = p ++ kw ++ q.
Proof.
  unfold any_keyword_in. rewrite existsb_exists. split.
  - intros (kw & Hin & Hc). exists kw. split.
    + by apply elem_of_elements, list_elem_of_In.
    + by apply contains_spec.
  - intros (kw & Hin & Hc). exists kw. split.
    + by apply list_elem_of_In, elem_of_elements.
    + by apply contains_spec.
Qed.

Lemma any_keyword_in_empty (text : list N) : any_keyword_in text ∅ = false.
Proof. unfold any_keyword_in. by rewrite elements_empty. Qed.

(** ** Shell stripper *)

Lemma shell_step_spec (K : gset (list N)) (acc : list (list N)) (line : list N) :
  shell_step lower K acc line =
  acc ++ (if sh_line_kept lower K line then [line] else []).
Proof.
  unfold shell_step, sh_line_kept, sh_comment_line, should_keep_sh_comment.
  rewrite lstrip_lstrip.
  destruct (startswith (lstrip line) (lit "#")); cbn [negb orb];
    [|done].
  destruct (any_keyword_in _ K); [done | by rewrite app_nil_r].
Qed.

Lemma shell_loop_spec (K : gset (list N)) (ls acc : list (list N)) :
  fold_left (shell_step lower K) ls acc =
  acc ++ List.filter (sh_line_kept lower K) ls.
Proof.
  revert acc. induction ls as [|l ls IH]; intros acc; simpl.
  - by rewrite app_nil_r.
  - rewrite IH, shell_step_spec, <- app_assoc.
    by destruct (sh_line_kept lower K l).
Qed.

Lemma shell_new_lines_spec (lines : list (list N)) (K : gset (list N)) :
  shell_new_lines lower lines K =
  sh_shebang lines ++ List.filter (sh_line_kept lower K) (sh_tested_lines lines).
Proof.
  destruct lines as [|line0 rest]; [done|].
  unfold shell_new_lines, sh_shebang, sh_tested_lines.
  destruct (has_shebang line0); by rewrite shell_loop_spec.
Qed.

Lemma strip_shell_comments_unfold (s : list N) (K : gset (list N)) :
  strip_shell_comments lower s K =
  cleanup_empty_lines (join (shell_new_lines lower (splitlines s) K)).
Proof.
  unfold strip_shell_comments. by destruct (splitlines s).
Qed.

Lemma sh_lines_split (lines : list (list N)) :
  sh_shebang lines ++ sh_tested_lines lines = lines.
Proof.
  destruct lines as [|line0 rest]; [done|].
  unfold sh_shebang, sh_tested_lines. by destruct (has_shebang line0).
Qed.

(** ** Python stripper *)

Lemma python_prefix_take (lines : list (list N)) :
  (python_prefix isalnum lines).1 =
  take (python_prefix isalnum lines).2 lines.
Proof.
  unfold python_prefix. destruct lines as [|line0 rest]; [done|].
  destruct (has_shebang line0).
  - destruct rest as [|line1 rest]; [done|]. simpl.
    destruct (has_encoding_cookie isalnum line1); simpl; by rewrite ?take_0.
  - simpl. destruct (has_encoding_cookie isalnum line0); simpl;
      by rewrite ?take_0.
Qed.

Lemma kept_head_analysed_text (s : list N) :
  kept_head isalnum s ++ analysed_text isalnum s = s.
Proof.
  unfold kept_head, analysed_text, join.
  rewrite python_prefix_take, <- concat_app, take_drop.
  apply join_splitlines.
Qed.

Lemma strip_python_comments_unfold (s : list N) (K : gset (list N)) :
  strip_python_comments lower isalnum tokenize untokenize s K =
  match (tokenize (analysed_text isalnum s)).2 with
  | Some TokenError => Return s
  | Some e => Raise e
  | None =>
      match untokenize (fold_left (python_step lower K)
                          (tokenize (analysed_text isalnum s)).1 []) with
      | Raise _ => Return s
      | Return processed_text =>
          Return (kept_head isalnum s ++ cleanup_empty_lines processed_text)
      end
  end.
Proof.
  unfold strip_python_comments, analysed_text, kept_head.
  destruct (python_prefix isalnum (splitlines s)) as [head i]. cbn [fst snd].
  by destruct (tokenize _) as [yielded stopped].
Qed.

End PolicyFacts.

(** ** What the normaliser never removes *)

Lemma rstrip_lines_keeps (x : N) (s : list N) :
  x ∈ s -> blank x = false -> x ∈ rstrip_lines s.
Proof.
  intros Hin Hx. induction s as [|y s IH]; [done|]. cbn [rstrip_lines].
  apply elem_of_cons in Hin as [<- | Hin].
  - rewrite Hx. cbn [andb]. apply elem_of_cons. by left.
  - destruct (blank y && _); [by apply IH|].
    apply elem_of_cons. right. by apply IH.
Qed.

Lemma squeeze_newlines_keeps (x : N) (s : list N) :
  x ∈ s -> x <> LF -> x ∈ squeeze_newlines s.
Proof.
  intros Hin Hx. induction s as [|y s IH]; [done|]. cbn [squeeze_newlines].
  apply elem_of_cons in Hin as [<- | Hin].
  - apply N.eqb_neq in Hx. rewrite Hx. cbn [andb]. apply elem_of_cons. by left.
  - destruct ((y =? LF) && _); [by apply IH|].
    apply elem_of_cons. right. by apply IH.
Qed.

Lemma cleanup_empty_lines_keeps (x : N) (s : list N) :
  x ∈ s -> blank x = false -> x <> LF -> x ∈ cleanup_empty_lines s.
Proof.
  intros Hin Hb Hx. rewrite cleanup_empty_lines_unfold.
  assert (x ∈ squeeze_newlines (rstrip_lines s)) as H
    by (by apply squeeze_newlines_keeps; [apply rstrip_lines_keeps|]).
  unfold ensure_final_newline. destruct (negb _ && negb _); [|done].
  apply elem_of_app. by left.
Qed.

(** ** Closers before an open comment *)

Lemma closers_before_html (a b p q : list N) :
  contains (lit "<!--" ++ b) (lit "-->") = false ->
  a ++ lit "<!--" ++ b = p ++ lit "-->" ++ q ->
  (length p + length (lit "-->") <= length a)%nat.
Proof.
  intros Hfree%contains_free Heq.
  change (lit "<!--") with [LT; BANG; MINUS; MINUS] in *.
  change (lit "-->") with [MINUS; MINUS; GT] in *.
  apply app_eq_inv in Heq as [(k & -> & Hk) | (k & -> & Hk)].
  - rewrite length_app.
    destruct k as [|k1 [|k2 [|k3 k]]]; simpl in *; try lia; discriminate.
  - by destruct (Hfree k q).
Qed.

Lemma closers_before_block (a b p q : list N) :
  contains (lit "/*" ++ b) (lit "*/") = false ->
  endswith a (lit "*") = false ->
  a ++ lit "/*" ++ b = p ++ lit "*/" ++ q ->
  (length p + length (lit "*/") <= length a)%nat.
Proof.
  intros Hfree%contains_free Hend Heq.
  change (lit "/*") with [SLASH; STAR] in *.
  change (lit "*/") with [STAR; SLASH] in *.
  change (lit "*") with [STAR] in *.
  apply app_eq_inv in Heq as [(k & -> & Hk) | (k & -> & Hk)].
  - rewrite length_app.
    destruct k as [|k1 [|k2 k]]; simpl in *; try lia.
    + by destruct (Hfree [] q).
    + injection Hk as <- _.
      assert (endswith (p ++ [STAR]) [STAR] = true) as E
        by (apply endswith_spec; by exists p).
      congruence.
  - by destruct (Hfree k q).
Qed.

Lemma remove_spans_tail_html (a b : list N) :
  contains (lit "<!--" ++ b) (lit "-->") = false ->
  remove_spans (lit "<!--") (lit "-->") (a ++ lit "<!--" ++ b) =
  remove_spans (lit "<!--") (lit "-->") a ++ lit "<!--" ++ b.
Proof.
  intros H. apply cut_tail; [done | | lia].
  intros p q. by apply closers_before_html.
Qed.

Lemma remove_spans_tail_block (a b : list N) :
  contains (lit "/*" ++ b) (lit "*/") = false ->
  endswith a (lit "*") = false ->
  remove_spans (lit "/*") (lit "*/") (a ++ lit "/*" ++ b) =
  remove_spans (lit "/*") (lit "*/") a ++ lit "/*" ++ b.
Proof.
  intros H1 H2. apply cut_tail; [done | | lia].
  intros p q. by apply closers_before_block.
Qed.

Lemma remove_spans_free (o c s : list N) :
  contains s c = false -> remove_spans o c s = s.
Proof. intros H%contains_free. by apply cut_free. Qed.

(** * The claims *)

(** C2 (as stated, refuted).  The result need not end with exactly one
    newline: ["a\n\n"] is returned as it is, with two newlines at its end,
    and the non-empty text [" "] is turned into the empty text. *)
Lemma cleanup_empty_lines_trailing_newline_counterexample :
  (lit "a\n\n" <> [] /\
   ~ one_trailing_newline (cleanup_empty_lines (lit "a\n\n"))) /\
  (lit " " <> [] /\
   ~ one_trailing_newline (cleanup_empty_lines (lit " "))).
Proof.
  split; (split; [done|]); intros [H1 H2]; vm_compute in H1, H2; discriminate.
Qed.

(** C2 (amended).  In [cleanup_empty_lines t] no blank (space or tab) stands
    right before a newline or at the end of the text, three newlines never
    follow one another, and the text ends with a newline unless [t] is made
    of blanks only, in which case the result is empty. *)
Theorem cleanup_empty_lines_normal_form (t : list N) :
  no_trailing_blank (cleanup_empty_lines t) /\
  free_of (lit "\n\n\n") (cleanup_empty_lines t) /\
  (if forallb blank t
   then cleanup_empty_lines t = []
   else endswith (cleanup_empty_lines t) (lit "\n") = true).
Proof.
  split; [apply cleanup_empty_lines_tidy|].
  split; [apply contains_free, cleanup_empty_lines_no_run|].
  destruct (forallb blank t) eqn:E.
  - by apply cleanup_empty_lines_nil.
  - destruct (cleanup_empty_lines_end t) as [H | H]; [|done].
    apply cleanup_empty_lines_nil in H. congruence.
Qed.

(** C3.  The normaliser is idempotent. *)
Theorem cleanup_empty_lines_idempotent (x : list N) :
  cleanup_empty_lines (cleanup_empty_lines x) = cleanup_empty_lines x.
Proof. apply cleanup_empty_lines_again. Qed.

(** C10 (as stated, refuted).  In ["/* a // b"] the [/*] is never closed,
    yet the JS stripper removes the text [// b] that follows it.  In
    ["/**/*"] nothing closes the last [/*], yet the CSS stripper takes its
    [/] away as the end of the comment before it. *)
Lemma strip_comments_open_block_counterexample :
  (contains (lit "/* a // b") (lit "*/") = false /\
   ~ exists pre,
       strip_js_comments (lit "/* a // b") =
       cleanup_empty_lines (pre ++ lit "/* a // b")) /\
  (contains (lit "/*") (lit "*/") = false /\
   ~ exists pre,
       strip_css_comments (lit "/**" ++ lit "/*") =
       cleanup_empty_lines (pre ++ lit "/*")).
Proof.
  split; (split; [done|]); intros [pre H].
  - assert (98 ∈ cleanup_empty_lines (pre ++ lit "/* a // b")) as Hin.
    { apply cleanup_empty_lines_keeps; [|done|done].
      apply elem_of_app. right. apply list_elem_of_lookup. by exists 8%nat. }
    rewrite <- H in Hin. vm_compute in Hin.
    apply list_elem_of_In in Hin. simpl in Hin. intuition discriminate.
  - assert (SLASH ∈ cleanup_empty_lines (pre ++ lit "/*")) as Hin.
    { apply cleanup_empty_lines_keeps; [|done|done].
      apply elem_of_app. right. apply list_elem_of_lookup. by exists 0%nat. }
    rewrite <- H in Hin. vm_compute in Hin.
    apply list_elem_of_In in Hin. simpl in Hin. intuition discriminate.
Qed.

(** C10 (amended).  An opener with no closer after it stays in place with
    all the text after it: for HTML whenever no [-->] occurs from the
    [<!--] on; for CSS whenever no [*/] occurs from the [/*] on and the
    [/] of the opener does not itself end a [*/]; for JS under the same
    condition, but the pass for [//] comments is still applied to that
    text.  A text without a closer loses nothing to the span removal. *)
Theorem open_comment_left_in_place :
  (forall a b,
      contains (lit "<!--" ++ b) (lit "-->") = false ->
      strip_html_comments (a ++ lit "<!--" ++ b) =
      cleanup_empty_lines
        (remove_spans (lit "<!--") (lit "-->") a ++ lit "<!--" ++ b)) /\
  (forall a b,
      contains (lit "/*" ++ b) (lit "*/") = false ->
      endswith a (lit "*") = false ->
      strip_css_comments (a ++ lit "/*" ++ b) =
      cleanup_empty_lines
        (remove_spans (lit "/*") (lit "*/") a ++ lit "/*" ++ b)) /\
  (forall a b,
      contains (lit "/*" ++ b) (lit "*/") = false ->
      endswith a (lit "*") = false ->
      strip_js_comments (a ++ lit "/*" ++ b) =
      cleanup_empty_lines
        (remove_line_comments
           (remove_spans (lit "/*") (lit "*/") a ++ lit "/*" ++ b))) /\
  (forall s,
      contains s (lit "-->") = false ->
      strip_html_comments s = cleanup_empty_lines s) /\
  (forall s,
      contains s (lit "*/") = false ->
      strip_css_comments s = cleanup_empty_lines s /\
      strip_js_comments s = cleanup_empty_lines (remove_line_comments s)).
Proof.
  repeat split.
  - intros a b H. unfold strip_html_comments.
    by rewrite sub_html_comments, remove_spans_tail_html.
  - intros a b H1 H2. unfold strip_css_comments.
    by rewrite sub_block_comments, remove_spans_tail_block.
  - intros a b H1 H2. unfold strip_js_comments.
    by rewrite sub_block_comments, sub_line_comments, remove_spans_tail_block.
  - intros s H. unfold strip_html_comments.
    by rewrite sub_html_comments, remove_spans_free.
  - unfold strip_css_comments.
    by rewrite sub_block_comments, remove_spans_free.
  - unfold strip_js_comments.
    by rewrite sub_block_comments, sub_line_comments, remove_spans_free.
Qed.

Lemma open_comment_left_in_place_witness :
  strip_html_comments (lit "<p>a</p><!-- x --> " ++ lit "<!--" ++ lit " open") =
  cleanup_empty_lines
    (remove_spans (lit "<!--") (lit "-->") (lit "<p>a</p><!-- x --> ")
     ++ lit "<!--" ++ lit " open") /\
  strip_css_comments (lit "a { } /* x */ " ++ lit "/*" ++ lit " open") =
  cleanup_empty_lines
    (remove_spans (lit "/*") (lit "*/") (lit "a { } /* x */ ")
     ++ lit "/*" ++ lit " open") /\
  strip_js_comments (lit "f(); /* x */ " ++ lit "/*" ++ lit " open // y") =
  cleanup_empty_lines
    (remove_line_comments
       (remove_spans (lit "/*") (lit "*/") (lit "f(); /* x */ ")
        ++ lit "/*" ++ lit " open // y")) /\
  strip_html_comments (lit "<p>a</p> <!-- open") =
  cleanup_empty_lines (lit "<p>a</p> <!-- open") /\
  strip_css_comments (lit "a { } /* open") =
  cleanup_empty_lines (lit "a { } /* open").
Proof.
  destruct open_comment_left_in_place as (H1 & H2 & H3 & H4 & H5).
  split; [apply H1; reflexivity|].
  split; [apply H2; reflexivity|].
  split; [apply H3; reflexivity|].
  split; [apply H4; reflexivity|].
  exact (proj1 (H5 (lit "a { } /* open") eq_refl)).
Defined.

(** C9.  [should_keep_py_comment] holds exactly when some keyword of the set
    occurs in the lower-cased comment text; with the empty set it never
    holds. *)
Theorem should_keep_py_comment_spec (lower : list N -> list N)
    (comment_text : list N) (keep_keywords : gset (list N)) :
  (should_keep_py_comment lower comment_text keep_keywords = true <->
   exists kw, kw ∈ keep_keywords /\
              exists p q, lower comment_text = p ++ kw ++ q) /\
  should_keep_py_comment lower comment_text ∅ = false.
Proof.
  unfold should_keep_py_comment. split.
  - apply any_keyword_in_spec.
  - apply any_keyword_in_empty.
Qed.

(** C6.  Before normalisation, the Shell stripper keeps a first-line
    shebang, and of the other lines exactly those that are no whole-line
    comment or whose text after the [#] contains a keyword, each as it
    is and in the order of the source. *)
Theorem strip_shell_comments_lines (lower : list N -> list N)
    (s : list N) (K : gset (list N)) :
  strip_shell_comments lower s K =
    cleanup_empty_lines
      (join (sh_shebang (splitlines s)
             ++ List.filter (sh_line_kept lower K)
                  (sh_tested_lines (splitlines s)))) /\
  sh_shebang (splitlines s) ++ sh_tested_lines (splitlines s) = splitlines s /\
  join (splitlines s) = s /\
  forall line,
    sh_line_kept lower K line = true <->
    (startswith (lstrip line) (lit "#") = false \/
     exists kw, kw ∈ K /\
       exists p q, lower (lstrip (drop 1 (lstrip line))) = p ++ kw ++ q).
Proof.
  split; [by rewrite strip_shell_comments_unfold, shell_new_lines_spec|].
  split; [apply sh_lines_split|].
  split; [apply join_splitlines|].
  intros line. unfold sh_line_kept, sh_comment_line.
  rewrite orb_true_iff, negb_true_iff, any_keyword_in_spec. done.
Qed.

(** ** The Python stripper and the tokenizer *)

Section PythonFacts.

Variable lower : list N -> list N.
Variable isalnum : N -> bool.
Variable tokenize : list N -> list TokenInfo * option exn.
Variable untokenize : list TokenInfo -> result (list N).

Local Abbreviation strip := (strip_python_comments lower isalnum tokenize untokenize).

(** A [TokenError] is answered with the source. *)
Lemma strip_python_comments_token_error (s : list N) (K : gset (list N)) :
  (tokenize (analysed_text isalnum s)).2 = Some TokenError ->
  strip s K = Return s.
Proof. intros H. by rewrite strip_python_comments_unfold, H. Qed.

(** Any other exception of the tokenizer leaves the function. *)
Lemma strip_python_comments_other_error (s : list N) (K : gset (list N))
    (e : exn) :
  (tokenize (analysed_text isalnum s)).2 = Some e ->
  e <> TokenError ->
  strip s K = Raise e.
Proof.
  intros H He. rewrite strip_python_comments_unfold, H. by destruct e.
Qed.

Lemma strip_python_comments_cases (s : list N) (K : gset (list N)) :
  match strip s K with
  | Return r =>
      r = s \/
      exists processed,
        untokenize (fold_left (python_step lower K)
                      (tokenize (analysed_text isalnum s)).1 []) =
          Return processed /\
        r = kept_head isalnum s ++ cleanup_empty_lines processed
  | Raise e =>
      e <> TokenError /\ (tokenize (analysed_text isalnum s)).2 = Some e
  end.
Proof.
  rewrite strip_python_comments_unfold.
  destruct (tokenize (analysed_text isalnum s)) as [yielded [e|]]; cbn [fst snd].
  - destruct e; try done; by left.
  - destruct (untokenize _) as [processed|e]; [|by left].
    right. by exists processed.
Qed.

End PythonFacts.

(** C1 (defect of the code).  On [if x:] followed by a line indented by
    eight and one indented by four, the tokenizer stops with
    [IndentationError]; the stripper does not give the source back, the
    exception leaves it. *)
Theorem strip_python_comments_dedent_error_escapes :
  (Recorded.tokenize
     (analysed_text isalnum_ascii (lit "if x:\n        a\n    b\n"))).2 =
    Some IndentationError /\
  strip_python_comments lower_ascii isalnum_ascii
    Recorded.tokenize Untokenizer.untokenize
    (lit "if x:\n        a\n    b\n") ∅ = Raise IndentationError.
Proof. split; vm_compute; reflexivity. Qed.

(** X26.  The source is the kept head followed by the analysed text; a
    first-line shebang opens the kept head, and the line after it (or the
    first line, when there is no shebang) belongs to it when it matches the
    encoding pattern, whatever the keywords.  Only the analysed text is
    given to the tokenizer, and every result that is returned starts with
    the kept head; no result is returned only when the tokenizer stops
    with an exception other than [TokenError]. *)
Theorem strip_python_comments_keeps_head (lower : list N -> list N)
    (isalnum : N -> bool)
    (tokenize : list N -> list TokenInfo * option exn)
    (untokenize : list TokenInfo -> result (list N))
    (s : list N) (K : gset (list N)) :
  kept_head isalnum s ++ analysed_text isalnum s = s /\
  (forall line0 rest,
      splitlines s = line0 :: rest ->
      has_shebang line0 = true ->
      (exists more, kept_head isalnum s = line0 ++ more) /\
      (forall line1 rest',
          rest = line1 :: rest' ->
          has_encoding_cookie isalnum line1 = true ->
          kept_head isalnum s = line0 ++ line1)) /\
  (forall line0 rest,
      splitlines s = line0 :: rest ->
      has_shebang line0 = false ->
      has_encoding_cookie isalnum line0 = true ->
      kept_head isalnum s = line0) /\
  match strip_python_comments lower isalnum tokenize untokenize s K with
  | Return r =>
      (exists body, r = kept_head isalnum s ++ body) /\
      (r = s \/
       exists processed,
         untokenize (fold_left (python_step lower K)
                       (tokenize (analysed_text isalnum s)).1 []) =
           Return processed /\
         r = kept_head isalnum s ++ cleanup_empty_lines processed)
  | Raise e =>
      e <> TokenError /\ (tokenize (analysed_text isalnum s)).2 = Some e
  end.
Proof.
  split; [apply kept_head_analysed_text|].
  split; [|split].
  - intros line0 rest Hl H0. unfold kept_head, python_prefix. rewrite Hl, H0.
    split.
    + destruct (_ !! 1%nat) as [l|]; [|by exists []].
      destruct (has_encoding_cookie isalnum l).
      * exists l. simpl. by rewrite app_nil_r.
      * by exists [].
    + intros line1 rest' -> H1. simpl. rewrite H1. simpl. by rewrite app_nil_r.
  - intros line0 rest Hl H0 H1. unfold kept_head, python_prefix.
    rewrite Hl, H0. simpl. rewrite H1. simpl. by rewrite app_nil_r.
  - pose proof (strip_python_comments_cases lower isalnum tokenize untokenize s K)
      as Hc.
    destruct (strip_python_comments _ _ _ _ s K) as [r|e]; [|done].
    split; [|done]. destruct Hc as [-> | (processed & _ & ->)].
    + exists (analysed_text isalnum s). by rewrite kept_head_analysed_text.
    + by exists (cleanup_empty_lines processed).
Qed.

Lemma strip_python_comments_keeps_head_witness :
  has_shebang (lit "#!/usr/bin/env python3\n") = true /\
  has_encoding_cookie isalnum_ascii (lit "# -*- coding: utf-8 -*-\n") = true /\
  kept_head isalnum_ascii
    (lit "#!/usr/bin/env python3\n# -*- coding: utf-8 -*-\nx = 1  # note\n") =
  lit "#!/usr/bin/env python3\n" ++ lit "# -*- coding: utf-8 -*-\n".
Proof.
  split; [reflexivity|]. split; [reflexivity|].
  destruct (strip_python_comments_keeps_head lower_ascii isalnum_ascii
              Recorded.tokenize Untokenizer.untokenize
              (lit "#!/usr/bin/env python3\n# -*- coding: utf-8 -*-\nx = 1  # note\n")
              ∅) as (_ & H & _).
  destruct (H (lit "#!/usr/bin/env python3\n")
              [lit "# -*- coding: utf-8 -*-\n"; lit "x = 1  # note\n"]
              eq_refl eq_refl) as [_ H2].
  apply (H2 (lit "# -*- coding: utf-8 -*-\n") [lit "x = 1  # note\n"]);
    reflexivity.
Defined.

(** C5 (defect of the code).  The first line of the source is a shebang,
    which the stripper sets aside as the kept head; the dedent of the last
    line then stops the tokenizer with [IndentationError], which leaves the
    stripper: no text is returned, with or without the shebang, whatever
    the keywords. *)
Theorem strip_python_comments_shebang_lost :
  has_shebang (lit "#!/usr/bin/env python3\n") = true /\
  kept_head isalnum_ascii
    (lit "#!/usr/bin/env python3\nif x:\n        a\n    b\n") =
    lit "#!/usr/bin/env python3\n" /\
  forall K,
    strip_python_comments lower_ascii isalnum_ascii
      Recorded.tokenize Untokenizer.untokenize
      (lit "#!/usr/bin/env python3\nif x:\n        a\n    b\n") K =
    Raise IndentationError.
Proof.
  split; [reflexivity|]. split; [by vm_compute|].
  intros K. rewrite strip_python_comments_unfold.
  assert ((Recorded.tokenize
             (analysed_text isalnum_ascii
                (lit "#!/usr/bin/env python3\nif x:\n        a\n    b\n"))).2 =
          Some IndentationError) as -> by (by vm_compute).
  done.
Qed.

(** C8 (as stated, refuted).  When the path is a directory the read fails
    and so does the write: with [dry_run] off the function does not return
    true, the exception of the write leaves it. *)
Lemma write_if_changed_write_failure_counterexample :
  Disk.read_text Disk.sample "src"%string = Raise IsADirectoryError /\
  (write_if_changed Disk.read_text Disk.write_text
     Disk.sample "src"%string (lit "x = 1\n") false).1 <> Return true.
Proof. split; [reflexivity | vm_compute; discriminate]. Qed.

(** C8 (amended).  [write_if_changed] returns false exactly when the file
    reads and its content equals the new one, and then the disk is as it
    was; with [dry_run] on it returns true or false by that same test and
    leaves the disk as it was, in agreement with every verdict that the
    call with [dry_run] off returns; when the read fails it returns true
    if [dry_run] is on or the write succeeds, and otherwise the exception
    of the write leaves the function. *)
Theorem write_if_changed_verdict {path world : Type}
    (read_text : world -> path -> result (list N))
    (write_text : world -> path -> list N -> world * option exn)
    (w : world) (p : path) (new_content : list N) :
  (forall dry_run,
      (write_if_changed read_text write_text w p new_content dry_run).1 =
        Return false <->
      read_text w p = Return new_content) /\
  (forall dry_run,
      read_text w p = Return new_content ->
      write_if_changed read_text write_text w p new_content dry_run =
        (Return false, w)) /\
  (exists b,
      write_if_changed read_text write_text w p new_content true =
        (Return b, w) /\
      forall b',
        (write_if_changed read_text write_text w p new_content false).1 =
          Return b' -> b' = b) /\
  (forall e,
      read_text w p = Raise e ->
      write_if_changed read_text write_text w p new_content true =
        (Return true, w) /\
      write_if_changed read_text write_text w p new_content false =
        match write_text w p new_content with
        | (w', None) => (Return true, w')
        | (w', Some e') => (Raise e', w')
        end).
Proof.
  unfold write_if_changed.
  split; [|split; [|split]].
  - intros dry_run. destruct (read_text w p) as [s|e]; case_bool_decide as E.
    + injection E as ->. done.
    + split; [|by intros [= ->]].
      destruct dry_run; [done|].
      by destruct (write_text w p new_content) as [w' [e|]].
    + done.
    + split; [|done]. destruct dry_run; [done|].
      by destruct (write_text w p new_content) as [w' [e'|]].
  - intros dry_run ->. by rewrite bool_decide_eq_true_2.
  - destruct (read_text w p) as [s|e]; case_bool_decide as E.
    + exists false. split; [done|]. by intros b' [= <-].
    + exists true. split; [done|]. intros b'.
      destruct (write_text w p new_content) as [w' [e|]]; [done|].
      by intros [= <-].
    + done.
    + exists true. split; [done|]. intros b'.
      destruct (write_text w p new_content) as [w' [e'|]]; [done|].
      by intros [= <-].
  - intros e ->. by rewrite bool_decide_eq_false_2.
Qed.

Lemma write_if_changed_verdict_witness :
  Disk.read_text Disk.sample "src/b.py"%string = Raise UnicodeDecodeError /\
  write_if_changed Disk.read_text Disk.write_text
    Disk.sample "src/b.py"%string (lit "x = 1\n") true =
  (Return true, Disk.sample) /\
  write_if_changed Disk.read_text Disk.write_text
    Disk.sample "src/a.py"%string (lit "x = 1\n") false =
  (Return false, Disk.sample).
Proof.
  destruct (write_if_changed_verdict Disk.read_text Disk.write_text
              Disk.sample "src/b.py"%string (lit "x = 1\n"))
    as (_ & _ & _ & H).
  destruct (write_if_changed_verdict Disk.read_text Disk.write_text
              Disk.sample "src/a.py"%string (lit "x = 1\n"))
    as (_ & H' & _).
  split; [reflexivity|].
  split; [apply (H UnicodeDecodeError); reflexivity|].
  apply H'. reflexivity.
Defined.


(** * Further properties of the code *)

(** ** The normaliser and the text *)

Lemma filter_visible_rstrip_lines (s : list N) :
  List.filter visible (rstrip_lines s) = List.filter visible s.
Proof.
  induction s as [|x s IH]; [done|]. cbn [rstrip_lines].
  destruct (blank x) eqn:Hx; cbn [andb].
  - assert (visible x = false) as Hv by (unfold visible; by rewrite Hx).
    destruct (at_eol (rstrip_lines s)); cbn [List.filter];
      rewrite Hv; by rewrite ?IH.
  - cbn [List.filter]. by rewrite IH.
Qed.

Lemma filter_visible_squeeze_newlines (s : list N) :
  List.filter visible (squeeze_newlines s) = List.filter visible s.
Proof.
  induction s as [|x s IH]; [done|]. cbn [squeeze_newlines].
  destruct (x =? LF) eqn:Hx; cbn [andb].
  - assert (visible x = false) as Hv
      by (unfold visible; by rewrite Hx, andb_false_r).
    destruct (startswith _ _); cbn [List.filter];
      rewrite Hv; by rewrite ?IH.
  - cbn [List.filter]. by rewrite IH.
Qed.

Lemma filter_visible_ensure_final_newline (s : list N) :
  List.filter visible (ensure_final_newline s) = List.filter visible s.
Proof.
  unfold ensure_final_newline. destruct (negb _ && negb _); [|done].
  rewrite List.filter_app. change (List.filter visible (lit "\n")) with (@nil N).
  by rewrite app_nil_r.
Qed.

Lemma length_rstrip_lines (s : list N) :
  (length (rstrip_lines s) <= length s)%nat.
Proof.
  induction s as [|x s IH]; [done|]. cbn [rstrip_lines].
  destruct (blank x && _); simpl; lia.
Qed.

Lemma length_squeeze_newlines (s : list N) :
  (length (squeeze_newlines s) <= length s)%nat.
Proof.
  induction s as [|x s IH]; [done|]. cbn [squeeze_newlines].
  destruct ((x =? LF) && _); simpl; lia.
Qed.

(** X1.  The normaliser removes, adds and moves nothing but spaces, tabs
    and newlines, and its result is at most one character longer than its
    input. *)
Theorem cleanup_empty_lines_keeps_text (t : list N) :
  List.filter visible (cleanup_empty_lines t) = List.filter visible t /\
  (length (cleanup_empty_lines t) <= S (length t))%nat.
Proof.
  rewrite cleanup_empty_lines_unfold. split.
  - by rewrite filter_visible_ensure_final_newline,
      filter_visible_squeeze_newlines, filter_visible_rstrip_lines.
  - pose proof (length_rstrip_lines t).
    pose proof (length_squeeze_newlines (rstrip_lines t)).
    unfold ensure_final_newline. destruct (negb _ && negb _); [|lia].
    rewrite length_app. simpl. lia.
Qed.

(** X2.  The texts that the normaliser gives back unchanged are exactly
    those with no blank at the end of a line, no three newlines in a row
    and either nothing in them or a newline at the end. *)
Theorem cleanup_empty_lines_fixed_points (t : list N) :
  cleanup_empty_lines t = t <->
  no_trailing_blank t /\
  free_of (lit "\n\n\n") t /\
  (t = [] \/ endswith t (lit "\n") = true).
Proof.
  split.
  - intros H. rewrite <- H. split; [apply cleanup_empty_lines_tidy|].
    split; [apply contains_free, cleanup_empty_lines_no_run|].
    apply cleanup_empty_lines_end.
  - intros (H1 & H2 & H3). apply cleanup_empty_lines_fixed; [done | | done].
    by apply contains_free.
Qed.

(** X3.  The HTML and CSS strippers skip, from left to right, every span
    from an opener to the nearest closer after it, copy the rest and
    normalise the result. *)
Theorem strip_html_css_comments_spans (s : list N) :
  strip_html_comments s =
    cleanup_empty_lines (remove_spans (lit "<!--") (lit "-->") s) /\
  strip_css_comments s =
    cleanup_empty_lines (remove_spans (lit "/*") (lit "*/") s).
Proof.
  unfold strip_html_comments, strip_css_comments.
  by rewrite sub_html_comments, sub_block_comments.
Qed.

(** X4.  What the HTML, CSS, JS and Shell strippers return is already
    normalised: the normaliser gives it back unchanged. *)
Theorem strippers_output_normalised (lower : list N -> list N)
    (s : list N) (K : gset (list N)) :
  cleanup_empty_lines (strip_html_comments s) = strip_html_comments s /\
  cleanup_empty_lines (strip_css_comments s) = strip_css_comments s /\
  cleanup_empty_lines (strip_js_comments s) = strip_js_comments s /\
  cleanup_empty_lines (strip_shell_comments lower s K) =
    strip_shell_comments lower s K.
Proof.
  rewrite strip_shell_comments_unfold.
  unfold strip_html_comments, strip_css_comments, strip_js_comments.
  by rewrite !cleanup_empty_lines_again.
Qed.

(** ** Sources without comments *)

Lemma cut_no_opener (o c s : list N) : free_of o s -> cut o c 0 s = s.
Proof.
  induction s as [|x s IH]; [done|]. intros H. rewrite cut_cons.
  destruct (startswith (x :: s) o) eqn:E.
  - apply startswith_spec in E as [q E]. by destruct (H [] q).
  - by rewrite IH by apply (free_of_app_r o [x]), H.
Qed.

Lemma last_seen_cons (prev : option N) (x : N) (p : list N) :
  last_seen prev (x :: p) = last_seen (Some x) p.
Proof. unfold last_seen. rewrite last_cons. by destruct (last p). Qed.

Lemma uncomment_lines_guarded (prev : option N) (s : list N) :
  (forall p q, s = p ++ [SLASH; SLASH] ++ q -> last_seen prev p = Some COLON) ->
  uncomment_lines false prev s = s.
Proof.
  revert prev. induction s as [|x s IH]; intros prev H; [done|].
  cbn [uncomment_lines]. change (lit "//") with [SLASH; SLASH].
  destruct (negb _ && startswith (x :: s) [SLASH; SLASH]) eqn:E.
  - apply andb_true_iff in E as [E1 [q E2]%startswith_spec].
    specialize (H [] q E2). cbn in H.
    by rewrite H, bool_decide_eq_true_2 in E1.
  - rewrite IH; [done|]. intros p q ->.
    rewrite <- (last_seen_cons prev). by apply (H (x :: p) q).
Qed.

(** X5.  A source that holds no comment is only normalised: an HTML source
    without [<!--], a CSS source without [/*], a JS source without [/*] in
    which every [//] directly follows a colon, and a Shell source none of
    whose lines after a first-line shebang begins with [#]. *)
Theorem comment_free_source_only_normalised (lower : list N -> list N) :
  (forall s,
      contains s (lit "<!--") = false ->
      strip_html_comments s = cleanup_empty_lines s) /\
  (forall s,
      contains s (lit "/*") = false ->
      strip_css_comments s = cleanup_empty_lines s) /\
  (forall s,
      contains s (lit "/*") = false ->
      (forall p q, s = p ++ lit "//" ++ q -> exists p', p = p' ++ [COLON]) ->
      strip_js_comments s = cleanup_empty_lines s) /\
  (forall s K,
      forallb (fun line => negb (sh_comment_line line))
        (sh_tested_lines (splitlines s)) = true ->
      strip_shell_comments lower s K = cleanup_empty_lines s).
Proof.
  split; [|split; [|split]].
  - intros s H%contains_free. unfold strip_html_comments.
    rewrite sub_html_comments. unfold remove_spans. by rewrite cut_no_opener.
  - intros s H%contains_free. unfold strip_css_comments.
    rewrite sub_block_comments. unfold remove_spans. by rewrite cut_no_opener.
  - intros s H%contains_free Hg. unfold strip_js_comments.
    rewrite sub_block_comments, sub_line_comments.
    unfold remove_spans, remove_line_comments. rewrite cut_no_opener by done.
    rewrite uncomment_lines_guarded; [done|].
    intros p q Hpq. destruct (Hg p q Hpq) as [p' ->].
    unfold last_seen. by rewrite last_snoc.
  - intros s K H. rewrite strip_shell_comments_unfold, shell_new_lines_spec.
    rewrite filter_all.
    + by rewrite sh_lines_split, join_splitlines.
    + rewrite forallb_forall in *. intros line Hin.
      unfold sh_line_kept. by rewrite (H line Hin).
Qed.

Lemma comment_free_source_only_normalised_witness :
  strip_html_comments (lit "<p>a</p>  \n\n\n\n<p>b</p>") =
    cleanup_empty_lines (lit "<p>a</p>  \n\n\n\n<p>b</p>") /\
  strip_css_comments (lit "a { color: red; }\t\n") =
    cleanup_empty_lines (lit "a { color: red; }\t\n") /\
  strip_shell_comments lower_ascii (lit "#!/bin/sh\necho hi  # inline\n") ∅ =
    cleanup_empty_lines (lit "#!/bin/sh\necho hi  # inline\n").
Proof.
  destruct (comment_free_source_only_normalised lower_ascii)
    as (H1 & H2 & _ & H4).
  split; [apply H1; reflexivity|].
  split; [apply H2; reflexivity|].
  apply H4. reflexivity.
Defined.

(** ** The pass for line comments *)

Lemma uncomment_lines_skipping_head (p : option N) (s : list N) :
  startswith (uncomment_lines true p s) [SLASH] = false.
Proof.
  revert p. induction s as [|x s IH]; intros p; [done|].
  cbn [uncomment_lines]. destruct (x =? LF) eqn:E; [|apply IH].
  apply N.eqb_eq in E as ->. done.
Qed.

Lemma uncomment_lines_head (p : option N) (s : list N) :
  startswith s [SLASH] = false ->
  startswith (uncomment_lines false p s) [SLASH] = false.
Proof.
  destruct s as [|x s]; [done|]. cbn [startswith uncomment_lines].
  rewrite andb_true_r. intros Hx. change (lit "//") with [SLASH; SLASH].
  cbn [startswith]. rewrite Hx, andb_false_r. cbn [startswith].
  by rewrite Hx.
Qed.

Lemma uncomment_lines_again (s : list N) (skipping : bool)
    (prev p' : option N) :
  (skipping = false -> p' = prev) ->
  uncomment_lines false p' (uncomment_lines skipping prev s) =
  uncomment_lines skipping prev s.
Proof.
  revert skipping prev p'.
  induction s as [|x s IH]; intros skipping prev p' Hp; [done|].
  cbn [uncomment_lines]. destruct skipping.
  - destruct (x =? LF) eqn:E; [|by apply IH].
    apply N.eqb_eq in E as ->. cbn [uncomment_lines].
    rewrite andb_false_r. by rewrite IH.
  - rewrite (Hp eq_refl). change (lit "//") with [SLASH; SLASH].
    destruct (negb _ && startswith (x :: s) [SLASH; SLASH]) eqn:E;
      [by apply IH|].
    cbn [uncomment_lines]. change (lit "//") with [SLASH; SLASH].
    replace (negb (bool_decide (prev = Some COLON)) &&
             startswith (x :: uncomment_lines false (Some x) s) [SLASH; SLASH])
      with false; [by rewrite IH|].
    symmetry. apply andb_false_iff in E as [E | E]; [by rewrite E|].
    apply andb_false_iff. right. cbn [startswith] in *.
    destruct (x =? SLASH); [|done]. cbn [andb] in *.
    by apply uncomment_lines_head.
Qed.

(** X6.  The pass that removes [//] comments is idempotent: in its result
    every [//] that is left is one it refuses to remove. *)
Theorem remove_line_comments_idempotent (s : list N) :
  sub LINE_COMMENT_RE [] (sub LINE_COMMENT_RE [] s) = sub LINE_COMMENT_RE [] s.
Proof.
  rewrite !sub_line_comments. by apply uncomment_lines_again.
Qed.

(** ** A closed comment *)

Lemma cut_copy_prefix (o c a rest : list N) :
  (forall a1 a2, a = a1 ++ a2 -> a2 <> [] -> startswith (a2 ++ rest) o = false) ->
  cut o c 0 (a ++ rest) = a ++ cut o c 0 rest.
Proof.
  induction a as [|x a IH]; intros H; [done|].
  change ((x :: a) ++ rest) with (x :: a ++ rest). rewrite cut_cons.
  change (x :: a ++ rest) with ((x :: a) ++ rest).
  rewrite (H [] (x :: a)) by done. rewrite IH; [done|].
  intros a1 a2 -> Ha2. by apply (H (x :: a1) a2).
Qed.

Lemma after_first_unfold (d s : list N) :
  after_first d s =
    if startswith s d then Some (drop (length d) s)
    else match s with
         | [] => None
         | _ :: s' => after_first d s'
         end.
Proof. by destruct s. Qed.

Lemma after_first_nearest (c body b : list N) :
  (forall p q, body ++ c ++ b = p ++ c ++ q -> (length body <= length p)%nat) ->
  after_first c (body ++ c ++ b) = Some b.
Proof.
  induction body as [|x body IH]; intros H.
  - simpl. by rewrite after_first_unfold, startswith_app, drop_app_length.
  - change ((x :: body) ++ c ++ b) with (x :: body ++ c ++ b).
    cbn [after_first].
    destruct (startswith (x :: body ++ c ++ b) c) eqn:E.
    + apply startswith_spec in E as [q E].
      specialize (H [] q E). simpl in H. lia.
    + apply IH. intros p q Hpq. specialize (H (x :: p) q). simpl in H.
      rewrite Hpq in H. specialize (H eq_refl). lia.
Qed.

Lemma cut_span (o c body b : list N) :
  o <> [] ->
  after_first c (body ++ c ++ b) = Some b ->
  cut o c 0 (o ++ body ++ c ++ b) = cut o c 0 b.
Proof.
  intros Ho H. destruct o as [|x o]; [done|].
  change ((x :: o) ++ body ++ c ++ b) with (x :: o ++ body ++ c ++ b).
  rewrite cut_cons.
  change (x :: o ++ body ++ c ++ b) with ((x :: o) ++ body ++ c ++ b).
  rewrite startswith_app, drop_app_length, H.
  replace (o ++ body ++ c ++ b) with ((o ++ body ++ c) ++ b)
    by (by rewrite <- !app_assoc).
  rewrite length_app.
  replace (length (o ++ body ++ c) + length b - length b)%nat
    with (length (o ++ body ++ c)) by lia.
  apply cut_skip.
Qed.

Lemma nearest_html_closer (body b p q : list N) :
  contains (body ++ lit "--") (lit "-->") = false ->
  body ++ lit "-->" ++ b = p ++ lit "-->" ++ q ->
  (length body <= length p)%nat.
Proof.
  intros Hfree%contains_free Heq.
  change (lit "-->") with ([MINUS; MINUS] ++ [GT]) in Heq.
  change (lit "--") with [MINUS; MINUS] in *.
  change (lit "-->") with [MINUS; MINUS; GT] in *.
  rewrite <- !app_assoc in Heq.
  replace (body ++ [MINUS; MINUS] ++ [GT] ++ b)
    with ((body ++ [MINUS; MINUS]) ++ [GT] ++ b) in Heq
    by (by rewrite <- app_assoc).
  replace (p ++ [MINUS; MINUS] ++ [GT] ++ q)
    with ((p ++ [MINUS; MINUS; GT]) ++ q) in Heq
    by (by rewrite <- app_assoc).
  apply app_eq_inv in Heq as [(k & Hk & _) | (k & Hk & _)].
  - destruct (Hfree p k). by rewrite Hk, <- app_assoc.
  - destruct k as [|k1 k].
    + rewrite app_nil_r in Hk.
      change [MINUS; MINUS; GT] with ([MINUS; MINUS] ++ [GT]) in Hk.
      change [MINUS; MINUS] with ([MINUS] ++ [MINUS]) in Hk at 2.
      rewrite !app_assoc in Hk. by apply app_inj_tail in Hk as [_ ?].
    + apply (f_equal length) in Hk. rewrite !length_app in Hk.
      simpl in Hk. lia.
Qed.

Lemma nearest_block_closer (body b p q : list N) :
  contains (body ++ lit "*") (lit "*/") = false ->
  body ++ lit "*/" ++ b = p ++ lit "*/" ++ q ->
  (length body <= length p)%nat.
Proof.
  intros Hfree%contains_free Heq.
  change (lit "*/") with ([STAR] ++ [SLASH]) in Heq.
  change (lit "*") with [STAR] in *.
  change (lit "*/") with [STAR; SLASH] in *.
  rewrite <- !app_assoc in Heq.
  replace (body ++ [STAR] ++ [SLASH] ++ b)
    with ((body ++ [STAR]) ++ [SLASH] ++ b) in Heq
    by (by rewrite <- app_assoc).
  replace (p ++ [STAR] ++ [SLASH] ++ q)
    with ((p ++ [STAR; SLASH]) ++ q) in Heq
    by (by rewrite <- app_assoc).
  apply app_eq_inv in Heq as [(k & Hk & _) | (k & Hk & _)].
  - destruct (Hfree p k). by rewrite Hk, <- app_assoc.
  - destruct k as [|k1 k].
    + rewrite app_nil_r in Hk.
      change [STAR; SLASH] with ([STAR] ++ [SLASH]) in Hk.
      rewrite !app_assoc in Hk. by apply app_inj_tail in Hk as [_ ?].
    + apply (f_equal length) in Hk. rewrite !length_app in Hk.
      simpl in Hk. lia.
Qed.

Lemma no_html_opener_before (a a1 a2 rest : list N) :
  contains a (lit "<!--") = false ->
  a = a1 ++ a2 -> a2 <> [] ->
  startswith (a2 ++ lit "<!--" ++ rest) (lit "<!--") = false.
Proof.
  intros Hfree%contains_free -> Ha2.
  change (lit "<!--") with [LT; BANG; MINUS; MINUS] in *.
  destruct (startswith _ _) eqn:E; [|done]. exfalso.
  destruct a2 as [|y1 [|y2 [|y3 [|y4 a2]]]]; [done| | | |].
  - cbn in E. by rewrite !andb_false_r in E.
  - cbn in E. by rewrite !andb_false_r in E.
  - cbn in E. by rewrite !andb_false_r in E.
  - change ((y1 :: y2 :: y3 :: y4 :: a2) ++ [LT; BANG; MINUS; MINUS] ++ rest)
      with ([y1; y2; y3; y4] ++ a2 ++ [LT; BANG; MINUS; MINUS] ++ rest) in E.
    rewrite startswith_app_l in E by done.
    apply startswith_spec in E as [q E]. simpl in E.
    injection E as -> -> -> -> _.
    by apply (Hfree a1 a2).
Qed.

Lemma no_block_opener_before (a a1 a2 rest : list N) :
  contains a (lit "/*") = false ->
  a = a1 ++ a2 -> a2 <> [] ->
  startswith (a2 ++ lit "/*" ++ rest) (lit "/*") = false.
Proof.
  intros Hfree%contains_free -> Ha2.
  change (lit "/*") with [SLASH; STAR] in *.
  destruct (startswith _ _) eqn:E; [|done]. exfalso.
  destruct a2 as [|y1 [|y2 a2]]; [done| |].
  - cbn in E. by rewrite !andb_false_r in E.
  - change ((y1 :: y2 :: a2) ++ [SLASH; STAR] ++ rest)
      with ([y1; y2] ++ a2 ++ [SLASH; STAR] ++ rest) in E.
    rewrite startswith_app_l in E by done.
    apply startswith_spec in E as [q E]. simpl in E.
    injection E as -> -> _.
    by apply (Hfree a1 a2).
Qed.

(** X7.  A closed comment is taken out whole and the text before it is
    left as it is: when no opener occurs before the comment and its closer
    is the first one after its opener, the HTML stripper turns
    [a <!-- body --> b] into [a] followed by what it makes of [b], and so
    does the CSS stripper with [/*] and [*/]. *)
Theorem closed_comment_cut_out :
  (forall a body b,
      contains a (lit "<!--") = false ->
      contains (body ++ lit "--") (lit "-->") = false ->
      strip_html_comments (a ++ lit "<!--" ++ body ++ lit "-->" ++ b) =
      cleanup_empty_lines (a ++ remove_spans (lit "<!--") (lit "-->") b)) /\
  (forall a body b,
      contains a (lit "/*") = false ->
      contains (body ++ lit "*") (lit "*/") = false ->
      strip_css_comments (a ++ lit "/*" ++ body ++ lit "*/" ++ b) =
      cleanup_empty_lines (a ++ remove_spans (lit "/*") (lit "*/") b)).
Proof.
  split; intros a body b Ha Hb.
  - unfold strip_html_comments. rewrite sub_html_comments. unfold remove_spans.
    rewrite cut_copy_prefix.
    + rewrite cut_span; [done | done |].
      apply after_first_nearest. intros p q.
      by apply nearest_html_closer.
    + intros a1 a2 H1 H2. by apply (no_html_opener_before a a1 a2).
  - unfold strip_css_comments. rewrite sub_block_comments. unfold remove_spans.
    rewrite cut_copy_prefix.
    + rewrite cut_span; [done | done |].
      apply after_first_nearest. intros p q.
      by apply nearest_block_closer.
    + intros a1 a2 H1 H2. by apply (no_block_opener_before a a1 a2).
Qed.

Lemma closed_comment_cut_out_witness :
  strip_html_comments
    (lit "<p>keep</p>" ++ lit "<!--" ++ lit " drop me\nmultiline " ++ lit "-->"
     ++ lit "<p>also keep</p>") =
  cleanup_empty_lines
    (lit "<p>keep</p>"
     ++ remove_spans (lit "<!--") (lit "-->") (lit "<p>also keep</p>")) /\
  strip_css_comments
    (lit "a { }" ++ lit "/*" ++ lit "/ note " ++ lit "*/" ++ lit " b { }") =
  cleanup_empty_lines
    (lit "a { }" ++ remove_spans (lit "/*") (lit "*/") (lit " b { }")).
Proof.
  destruct closed_comment_cut_out as [H1 H2].
  split; [apply H1; reflexivity | apply H2; reflexivity].
Defined.

(** ** Edges of the keyword policy *)

Lemma any_keyword_in_mono (text : list N) (K K' : gset (list N)) :
  K ⊆ K' -> any_keyword_in text K = true -> any_keyword_in text K' = true.
Proof.
  intros Hsub. rewrite !any_keyword_in_spec.
  intros (kw & Hin & H). exists kw. split; [by apply Hsub | done].
Qed.

Lemma any_keyword_in_empty_keyword (text : list N) (K : gset (list N)) :
  [] ∈ K -> any_keyword_in text K = true.
Proof.
  intros H. apply any_keyword_in_spec. exists []. split; [done|].
  by exists [], text.
Qed.

(** X8.  A larger keyword set keeps every comment that a smaller one keeps;
    and a set that holds the empty keyword keeps every comment, so that the
    Shell stripper then only normalises its source. *)
Theorem keyword_policy_edges (lower : list N -> list N)
    (K K' : gset (list N)) (text : list N) :
  (K ⊆ K' ->
   (should_keep_py_comment lower text K = true ->
    should_keep_py_comment lower text K' = true) /\
   (should_keep_sh_comment lower text K = true ->
    should_keep_sh_comment lower text K' = true)) /\
  ([] ∈ K ->
   should_keep_py_comment lower text K = true /\
   should_keep_sh_comment lower text K = true /\
   forall s, strip_shell_comments lower s K = cleanup_empty_lines s).
Proof.
  unfold should_keep_py_comment, should_keep_sh_comment. split.
  - intros Hsub. split; by apply any_keyword_in_mono.
  - intros H. split; [by apply any_keyword_in_empty_keyword|].
    split; [by apply any_keyword_in_empty_keyword|].
    intros s. rewrite strip_shell_comments_unfold, shell_new_lines_spec.
    rewrite filter_all.
    + by rewrite sh_lines_split, join_splitlines.
    + apply forallb_forall. intros line _. unfold sh_line_kept.
      rewrite any_keyword_in_empty_keyword by done. apply orb_true_r.
Qed.

Lemma keyword_policy_edges_witness :
  should_keep_py_comment lower_ascii (lit "# type: ignore")
    {[ lit "noqa"; lit "type: ignore" ]} = true /\
  strip_shell_comments lower_ascii (lit "# plain comment  \necho hi\n")
    {[ [] ]} =
  cleanup_empty_lines (lit "# plain comment  \necho hi\n").
Proof.
  destruct (keyword_policy_edges lower_ascii
              {[ lit "type: ignore" ]} {[ lit "noqa"; lit "type: ignore" ]}
              (lit "# type: ignore")) as [H _].
  destruct (keyword_policy_edges lower_ascii {[ [] ]} {[ [] ]} [])
    as [_ H'].
  split.
  - apply H; [apply union_subseteq_r | vm_compute; reflexivity].
  - apply H'. by apply elem_of_singleton.
Defined.

(** ** The tokens that reach [untokenize] *)

Lemma python_loop_spec (lower : list N -> list N) (K : gset (list N))
    (toks acc : list TokenInfo) :
  fold_left (python_step lower K) toks acc =
  acc ++ List.filter (py_token_kept lower K) toks.
Proof.
  revert acc. induction toks as [|tok toks IH]; intros acc; simpl.
  - by rewrite app_nil_r.
  - rewrite IH. unfold python_step, py_token_kept.
    destruct (tok_type tok); try (by rewrite <- app_assoc).
    destruct (should_keep_py_comment lower (tok_string tok) K);
      [by rewrite <- app_assoc | done].
Qed.

(** X9.  The Python stripper hands on to [untokenize] exactly the tokens
    that are no comment or whose text passes the keyword test, in the order
    in which the tokenizer yielded them; when that is all of them and
    [untokenize] gives the analysed text back, the source is only
    normalised below its kept head. *)
Theorem strip_python_comments_tokens (lower : list N -> list N)
    (isalnum : N -> bool)
    (tokenize : list N -> list TokenInfo * option exn)
    (untokenize : list TokenInfo -> result (list N))
    (s : list N) (K : gset (list N)) :
  strip_python_comments lower isalnum tokenize untokenize s K =
    match (tokenize (analysed_text isalnum s)).2 with
    | Some TokenError => Return s
    | Some e => Raise e
    | None =>
        match untokenize (List.filter (py_token_kept lower K)
                            (tokenize (analysed_text isalnum s)).1) with
        | Raise _ => Return s
        | Return processed_text =>
            Return (kept_head isalnum s ++ cleanup_empty_lines processed_text)
        end
    end /\
  ((tokenize (analysed_text isalnum s)).2 = None ->
   forallb (py_token_kept lower K) (tokenize (analysed_text isalnum s)).1 = true ->
   untokenize (tokenize (analysed_text isalnum s)).1 =
     Return (analysed_text isalnum s) ->
   strip_python_comments lower isalnum tokenize untokenize s K =
     Return (kept_head isalnum s ++ cleanup_empty_lines (analysed_text isalnum s))).
Proof.
  rewrite strip_python_comments_unfold, python_loop_spec. cbn [app].
  split; [done|].
  intros -> Hall Hround. rewrite filter_all by done. by rewrite Hround.
Qed.

Lemma strip_python_comments_tokens_witness :
  strip_python_comments lower_ascii isalnum_ascii
    Recorded.tokenize Untokenizer.untokenize
    (lit "# -*- coding: utf-8 -*-\nx = 1  # note\n") {[ lit "note" ]} =
  Return (lit "# -*- coding: utf-8 -*-\n"
          ++ cleanup_empty_lines (lit "x = 1  # note\n")).
Proof.
  destruct (strip_python_comments_tokens lower_ascii isalnum_ascii
              Recorded.tokenize Untokenizer.untokenize
              (lit "# -*- coding: utf-8 -*-\nx = 1  # note\n") {[ lit "note" ]})
    as [_ H].
  apply H; vm_compute; reflexivity.
Defined.

(** ** Writing twice *)

(** X10.  When the text, once written to the file, is read back from it,
    a call of [write_if_changed] that returns leaves the file such that
    every further call with the same content returns false and changes
    nothing. *)
Theorem write_if_changed_twice {path world : Type}
    (read_text : world -> path -> result (list N))
    (write_text : world -> path -> list N -> world * option exn)
    (w w1 : world) (p : path) (new_content : list N) (b : bool) :
  (forall w', write_text w p new_content = (w', None) ->
              read_text w' p = Return new_content) ->
  write_if_changed read_text write_text w p new_content false = (Return b, w1) ->
  forall dry_run,
    write_if_changed read_text write_text w1 p new_content dry_run =
    (Return false, w1).
Proof.
  intros Hlaw H dry_run. unfold write_if_changed in *.
  assert (read_text w1 p = Return new_content) as ->.
  { destruct (read_text w p) as [s|e] eqn:Hr; case_bool_decide as E.
    - injection E as ->. by injection H as _ <-.
    - destruct (write_text w p new_content) as [w' [e|]] eqn:Hw; [done|].
      injection H as _ <-. by apply Hlaw.
    - done.
    - destruct (write_text w p new_content) as [w' [e'|]] eqn:Hw; [done|].
      injection H as _ <-. by apply Hlaw. }
  by rewrite bool_decide_eq_true_2.
Qed.

Lemma Disk_read_after_write (w w' : Disk.world) (p : string) (s : list N) :
  Disk.write_text w p s = (w', None) -> Disk.read_text w' p = Return s.
Proof.
  unfold Disk.write_text, Disk.read_text, Disk.world in *.
  destruct (w !! p) as [[| |]|] eqn:E; intros H; try discriminate H;
    injection H as <-; by rewrite lookup_insert_eq.
Qed.

Lemma Disk_read_back (w w' : Disk.world) (p : string) (s : list N) :
  universal_newlines s = s ->
  Disk.write_text w p s = (w', None) ->
  read_text_translating w' p = Return s.
Proof.
  intros Hs Hw. unfold read_text_translating.
  by rewrite (Disk_read_after_write w w' p s Hw), Hs.
Qed.

Lemma write_if_changed_twice_witness :
  write_if_changed read_text_translating Disk.write_text
    (<["src/b.py"%string := Disk.TextFile (lit "y = 2\n")]> Disk.sample)
    "src/b.py"%string (lit "y = 2\n") false =
  (Return false,
   <["src/b.py"%string := Disk.TextFile (lit "y = 2\n")]> Disk.sample).
Proof.
  apply (write_if_changed_twice read_text_translating Disk.write_text
           Disk.sample _ "src/b.py"%string (lit "y = 2\n") true).
  - intros w'. by apply Disk_read_back.
  - reflexivity.
Defined.

(** ** The keyword options *)

Lemma split_from_app (sep : N) (a cur rest : list N) :
  sep ∉ a ->
  split_from sep cur (a ++ rest) = split_from sep (rev a ++ cur) rest.
Proof.
  revert cur. induction a as [|x a IH]; intros cur Ha; [done|].
  apply not_elem_of_cons in Ha as [Hx Ha]. simpl.
  destruct (x =? sep) eqn:E; [apply N.eqb_eq in E; congruence|].
  rewrite IH by done. by rewrite <- app_assoc.
Qed.

Lemma split_join_with (sep : N) (l : list (list N)) :
  l <> [] ->
  Forall (fun kw => sep ∉ kw) l ->
  split (join_with [sep] l) sep = l.
Proof.
  unfold split. induction l as [|a l IH]; [done|]. intros _ Hall.
  apply Forall_cons in Hall as [Ha Hall].
  destruct l as [|b l].
  - simpl. rewrite <- (app_nil_r a), split_from_app by done. simpl.
    by rewrite !app_nil_r, rev_involutive.
  - change (join_with [sep] (a :: b :: l))
      with (a ++ [sep] ++ join_with [sep] (b :: l)).
    rewrite split_from_app by done. cbn [app split_from].
    rewrite N.eqb_refl, app_nil_r, rev_involutive. by rewrite IH.
Qed.

(** X11.  The keyword option round-trips: for keywords that are non-empty,
    hold no comma, have no whitespace at either end and are unchanged by
    lower-casing, parsing their comma-separated list gives back exactly
    those keywords.  The defaults of both options are of this kind. *)
Theorem parse_keep_keywords_join (lower : list N -> list N)
    (l : list (list N)) :
  Forall (fun kw => kw <> [] /\ (COMMA ∉ kw) /\ strip kw = kw /\ lower kw = kw) l ->
  parse_keep_keywords lower (join_with [COMMA] l) = list_to_set l.
Proof.
  intros Hall. unfold parse_keep_keywords. f_equal.
  destruct l as [|a l]; [done|].
  rewrite split_join_with; [|done|].
  - remember (a :: l) as l' eqn:E. clear E.
    induction Hall as [|kw l' (H1 & H2 & H3 & H4) _ IH]; [done|].
    cbn [List.filter]. rewrite H3, bool_decide_eq_false_2 by done.
    cbn [negb map]. by rewrite H3, H4, IH.
  - eapply Forall_impl; [exact Hall|]. by intros kw (_ & H & _).
Qed.

Lemma parse_keep_keywords_join_witness :
  parse_keep_keywords lower_ascii
    (lit "coding:,fmt: off,fmt: on,isort: skip,mypy:,noqa,pragma,pylint,pyright:,type: ignore") =
  DEFAULT_KEEP_PY_COMMENT_KEYWORDS.
Proof.
  change (lit "coding:,fmt: off,fmt: on,isort: skip,mypy:,noqa,pragma,pylint,pyright:,type: ignore")
    with (join_with [COMMA]
            [lit "coding:"; lit "fmt: off"; lit "fmt: on"; lit "isort: skip";
             lit "mypy:"; lit "noqa"; lit "pragma"; lit "pylint";
             lit "pyright:"; lit "type: ignore"]).
  rewrite (parse_keep_keywords_join lower_ascii
             [lit "coding:"; lit "fmt: off"; lit "fmt: on"; lit "isort: skip";
              lit "mypy:"; lit "noqa"; lit "pragma"; lit "pylint";
              lit "pyright:"; lit "type: ignore"]).
  - vm_compute. reflexivity.
  - repeat (constructor;
            [split; [intros H; vm_compute in H; discriminate|];
             split; [intros H; apply list_elem_of_In in H; vm_compute in H;
                     intuition discriminate|];
             split; vm_compute; reflexivity|]).
    constructor.
Defined.

(** X12.  When lower-casing never empties a non-empty text, the parsed
    keyword set never holds the empty keyword, whatever the option says; in
    particular an empty option gives the empty set, with which no comment
    is kept. *)
Theorem parse_keep_keywords_no_empty (lower : list N -> list N)
    (arg : list N) :
  (forall s, lower s = [] -> s = []) ->
  ([] ∉ parse_keep_keywords lower arg) /\
  parse_keep_keywords lower [] = ∅.
Proof.
  intros Hlower. split; [|done].
  unfold parse_keep_keywords. rewrite elem_of_list_to_set, list_elem_of_In.
  rewrite in_map_iff. intros (kw & Hkw & Hin).
  apply filter_In in Hin as [_ Hne]. apply Hlower in Hkw.
  by rewrite Hkw, bool_decide_eq_true_2 in Hne.
Qed.

Lemma parse_keep_keywords_no_empty_witness :
  [] ∉ parse_keep_keywords lower_ascii (lit " , NoQA ,,  \t, Fmt: Off ").
Proof.
  apply parse_keep_keywords_no_empty.
  intros s H. by apply map_eq_nil in H.
Defined.

(** ** The encoding pattern *)

Section SearchFacts.
Context {A : Type}.
Implicit Types (k : pos -> option A) (f : N -> bool).

(** A greedy repetition succeeds exactly when the continuation succeeds
    after some run of at least [n] characters of the class. *)
Lemma greedy_is_Some n f k prev s :
  is_Some (greedy n f k prev s) <->
  exists u v, s = u ++ v /\ forallb f u = true /\ (n <= length u)%nat /\
              is_Some (k (last_seen prev u, v)).
Proof.
  revert n prev. induction s as [|x s IH]; intros n prev; simpl.
  - split.
    + intros H. destruct n; [|by destruct H]. by exists [], [].
    + intros (u & v & Huv & _ & Hn & Hk).
      symmetry in Huv. apply app_eq_nil in Huv as [-> ->].
      simpl in Hn. by replace n with 0%nat by lia.
  - split.
    + intros H. destruct (f x) eqn:Hx.
      * destruct (greedy (Nat.pred n) f k (Some x) s) as [a|] eqn:Hg.
        -- assert (is_Some (greedy (Nat.pred n) f k (Some x) s)) as Hs
             by (by rewrite Hg).
           apply IH in Hs as (u & v & -> & Hu & Hn & Hk).
           exists (x :: u), v. rewrite (last_seen_cons prev). simpl. rewrite Hx.
           repeat split; [done | lia | done].
        -- destruct n; [|by destruct H]. by exists [], (x :: s).
      * destruct n; [|by destruct H]. by exists [], (x :: s).
    + intros (u & v & Huv & Hu & Hn & Hk). destruct u as [|y u].
      * simpl in *. subst v. replace n with 0%nat by lia.
        destruct (f x); [|done]. by destruct (greedy _ _ _ _ _).
      * simpl in *. injection Huv as <- ->.
        apply andb_true_iff in Hu as [-> Hu].
        assert (is_Some (greedy (Nat.pred n) f k (Some x) (u ++ v))) as Hs.
        { apply IH. exists u, v. rewrite <- (last_seen_cons prev).
          repeat split; [done | lia | done]. }
        destruct Hs as [a ->]. done.
Qed.

End SearchFacts.

Lemma last_seen_nil (prev : option N) : last_seen prev [] = prev.
Proof. done. Qed.

Lemma search_from_spec (r : regex) (prev : option N) (s : list N) :
  search_from r prev s = true <->
  exists p t, s = p ++ t /\ is_Some (match_at r false (last_seen prev p, t)).
Proof.
  revert prev. induction s as [|x s IH]; intros prev; cbn [search_from].
  - destruct (match_at r false (prev, [])) as [q|] eqn:E.
    + split; [|done]. intros _. exists [], [].
      by rewrite last_seen_nil, E.
    + split; [done|]. intros (p & t & Hpt & Hm).
      symmetry in Hpt. apply app_eq_nil in Hpt as [-> ->].
      rewrite last_seen_nil, E in Hm. by destruct Hm.
  - destruct (match_at r false (prev, x :: s)) as [q|] eqn:E.
    + split; [|done]. intros _. exists [], (x :: s).
      by rewrite last_seen_nil, E.
    + rewrite IH. split.
      * intros (p & t & -> & Hm). exists (x :: p), t.
        by rewrite (last_seen_cons prev).
      * intros (p & t & Hpt & Hm). destruct p as [|y p].
        -- simpl in Hpt. subst t. rewrite last_seen_nil, E in Hm.
           by destruct Hm.
        -- injection Hpt as <- ->. exists p, t.
           by rewrite <- (last_seen_cons prev).
Qed.

Lemma match_encoding_cookie (isalnum : N -> bool) (prev : option N) (t : list N) :
  is_Some (match_at (ENCODING_COOKIE_RE isalnum) false (prev, t)) <->
  exists sep ws c q,
    t = lit "coding" ++ [sep] ++ ws ++ [c] ++ q /\
    (sep = COLON \/ sep = EQUALS) /\
    forallb isspace ws = true /\
    encoding_char isalnum c = true.
Proof.
  unfold match_at, ENCODING_COOKIE_RE. rewrite run_word.
  cbn [run fst snd andb]. split.
  - destruct (startswith t (lit "coding")) eqn:Hs; [|by intros []].
    apply startswith_drop in Hs.
    remember (drop (length (lit "coding")) t) as d eqn:Hd. clear Hd.
    destruct d as [|sep t']; [by intros []|].
    destruct ((sep =? COLON) || (sep =? EQUALS)) eqn:Hsep; [|by intros []].
    intros (ws & v & -> & Hws & _ & Hk)%greedy_is_Some.
    cbn [fst snd] in Hk.
    apply greedy_is_Some in Hk as (u & v' & -> & Hu & Hn & _).
    destruct u as [|c u]; [simpl in Hn; lia|].
    simpl in Hu. apply andb_true_iff in Hu as [Hc _].
    exists sep, ws, c, (u ++ v'). split; [by rewrite Hs|].
    split; [|by split].
    apply orb_true_iff in Hsep as [E | E]; apply N.eqb_eq in E; auto.
  - intros (sep & ws & c & q & -> & Hsep & Hws & Hc).
    rewrite startswith_app, drop_app_length. cbn [app].
    replace ((sep =? COLON) || (sep =? EQUALS)) with true
      by (by destruct Hsep as [-> | ->]).
    apply greedy_is_Some. exists ws, (c :: q). repeat split; [done | lia |].
    apply greedy_is_Some. exists [c], q. split; [done|].
    split; [|split; [simpl; lia | done]].
    cbn [forallb]. unfold encoding_char in Hc. by rewrite Hc.
Qed.

(** X13.  [has_encoding_cookie] holds exactly for the lines that contain,
    anywhere, the word [coding], then a colon or an equals sign, then any
    run of whitespace, then a character that is a hyphen, a dot, an
    underscore, a letter or a digit. *)
Theorem has_encoding_cookie_spec (isalnum : N -> bool) (line : list N) :
  has_encoding_cookie isalnum line = true <->
  exists p sep ws c q,
    line = p ++ lit "coding" ++ [sep] ++ ws ++ [c] ++ q /\
    (sep = COLON \/ sep = EQUALS) /\
    forallb isspace ws = true /\
    encoding_char isalnum c = true.
Proof.
  unfold has_encoding_cookie, search. rewrite search_from_spec. split.
  - intros (p & t & -> & Hm). apply match_encoding_cookie in Hm
      as (sep & ws & c & q & -> & H).
    by exists p, sep, ws, c, q.
  - intros (p & sep & ws & c & q & -> & H).
    exists p, (lit "coding" ++ [sep] ++ ws ++ [c] ++ q). split; [done|].
    apply match_encoding_cookie. by exists sep, ws, c, q.
Qed.

(** ** The stripping phase *)

Lemma fold_left_invariant {A B : Type} (P : A -> Prop) (f : A -> B -> A)
    (l : list B) (a : A) :
  (forall a x, P a -> P (f a x)) -> P a -> P (fold_left f l a).
Proof.
  intros Hf. revert a. induction l as [|x l IH]; intros a Ha; [done|].
  simpl. by apply IH, Hf.
Qed.

Lemma will_change_count_app {path : Type} (l1 l2 : list (message path)) :
  will_change_count (l1 ++ l2) = (will_change_count l1 + will_change_count l2)%nat.
Proof. unfold will_change_count. by rewrite List.filter_app, length_app. Qed.

Lemma will_change_count_snoc {path : Type} (l : list (message path))
    (m : message path) :
  will_change_count (l ++ [m]) =
  match m with
  | WillChange _ => S (will_change_count l)
  | _ => will_change_count l
  end.
Proof.
  rewrite will_change_count_app. unfold will_change_count.
  destruct m; simpl; lia.
Qed.

Ltac count_lines :=
  rewrite ?will_change_count_snoc; try (split; [lia | done]); try lia; try done.

Section PipelineFacts.

Context {path world : Type}.
Variable lower : list N -> list N.
Variable isalnum : N -> bool.
Variable tokenize : list N -> list TokenInfo * option exn.
Variable untokenize : list TokenInfo -> result (list N).
Variable read_text : world -> path -> result (list N).
Variable write_text : world -> path -> list N -> world * option exn.
Variable relative_to_cwd : path -> result path.

Local Abbreviation step := (process_file read_text write_text relative_to_cwd).

Lemma write_if_changed_dry_disk (w : world) (p : path) (s : list N) :
  (write_if_changed read_text write_text w p s true).2 = w.
Proof. unfold write_if_changed. by case_bool_decide. Qed.

Lemma process_file_dry (f : list N -> result (list N)) (st : state) (p : path) :
  disk (step f true st p) = disk st /\
  (changed_count st = will_change_count (printed st) ->
   changed_count (step f true st p) =
   will_change_count (printed (step f true st p))).
Proof.
  unfold process_file, failed.
  destruct (read_text (disk st) p) as [original|e]; cbn [disk printed changed_count].
  2: { split; [done|]. count_lines. }
  destruct (f original) as [cleaned|e]; cbn [disk printed changed_count].
  2: { split; [done|]. count_lines. }
  pose proof (write_if_changed_dry_disk (disk st) p cleaned) as Hw.
  destruct (write_if_changed _ _ _ _ _ true) as [[[|]|e] w]; cbn [snd] in Hw;
    subst w; cbn [disk printed changed_count].
  - destruct (relative_to_cwd p) as [rel|e]; cbn [disk printed changed_count];
      (split; [done|]); count_lines.
  - done.
  - split; [done|]. count_lines.
Qed.

Lemma process_file_count (f : list N -> result (list N)) (dry : bool)
    (st : state) (p : path) :
  (changed_count st <= changed_count (step f dry st p) <=
   S (changed_count st))%nat /\
  (dry = false ->
   will_change_count (printed (step f dry st p)) =
   will_change_count (printed st)).
Proof.
  unfold process_file, failed.
  destruct (read_text (disk st) p) as [original|e]; cbn [printed changed_count].
  2: { split; [lia|]. count_lines. }
  destruct (f original) as [cleaned|e]; cbn [printed changed_count].
  2: { split; [lia|]. count_lines. }
  destruct (write_if_changed _ _ _ _ _ dry) as [[[|]|e] w];
    cbn [printed changed_count].
  - destruct dry.
    + destruct (relative_to_cwd p) as [rel|e]; cbn [printed changed_count];
        (split; [lia | done]).
    + cbn [printed changed_count]. split; [lia | done].
  - split; [lia | done].
  - split; [lia|]. count_lines.
Qed.

Lemma process_files_count (f : list N -> result (list N)) (dry : bool)
    (files : list path) (st : state) :
  (changed_count (fold_left (step f dry) files st) <=
   changed_count st + length files)%nat /\
  (dry = false ->
   will_change_count (printed (fold_left (step f dry) files st)) =
   will_change_count (printed st)).
Proof.
  revert st. induction files as [|p files IH]; intros st; simpl.
  - split; [lia | done].
  - destruct (IH (step f dry st p)) as [H1 H2].
    destruct (process_file_count f dry st p) as [H3 H4].
    split; [lia|]. intros Hd. by rewrite H2, H4.
Qed.

Lemma process_kind_facts (source_files : kind -> list path) (dry : bool)
    (st : state) (entry : kind * ((list N -> result (list N)) * bool)) :
  let st' := process_kind read_text write_text relative_to_cwd
               source_files dry st entry in
  (changed_count st' <= changed_count st + length (source_files entry.1))%nat /\
  (dry = true -> disk st' = disk st) /\
  (dry = true ->
   changed_count st = will_change_count (printed st) ->
   changed_count st' = will_change_count (printed st')) /\
  (dry = false ->
   will_change_count (printed st') = will_change_count (printed st)).
Proof.
  destruct entry as [file_type [f skip]]. cbn [process_kind fst].
  destruct skip; [repeat split; (lia || done)|].
  destruct (source_files file_type) as [|p files] eqn:E;
    [repeat split; (lia || done)|].
  set (st0 := mkPhase (disk st) (changed_count st)
                (printed st ++ [InfoProcessing (length (p :: files)) file_type])).
  destruct (process_files_count f dry (p :: files) st0) as [H1 H2].
  split; [exact H1|]. split; [|split].
  - intros ->.
    apply (fold_left_invariant (fun s => disk s = disk st)); [|done].
    intros a x <-. apply process_file_dry.
  - intros -> Hst.
    apply (fold_left_invariant
             (fun s => changed_count s = will_change_count (printed s))).
    + intros a x. apply process_file_dry.
    + unfold st0. cbn [changed_count printed].
      count_lines.
  - intros Hd. rewrite (H2 Hd). unfold st0. cbn [printed].
    count_lines.
Qed.

End PipelineFacts.

(** X14.  With [--dry-run] the stripping phase of [main] leaves the disk
    exactly as it found it, whatever the files, the options and the
    behaviour of the disk. *)
Theorem strip_phase_dry_run_keeps_disk {path world : Type}
    (lower : list N -> list N) (isalnum : N -> bool)
    (tokenize : list N -> list TokenInfo * option exn)
    (untokenize : list TokenInfo -> result (list N))
    (read_text : world -> path -> result (list N))
    (write_text : world -> path -> list N -> world * option exn)
    (relative_to_cwd : path -> result path)
    (source_files : kind -> list path) (args : arguments) (w : world) :
  dry_run args = true ->
  disk (strip_phase lower isalnum tokenize untokenize read_text write_text
          relative_to_cwd source_files args w) = w.
Proof.
  intros Hdry. unfold strip_phase. destruct (forallb _ _); [done|].
  cbn [disk].
  apply (fold_left_invariant (fun s => disk s = w)); [|done].
  intros st entry <-.
  by apply (process_kind_facts read_text write_text relative_to_cwd).
Qed.

Lemma strip_phase_dry_run_keeps_disk_witness :
  disk (strip_phase lower_ascii isalnum_ascii
          Recorded.tokenize Untokenizer.untokenize
          Disk.read_text Disk.write_text (fun p : string => Return p)
          (fun k => match k with PY => ["src/a.py"%string; "src/b.py"%string]
                              | _ => [] end)
          (mkArgs [] true false false 88 false false false false false false
             (lit "noqa") false false false (lit "shellcheck"))
          Disk.sample) = Disk.sample.
Proof. by apply strip_phase_dry_run_keeps_disk. Defined.

Ltac name_phase r wr rel sf d st e :=
  let H := fresh "H" in
  pose proof (process_kind_facts r wr rel sf d st e) as H;
  cbv zeta in H; cbn [fst] in H;
  let s := fresh "s" in
  set (s := process_kind r wr rel sf d st e) in *;
  clearbody s.

(** X15.  The count of changed files that the stripping phase reports is
    never more than the number of files it was given; with [--dry-run] it
    is exactly the number of change lines printed (a changed file whose
    path cannot be made relative to the current directory is reported as
    an error and not counted), and without it no change line is printed. *)
Theorem strip_phase_changed_count {path world : Type}
    (lower : list N -> list N) (isalnum : N -> bool)
    (tokenize : list N -> list TokenInfo * option exn)
    (untokenize : list TokenInfo -> result (list N))
    (read_text : world -> path -> result (list N))
    (write_text : world -> path -> list N -> world * option exn)
    (relative_to_cwd : path -> result path)
    (source_files : kind -> list path) (args : arguments) (w : world) :
  let st := strip_phase lower isalnum tokenize untokenize read_text write_text
              relative_to_cwd source_files args w in
  (changed_count st <=
   length (source_files PY) + length (source_files SH)
   + length (source_files HTML) + length (source_files CSS)
   + length (source_files JS))%nat /\
  will_change_count (printed st) =
    (if dry_run args then changed_count st else 0%nat).
Proof.
  unfold strip_phase. destruct (forallb _ _); cbn [changed_count printed].
  { split; [lia|]. by destruct (dry_run args). }
  rewrite will_change_count_snoc. unfold processors. cbn [fold_left].
  repeat match goal with
  | |- context [process_kind ?r ?wr ?rel ?sf ?d ?st ?e] =>
      name_phase r wr rel sf d st e
  | _ : context [process_kind ?r ?wr ?rel ?sf ?d ?st ?e] |- _ =>
      name_phase r wr rel sf d st e
  end.
  cbn [changed_count printed will_change_count List.filter length] in *.
  split; [lia|].
  destruct (dry_run args).
  - destruct H as (_ & _ & Ha & _), H0 as (_ & _ & Hb & _),
      H1 as (_ & _ & Hc & _), H2 as (_ & _ & Hd & _), H3 as (_ & _ & He & _).
    symmetry. auto 10.
  - destruct H as (_ & _ & _ & Ha), H0 as (_ & _ & _ & Hb),
      H1 as (_ & _ & _ & Hc), H2 as (_ & _ & _ & Hd), H3 as (_ & _ & _ & He).
    rewrite Ha, Hb, Hc, Hd, He by done. done.
Qed.

Section CleanTree.

Context {path world : Type}.
Variable read_text : world -> path -> result (list N).
Variable write_text : world -> path -> list N -> world * option exn.
Variable relative_to_cwd : path -> result path.

Lemma process_file_clean (f : list N -> result (list N)) (dry : bool)
    (st : state) (p : path) (s : list N) :
  read_text (disk st) p = Return s -> f s = Return s ->
  process_file read_text write_text relative_to_cwd f dry st p = st.
Proof.
  intros Hread Hf. unfold process_file, write_if_changed.
  rewrite Hread, Hf. rewrite bool_decide_eq_true_2 by done.
  by destruct st.
Qed.

Lemma process_files_clean (f : list N -> result (list N)) (dry : bool)
    (st : state) (files : list path) :
  Forall (fun p => exists s, read_text (disk st) p = Return s /\ f s = Return s)
    files ->
  fold_left (process_file read_text write_text relative_to_cwd f dry) files st
  = st.
Proof.
  induction 1 as [|p files (s & Hread & Hf) _ IH]; [done|].
  simpl. by rewrite (process_file_clean f dry st p s).
Qed.

End CleanTree.

(** X16.  When every file that is to be processed already equals what its
    stripper makes of it, the stripping phase writes nothing: the disk is
    as before, no file is counted as changed, and neither a change nor an
    error is printed, with or without [--dry-run]. *)
Theorem strip_phase_clean_tree {path world : Type}
    (lower : list N -> list N) (isalnum : N -> bool)
    (tokenize : list N -> list TokenInfo * option exn)
    (untokenize : list TokenInfo -> result (list N))
    (read_text : world -> path -> result (list N))
    (write_text : world -> path -> list N -> world * option exn)
    (relative_to_cwd : path -> result path)
    (source_files : kind -> list path) (args : arguments) (w : world) :
  Forall (fun entry : kind * ((list N -> result (list N)) * bool) =>
            entry.2.2 = false ->
            Forall (fun p => exists s,
                      read_text w p = Return s /\ entry.2.1 s = Return s)
              (source_files entry.1))
    (processors lower isalnum tokenize untokenize source_files args) ->
  let st := strip_phase lower isalnum tokenize untokenize read_text write_text
              relative_to_cwd source_files args w in
  disk st = w /\ changed_count st = 0%nat /\
  Forall (fun m => quiet m = true) (printed st).
Proof.
  intros Hclean. unfold strip_phase. destruct (forallb _ _).
  { cbn. repeat split; by repeat constructor. }
  cbn [disk changed_count printed].
  cut (let st := fold_left
                   (process_kind read_text write_text relative_to_cwd
                      source_files (dry_run args))
                   (processors lower isalnum tokenize untokenize
                      source_files args)
                   (mkPhase w 0 []) in
       disk st = w /\ changed_count st = 0%nat /\
       Forall (fun m => quiet m = true) (printed st)).
  { cbv zeta. intros (H1 & H2 & H3). repeat split; [done..|].
    apply Forall_app. split; [done|]. by repeat constructor. }
  cbv zeta.
  assert (disk (mkPhase (path:=path) w 0 []) = w /\
          changed_count (mkPhase (path:=path) w 0 []) = 0%nat /\
          Forall (fun m => quiet m = true)
            (printed (mkPhase (path:=path) w 0 []))) as Hstart
    by (repeat split; constructor).
  revert Hstart. generalize (mkPhase (path:=path) w 0 []).
  induction Hclean as [|[file_type [f skip]] entries Hentry _ IH];
    intros st Hst; [done|].
  cbn [fold_left]. apply IH. cbn [process_kind]. cbn [fst snd] in Hentry.
  destruct skip; [done|].
  destruct (source_files file_type) as [|p files]; [done|].
  destruct Hst as (Hdisk & Hcount & Hquiet).
  rewrite process_files_clean.
  - cbn [disk changed_count printed]. repeat split; [done..|].
    apply Forall_app. split; [done|]. by repeat constructor.
  - cbn [disk]. rewrite Hdisk. by apply Hentry.
Qed.

Lemma strip_phase_clean_tree_witness :
  let st := strip_phase lower_ascii isalnum_ascii
              Recorded.tokenize Untokenizer.untokenize
              Disk.read_text Disk.write_text (fun p : string => Return p)
              (fun k => match k with HTML => ["index.html"%string] | _ => [] end)
              (mkArgs [] false false false 88 false false false false false false
                 (lit "noqa") false false false (lit "shellcheck"))
              clean_site in
  disk st = clean_site /\ changed_count st = 0%nat /\
  Forall (fun m => quiet m = true) (printed st).
Proof.
  apply strip_phase_clean_tree.
  unfold processors.
  repeat (apply List.Forall_cons); try apply List.Forall_nil;
    cbn [fst snd]; intros Hskip.
  - discriminate Hskip.
  - apply List.Forall_nil.
  - apply List.Forall_cons; [|apply List.Forall_nil].
    exists (lit "<p>hi</p>\n"). split; by vm_compute.
  - apply List.Forall_nil.
  - apply List.Forall_nil.
Defined.

(** ** Discovery of the source files *)

Lemma file_found_elem (p q : fspath) (d : kind -> list fspath) (k : kind) :
  p ∈ file_found q d k <->
  p ∈ d k \/ (p = q /\ file_type_of (suffix q) = Some k).
Proof.
  unfold file_found. destruct (file_type_of (suffix q)) as [ft|].
  - destruct (decide (k = ft)) as [->|Hne].
    + rewrite elem_of_app, list_elem_of_singleton. split.
      * intros [H|H]; [by left | by right].
      * intros [H|[H _]]; [by left | by right].
    + split; [by left|]. intros [H|[_ H]]; [done|]. congruence.
  - split; [by left|]. by intros [H|[_ H]].
Qed.

Lemma files_found_elem (p dirpath : fspath) (fns : list (list N))
    (d : kind -> list fspath) (k : kind) :
  p ∈ fold_left (fun d filename => file_found (dirpath ++ [filename]) d) fns d k
  <->
  p ∈ d k \/
  exists fn, fn ∈ fns /\ p = dirpath ++ [fn] /\ file_type_of (suffix p) = Some k.
Proof.
  revert d. induction fns as [|fn0 fns IH]; intros d; simpl.
  - split; [by left|]. intros [H|(fn & H & _)]; [done|].
    by apply elem_of_nil in H.
  - rewrite IH, file_found_elem. split.
    + intros [[H|[-> H]]|(fn & H1 & H2 & H3)].
      * by left.
      * right. exists fn0. split; [by left|done].
      * right. exists fn. split; [by right|done].
    + intros [H|(fn & H1 & H2 & H3)]; [by left; left|].
      apply elem_of_cons in H1 as [->|H1].
      * left. right. by subst p.
      * right. by exists fn.
Qed.

Lemma filenames_of_elem (fn : list N) (entries : list (list N * tree)) :
  fn ∈ filenames_of entries <-> (fn, File) ∈ entries.
Proof.
  unfold filenames_of. rewrite list_elem_of_omap. split.
  - intros ([nm [|sub]] & Hin & Heq); simpl in Heq; [|done].
    by injection Heq as ->.
  - intros Hin. by exists (fn, File).
Qed.

Lemma walk_Dir (dirpath : fspath) (entries : list (list N * tree))
    (d : kind -> list fspath) :
  walk dirpath (Dir entries) d =
  walk_dirs dirpath entries
    (fold_left (fun d filename => file_found (dirpath ++ [filename]) d)
       (filenames_of entries) d).
Proof. reflexivity. Qed.

Lemma walk_dirs_elem (es : list (list N * tree)) :
  Forall (fun e => walk_adds e.2) es ->
  forall (dirpath : fspath) (d : kind -> list fspath) (p : fspath) (k : kind),
    p ∈ walk_dirs dirpath es d k <->
    p ∈ d k \/
    exists nm sub rest,
      (nm, Dir sub) ∈ es /\ keep_dirname nm = true /\ below sub rest /\
      p = dirpath ++ nm :: rest /\ file_type_of (suffix p) = Some k.
Proof.
  induction 1 as [|[nm0 sub0] es Hsub _ IH]; intros dirpath d p k.
  - simpl. split; [by left|]. intros [H|(nm & sub & rest & H & _)]; [done|].
    by apply elem_of_nil in H.
  - cbn [walk_dirs]. rewrite IH. cbn [snd] in Hsub.
    assert (forall nm sub, (nm, Dir sub) ∈ (nm0, sub0) :: es <->
              (nm = nm0 /\ sub0 = Dir sub) \/ (nm, Dir sub) ∈ es) as Hcons.
    { intros nm sub. rewrite elem_of_cons. split.
      - intros [E|E]; [left | by right]. by injection E as -> ->.
      - intros [[-> ->]|E]; [by left | by right]. }
    destruct sub0 as [|entries0].
    + split.
      * intros [H|(nm & sub & rest & H1 & H2)]; [by left|].
        right. exists nm, sub, rest. split; [by right|done].
      * intros [H|(nm & sub & rest & H1 & H2)]; [by left|].
        apply Hcons in H1 as [[_ ?]|H1]; [done|].
        right. by exists nm, sub, rest.
    + destruct (keep_dirname nm0) eqn:Hkeep.
      * rewrite (Hsub (dirpath ++ [nm0]) d p k). split.
        -- intros [[H|(entries & rel & He & Hb & Hp & Hk)]
                  |(nm & sub & rest & H1 & H2)].
           ++ by left.
           ++ injection He as <-. right. exists nm0, entries0, rel.
              split; [by left|]. rewrite <- (assoc_L (++)) in Hp. done.
           ++ right. exists nm, sub, rest. split; [by right|done].
        -- intros [H|(nm & sub & rest & H1 & H2 & H3 & H4 & H5)];
             [by left; left|].
           apply Hcons in H1 as [[-> Hd]|H1].
           ++ injection Hd as <-. left. right. exists entries0, rest.
              rewrite <- (assoc_L (++)). done.
           ++ right. by exists nm, sub, rest.
      * split.
        -- intros [H|(nm & sub & rest & H1 & H2)]; [by left|].
           right. exists nm, sub, rest. split; [by right|done].
        -- intros [H|(nm & sub & rest & H1 & H2 & H3)]; [by left|].
           apply Hcons in H1 as [[-> Hd]|H1]; [congruence|].
           right. by exists nm, sub, rest.
Qed.

Lemma walk_elem (t : tree) : walk_adds t.
Proof.
  induction t as [|entries IH] using tree_ind'; intros dirpath d p k.
  - simpl. split; [by left|]. by intros [H|(entries & rel & H & _)].
  - rewrite walk_Dir, (walk_dirs_elem entries IH), files_found_elem. split.
    + intros [[H|(fn & H1 & H2 & H3)]|(nm & sub & rest & H1 & H2 & H3 & H4 & H5)].
      * by left.
      * right. exists entries, [fn]. split; [done|]. split; [|done].
        apply below_file. by apply filenames_of_elem.
      * right. exists entries, (nm :: rest). split; [done|]. split; [|done].
        by apply (below_dir entries nm sub).
    + intros [H|(entries' & rel & He & Hb & Hp & Hk)]; [by left; left|].
      injection He as <-. destruct Hb as [entries fn Hin|entries nm sub rest Hin Hkeep Hb].
      * left. right. exists fn. by rewrite filenames_of_elem.
      * right. by exists nm, sub, rest.
Qed.

Lemma discover_fold_elem (fs : fspath -> option tree) (paths : list fspath)
    (d : kind -> list fspath) (p : fspath) (k : kind) :
  p ∈ fold_left
        (fun discovered root_path =>
           match fs root_path with
           | Some File => file_found root_path discovered
           | None => discovered
           | Some t => walk root_path t discovered
           end) paths d k <->
  p ∈ d k \/ (file_type_of (suffix p) = Some k /\ comes_from fs paths p).
Proof.
  revert d. induction paths as [|root paths IH]; intros d; simpl.
  - split; [by left|]. intros [H|(_ & root & H & _)]; [done|].
    by apply elem_of_nil in H.
  - rewrite IH. unfold comes_from.
    destruct (fs root) as [[|entries]|] eqn:Hroot.
    + rewrite file_found_elem. split.
      * intros [[H|[-> H]]|(Hk & r & Hin & Hr)].
        -- by left.
        -- right. split; [done|]. exists root. split; [by left|]. by left.
        -- right. split; [done|]. exists r. split; [by right|done].
      * intros [H|(Hk & r & Hin & Hr)]; [by left; left|].
        apply elem_of_cons in Hin as [->|Hin].
        -- destruct Hr as [[_ ->]|(entries & rel & He & _)]; [|congruence].
           left. by right.
        -- right. split; [done|]. by exists r.
    + rewrite (walk_elem (Dir entries) root d p k). split.
      * intros [[H|(entries' & rel & He & Hb & Hp & Hk)]|(Hk & r & Hin & Hr)].
        -- by left.
        -- injection He as <-. right. split; [done|]. exists root.
           split; [by left|]. right. by exists entries, rel.
        -- right. split; [done|]. exists r. split; [by right|done].
      * intros [H|(Hk & r & Hin & Hr)]; [by left; left|].
        apply elem_of_cons in Hin as [->|Hin].
        -- destruct Hr as [[He _]|(entries' & rel & He & Hb & Hp)]; [congruence|].
           left. right. exists entries', rel. split; [congruence|done].
        -- right. split; [done|]. by exists r.
    + split.
      * intros [H|(Hk & r & Hin & Hr)]; [by left|].
        right. split; [done|]. exists r. split; [by right|done].
      * intros [H|(Hk & r & Hin & Hr)]; [by left|].
        apply elem_of_cons in Hin as [->|Hin].
        -- destruct Hr as [[He _]|(entries' & rel & He & _)]; congruence.
        -- right. split; [done|]. by exists r.
Qed.

(** X17.  The files that [discover_source_files] lists under a kind are
    exactly the paths whose suffix belongs to the kind and that are either
    a path given that is a regular file, or lie below a directory given
    with none of the directories on the way excluded or hidden.  The
    directory given is not tested itself, and hidden files are listed. *)
Theorem discover_source_files_spec (fs : fspath -> option tree)
    (paths : list fspath) (p : fspath) (k : kind) :
  p ∈ discover_source_files fs paths k <->
  file_type_of (suffix p) = Some k /\ comes_from fs paths p.
Proof.
  unfold discover_source_files. rewrite discover_fold_elem. split.
  - intros [H|H]; [|done]. by apply elem_of_nil in H.
  - intros H. by right.
Qed.

Lemma rfind_cases (c : N) (s : list N) :
  ((c ∉ s) /\ rfind c s = (-1)%Z) \/
  exists pre post,
    s = pre ++ c :: post /\ (c ∉ post) /\ rfind c s = Z.of_nat (length pre).
Proof.
  induction s as [|x s IH].
  - left. split; [apply not_elem_of_nil | done].
  - cbn [rfind]. destruct IH as [[Hn Hr]|(pre & post & E & Hn & Hr)].
    + rewrite Hr. change (0 <=? -1)%Z with false. cbv iota.
      destruct (x =? c) eqn:Hx.
      * apply N.eqb_eq in Hx as ->. right. by exists [], s.
      * apply N.eqb_neq in Hx. left. split; [|done].
        apply not_elem_of_cons. split; [congruence | done].
    + rewrite Hr. right. exists (x :: pre), post. rewrite E.
      split; [done|]. split; [done|].
      destruct (0 <=? Z.of_nat (length pre))%Z eqn:Hle.
      * cbn [length]. lia.
      * apply Z.leb_gt in Hle. lia.
Qed.

Lemma last_occurrence_unique (c : N) (pre post pre' post' : list N) :
  pre ++ c :: post = pre' ++ c :: post' -> c ∉ post -> c ∉ post' ->
  pre = pre' /\ post = post'.
Proof.
  revert pre'. induction pre as [|x pre IH]; intros [|y pre'] E Hn Hn';
    simpl in E.
  - by injection E as ->.
  - injection E as -> ->. exfalso. apply Hn.
    apply elem_of_app. right. by left.
  - injection E as -> <-. exfalso. apply Hn'.
    apply elem_of_app. right. by left.
  - injection E as -> E. destruct (IH pre' E Hn Hn') as [-> ->]. done.
Qed.

Lemma suffix_cases (p : fspath) :
  suffix p = [] \/
  exists stem ext,
    name p = stem ++ DOT :: ext /\ stem <> [] /\ ext <> [] /\ (DOT ∉ ext) /\
    suffix p = DOT :: ext.
Proof.
  unfold suffix.
  destruct (rfind_cases DOT (name p)) as [[_ Hr]|(pre & post & E & Hn & Hr)];
    rewrite Hr.
  - by left.
  - destruct ((0 <? Z.of_nat (length pre))
              && (Z.of_nat (length pre) <? Z.of_nat (length (name p)) - 1))%Z
      eqn:Hc; [|by left].
    apply andb_true_iff in Hc as [H1 H2].
    apply Z.ltb_lt in H1, H2. right. exists pre, post.
    rewrite E in H2 |- *. rewrite length_app in H2. cbn [length] in H2.
    split; [done|]. split; [by intros ->|]. split.
    { intros ->. cbn [length] in H2. lia. }
    split; [done|].
    by rewrite Nat2Z.id, drop_app_length.
Qed.

Lemma suffix_of_name (p : fspath) (stem ext : list N) :
  name p = stem ++ DOT :: ext -> stem <> [] -> ext <> [] -> DOT ∉ ext ->
  suffix p = DOT :: ext.
Proof.
  intros E Hs He Hn.
  destruct (suffix_cases p) as [Hnil|(stem' & ext' & E' & _ & _ & Hn' & ->)].
  - unfold suffix in Hnil.
    destruct (rfind_cases DOT (name p)) as [[Hno _]|(pre & post & E' & Hn' & Hr)].
    + exfalso. apply Hno. rewrite E. apply elem_of_app. right. by left.
    + rewrite E in E'.
      destruct (last_occurrence_unique _ _ _ _ _ E' Hn Hn') as [<- <-].
      rewrite Hr, E in Hnil. rewrite length_app in Hnil.
      cbn [length] in Hnil.
      assert (0 < length stem)%nat by (destruct stem; [done | cbn; lia]).
      assert (0 < length ext)%nat by (destruct ext; [done | cbn; lia]).
      rewrite (proj2 (Z.ltb_lt _ _)), (proj2 (Z.ltb_lt _ _)) in Hnil by lia.
      cbn [andb] in Hnil. rewrite Nat2Z.id, drop_app_length in Hnil.
      discriminate Hnil.
  - rewrite E in E'.
    by destruct (last_occurrence_unique _ _ _ _ _ E' Hn Hn') as [_ <-].
Qed.

Lemma file_type_of_spec (sfx : list N) (k : kind) :
  file_type_of sfx = Some k <-> (sfx, k) ∈ supported_suffixes.
Proof.
  split.
  - unfold file_type_of.
    destruct (List.find _ supported_suffixes) as [[sfx' k']|] eqn:E;
      [|discriminate].
    intros [= <-]. apply find_some in E as [Hin Hb].
    apply bool_decide_eq_true in Hb. cbn in Hb. subst sfx'.
    by apply list_elem_of_In.
  - unfold supported_suffixes. intros H.
    repeat (apply elem_of_cons in H as [H|H];
            [injection H as -> ->; by vm_compute|]).
    by apply elem_of_nil in H.
Qed.

Lemma supported_suffixes_shape (sfx : list N) (k : kind) :
  (sfx, k) ∈ supported_suffixes ->
  exists ext, sfx = DOT :: ext /\ ext <> [] /\ DOT ∉ ext.
Proof.
  unfold supported_suffixes. intros H.
  repeat (apply elem_of_cons in H as [H|H];
          [injection H as -> ->; eexists; split; [reflexivity|];
           split; [done|]; by apply (bool_decide_unpack _)|]).
  by apply elem_of_nil in H.
Qed.

(** X18.  A path is given a kind exactly when its last component is one of
    the five extensions with something before it: a file named just
    [.py] has none, and only the last extension counts. *)
Theorem file_type_by_extension (p : fspath) (k : kind) :
  file_type_of (suffix p) = Some k <->
  exists stem ext,
    stem <> [] /\ (ext, k) ∈ supported_suffixes /\ name p = stem ++ ext.
Proof.
  rewrite file_type_of_spec. split.
  - intros Hin.
    destruct (suffix_cases p) as [E|(stem & ext & E & Hs & _ & _ & Hsfx)].
    + rewrite E in Hin.
      destruct (supported_suffixes_shape _ _ Hin) as (ext & ? & _). done.
    + rewrite Hsfx in Hin. by exists stem, (DOT :: ext).
  - intros (stem & sfx & Hs & Hin & E).
    destruct (supported_suffixes_shape _ _ Hin) as (ext & -> & He & Hn).
    by rewrite (suffix_of_name p stem ext).
Qed.

Lemma file_found_NoDup (q : fspath) (d : kind -> list fspath) (k : kind) :
  NoDup (d k) -> q ∉ d k -> NoDup (file_found q d k).
Proof.
  intros Hd Hq. unfold file_found.
  destruct (file_type_of (suffix q)) as [ft|]; [|done].
  destruct (decide (k = ft)); [|done].
  apply NoDup_app. split; [done|]. split; [|apply NoDup_singleton].
  intros x Hx Hx'. apply list_elem_of_singleton in Hx'. by subst x.
Qed.

Lemma filenames_of_NoDup (entries : list (list N * tree)) :
  NoDup entries.*1 -> NoDup (filenames_of entries).
Proof.
  induction entries as [|[nm t] es IH]; intros H; [constructor|].
  apply NoDup_cons in H as [Hnm Hes]. destruct t as [|sub]; [|by apply IH].
  change (NoDup (nm :: filenames_of es)). apply NoDup_cons.
  split; [|by apply IH].
  rewrite filenames_of_elem. intros Hin. apply Hnm.
  apply list_elem_of_fmap. by exists (nm, File).
Qed.

Lemma files_found_NoDup (dirpath : fspath) (fns : list (list N))
    (d : kind -> list fspath) (k : kind) :
  NoDup fns -> NoDup (d k) ->
  (forall fn, fn ∈ fns -> dirpath ++ [fn] ∉ d k) ->
  NoDup (fold_left (fun d filename => file_found (dirpath ++ [filename]) d)
           fns d k).
Proof.
  revert d. induction fns as [|fn0 fns IH]; intros d Hfns Hd Hfresh; [done|].
  apply NoDup_cons in Hfns as [Hfn0 Hfns]. cbn [fold_left]. apply IH.
  - done.
  - apply file_found_NoDup; [done|]. apply Hfresh. by left.
  - intros fn Hin Hc. apply file_found_elem in Hc as [Hc|[Heq _]].
    + apply (Hfresh fn); [by right | done].
    + apply app_inj_tail in Heq as [_ ->]. done.
Qed.

Lemma entry_of_name {A B : Type} (l : list (A * B)) (x : A) (y1 y2 : B) :
  NoDup l.*1 -> (x, y1) ∈ l -> (x, y2) ∈ l -> y1 = y2.
Proof.
  induction l as [|[a b] l IH]; intros Hnd H1 H2.
  - by apply elem_of_nil in H1.
  - apply NoDup_cons in Hnd as [Ha Hnd].
    apply elem_of_cons in H1 as [E1|H1]; apply elem_of_cons in H2 as [E2|H2].
    + congruence.
    + injection E1 as -> ->. exfalso. apply Ha.
      apply list_elem_of_fmap. by exists (a, y2).
    + injection E2 as -> ->. exfalso. apply Ha.
      apply list_elem_of_fmap. by exists (a, y1).
    + by apply IH.
Qed.

Lemma walk_dirs_NoDup (es : list (list N * tree)) :
  Forall (fun e => walk_fresh e.2) es ->
  Forall (fun e => unique_names e.2) es ->
  NoDup es.*1 ->
  forall (dirpath : fspath) (d : kind -> list fspath) (k : kind),
    NoDup (d k) ->
    (forall nm sub rel, (nm, Dir sub) ∈ es -> dirpath ++ nm :: rel ∉ d k) ->
    NoDup (walk_dirs dirpath es d k).
Proof.
  induction 1 as [|[nm0 sub0] es Hsub _ IH];
    intros Hun Hnames dirpath d k Hd Hfresh; [done|].
  apply Forall_cons in Hun as [Hun0 Hun].
  apply NoDup_cons in Hnames as [Hnm0 Hnames].
  cbn [walk_dirs]. cbn [snd] in Hsub, Hun0.
  apply (IH Hun Hnames).
  - destruct sub0 as [|entries0]; [done|].
    destruct (keep_dirname nm0); [|done].
    apply (Hsub Hun0); [done|]. intros rel _.
    rewrite <- (assoc_L (++)). apply (Hfresh nm0 entries0). by left.
  - intros nm sub rel Hin.
    assert (dirpath ++ nm :: rel ∉ d k) as Hd0
      by (apply (Hfresh nm sub); by right).
    destruct sub0 as [|entries0]; [done|].
    destruct (keep_dirname nm0); [|done].
    intros Hc. apply walk_elem in Hc as [Hc|(entries & rel' & _ & _ & Heq & _)];
      [done|].
    rewrite <- (assoc_L (++)) in Heq. apply app_inv_head in Heq.
    injection Heq as -> _. apply Hnm0.
    apply list_elem_of_fmap. by exists (nm0, Dir sub).
Qed.

Lemma walk_NoDup (t : tree) : walk_fresh t.
Proof.
  induction t as [|entries IH] using tree_ind'; intros Hun dirpath d k Hd Hfresh;
    [done|].
  inversion Hun as [|entries' Hnames Hsubs]; subst entries'.
  rewrite walk_Dir. apply (walk_dirs_NoDup entries IH Hsubs Hnames).
  - apply files_found_NoDup; [by apply filenames_of_NoDup | done |].
    intros fn _. by apply Hfresh.
  - intros nm sub rel Hin Hc.
    apply files_found_elem in Hc as [Hc|(fn & Hfn & Heq & _)].
    + by apply (Hfresh (nm :: rel)).
    + apply app_inv_head in Heq. injection Heq as -> ->.
      apply filenames_of_elem in Hfn.
      pose proof (entry_of_name _ _ _ _ Hnames Hin Hfn). done.
Qed.

Lemma discover_fold_NoDup (fs : fspath -> option tree) (paths : list fspath) :
  independent paths ->
  (forall root t, root ∈ paths -> fs root = Some t -> unique_names t) ->
  forall (d : kind -> list fspath) (k : kind),
    NoDup (d k) ->
    (forall root rel, root ∈ paths -> root ++ rel ∉ d k) ->
    NoDup (fold_left
             (fun discovered root_path =>
                match fs root_path with
                | Some File => file_found root_path discovered
                | None => discovered
                | Some t => walk root_path t discovered
                end) paths d k).
Proof.
  induction paths as [|root0 paths IH]; intros Hind Hun d k Hd Hfresh; [done|].
  destruct Hind as [Hroot0 Hind]. cbn [fold_left].
  assert (forall root rel rel0, root ∈ paths -> root ++ rel <> root0 ++ rel0)
    as Hapart.
  { intros root rel rel0 Hin Heq.
    rewrite Forall_forall in Hroot0. destruct (Hroot0 root Hin) as [H1 H2].
    destruct (prefix_weak_total root0 root (root ++ rel)) as [H|H].
    - rewrite Heq. by exists rel0.
    - by exists rel.
    - by apply H1.
    - by apply H2. }
  apply IH.
  - done.
  - intros root t Hin. apply Hun. by right.
  - destruct (fs root0) as [[|entries]|] eqn:Hfs; [| |done].
    + apply file_found_NoDup; [done|].
      rewrite <- (app_nil_r root0). apply Hfresh. by left.
    + apply walk_NoDup; [| done |].
      * apply (Hun root0); [by left | done].
      * intros rel _. apply Hfresh. by left.
  - intros root rel Hin Hc.
    assert (root ++ rel ∉ d k) as Hd0 by (apply Hfresh; by right).
    destruct (fs root0) as [[|entries]|] eqn:Hfs; [| |done].
    + apply file_found_elem in Hc as [Hc|[Heq _]]; [done|].
      apply (Hapart root rel [] Hin). by rewrite app_nil_r.
    + apply walk_elem in Hc as [Hc|(entries' & rel0 & _ & _ & Heq & _)];
        [done|].
      by apply (Hapart root rel rel0 Hin).
Qed.

(** X19.  When no path given is another path given or lies below one, and
    the entries of every directory have names of their own, no file is
    listed twice, neither under one kind nor under two: every file is
    processed once at most. *)
Theorem discover_source_files_no_duplicates (fs : fspath -> option tree)
    (paths : list fspath) :
  independent paths ->
  (forall root t, root ∈ paths -> fs root = Some t -> unique_names t) ->
  NoDup (discover_source_files fs paths PY
         ++ discover_source_files fs paths SH
         ++ discover_source_files fs paths HTML
         ++ discover_source_files fs paths CSS
         ++ discover_source_files fs paths JS).
Proof.
  intros Hind Hun.
  assert (forall k, NoDup (discover_source_files fs paths k)) as Hk.
  { intros k. apply discover_fold_NoDup; [done | done | constructor |].
    intros root rel _. apply not_elem_of_nil. }
  assert (forall k1 k2 p, k1 <> k2 ->
            p ∈ discover_source_files fs paths k1 ->
            p ∉ discover_source_files fs paths k2) as Hdisj.
  { intros k1 k2 p Hne H1 H2. unfold discover_source_files in H1, H2.
    apply discover_fold_elem in H1 as [H1|[H1 _]];
      [by apply elem_of_nil in H1|].
    apply discover_fold_elem in H2 as [H2|[H2 _]];
      [by apply elem_of_nil in H2|].
    congruence. }
  repeat (apply NoDup_app; split; [apply Hk|]; split; [|try apply Hk]).
  all: intros p Hp Hc; rewrite ?elem_of_app in Hc;
    repeat (destruct Hc as [Hc|Hc]; [by refine (Hdisj _ _ p _ Hp Hc)|]);
    by refine (Hdisj _ _ p _ Hp Hc).
Qed.

Lemma unique_names_sample_tree : unique_names sample_tree.
Proof.
  unfold sample_tree. constructor; [by apply (bool_decide_unpack _)|].
  repeat (apply List.Forall_cons; [cbn [snd]|]); try apply List.Forall_nil;
    try apply unique_names_file.
  - constructor; [by apply (bool_decide_unpack _)|].
    repeat constructor.
  - constructor; [by apply (bool_decide_unpack _)|].
    repeat constructor.
Qed.

Lemma discover_source_files_no_duplicates_witness :
  NoDup (discover_source_files sample_fs [[lit "project"]; [lit "run.sh"]] PY
         ++ discover_source_files sample_fs [[lit "project"]; [lit "run.sh"]] SH
         ++ discover_source_files sample_fs [[lit "project"]; [lit "run.sh"]] HTML
         ++ discover_source_files sample_fs [[lit "project"]; [lit "run.sh"]] CSS
         ++ discover_source_files sample_fs [[lit "project"]; [lit "run.sh"]] JS).
Proof.
  apply discover_source_files_no_duplicates.
  - split; [|split; [constructor | exact I]].
    apply List.Forall_cons; [|apply List.Forall_nil].
    split; intros [rest E]; vm_compute in E; discriminate E.
  - intros root t _. unfold sample_fs.
    destruct (decide (root = [lit "project"])).
    + intros [= <-]. apply unique_names_sample_tree.
    + destruct (decide (root = [lit "run.sh"])); [|done].
      intros [= <-]. constructor.
Defined.

(** ** The formatting tools *)

Section ToolsFacts.

Context {world : Type}.
Variable which : world -> list N -> bool.
Variable subprocess_run : world -> list (list N) -> world * result Z.
Variable sys_executable : list N.
Variable str_path : fspath -> list N.

Local Abbreviation session := (session (world := world)).
Local Abbreviation action := (action (world := world)).
Local Abbreviation within := (runs_within (world := world)).

Lemma runs_within_ret {A : Type} (a : A) : within [] (ret a).
Proof. intros st. exists []. by rewrite app_nil_r. Qed.

Lemma runs_within_say (m : message fspath) : within [] (say m).
Proof. intros st. exists []. by rewrite app_nil_r. Qed.

Lemma runs_within_which (cli_name : list N) :
  within [] (shutil_which which cli_name).
Proof. intros st. exists []. by rewrite app_nil_r. Qed.

Lemma runs_within_run_command (cmd : list (list N)) :
  within [cmd] (run_command subprocess_run cmd).
Proof.
  intros st. exists [cmd]. split; [|done]. unfold run_command.
  destruct (subprocess_run (sys st) cmd) as [w [code|e]]; [done|].
  by destruct e.
Qed.

Lemma runs_within_bind {A B : Type} (l1 l2 : list (list (list N)))
    (m : action A) (f : A -> action B) :
  within l1 m -> (forall a, within l2 (f a)) ->
  within (l1 ++ l2) (bind m f).
Proof.
  intros Hm Hf st. unfold bind. destruct (Hm st) as (new1 & E1 & S1).
  destruct (m st) as [[a|e] st1]; cbn [snd] in E1.
  - destruct (Hf a st1) as (new2 & E2 & S2). exists (new1 ++ new2).
    split; [by rewrite E2, E1, (assoc_L (++)) | by apply sublist_app].
  - exists new1. split; [done|]. by apply sublist_inserts_r.
Qed.

Lemma runs_within_weaken {A : Type} (l l' : list (list (list N)))
    (m : action A) :
  within l m -> l `sublist_of` l' -> within l' m.
Proof.
  intros Hm Hl st. destruct (Hm st) as (new & E & S).
  exists new. split; [done|]. by transitivity l.
Qed.

Lemma runs_within_ensure_tool (cli_name : list N)
    (pip_name : option (list N)) (allow_install : bool) :
  within (installs sys_executable pip_name allow_install)
    (ensure_tool which subprocess_run sys_executable cli_name pip_name
       allow_install).
Proof.
  unfold ensure_tool.
  apply (runs_within_bind [] _); [apply runs_within_which|].
  intros [|].
  { apply (runs_within_weaken []); [apply runs_within_ret|].
    apply sublist_nil_l. }
  assert (forall l, within l
            (bind (say (world := world) (InstallByHand cli_name))
               (fun _ => ret false))) as Hhand.
  { intros l. apply (runs_within_weaken ([] ++ [])); [|apply sublist_nil_l].
    apply runs_within_bind; [apply runs_within_say|].
    intros _. apply runs_within_ret. }
  destruct pip_name as [[|c s]|]; [apply Hhand| |apply Hhand].
  unfold installs. destruct allow_install; cbn [negb].
  - apply (runs_within_bind [] _); [apply runs_within_say|]. intros _.
    apply (runs_within_bind [_] []); [apply runs_within_run_command|].
    intros code. destruct (negb (code =? 0)%Z).
    + apply (runs_within_bind [] []); [apply runs_within_say|].
      intros _. apply runs_within_ret.
    + apply runs_within_which.
  - apply (runs_within_bind [] []); [apply runs_within_say|].
    intros _. apply runs_within_ret.
Qed.

Lemma runs_within_use_tool (skip : bool) (cli_name : list N)
    (pip_name : option (list N)) (allow_install : bool)
    (cmd : list (list N)) :
  within
    (if skip then [] else installs sys_executable pip_name allow_install ++ [cmd])
    (use_tool which subprocess_run sys_executable skip cli_name pip_name
       allow_install cmd).
Proof.
  unfold use_tool. destruct skip; [apply runs_within_ret|].
  apply runs_within_bind; [apply runs_within_ensure_tool|].
  intros [|].
  - apply (runs_within_bind [] _); [apply runs_within_say|]. intros _.
    apply (runs_within_bind [_] []); [apply runs_within_run_command|].
    intros _. apply runs_within_ret.
  - apply (runs_within_weaken []); [apply runs_within_ret|].
    apply sublist_nil_l.
Qed.

Lemma apply_formatting_tools_runs_within (files : kind -> list fspath)
    (args : arguments) :
  within (permitted_commands sys_executable str_path files args)
    (apply_formatting_tools which subprocess_run sys_executable str_path
       files args).
Proof.
  unfold apply_formatting_tools, permitted_commands.
  apply runs_within_bind.
  - destruct (files PY) as [|p ps]; [apply runs_within_ret|].
    apply runs_within_bind; [|intros _; apply runs_within_bind; [|intros _]].
    + apply (runs_within_weaken _ _ _ (runs_within_use_tool _ _ _ _ _)).
      destruct (skip_ruff args); [done|]. by destruct (no_install args).
    + apply (runs_within_weaken _ _ _ (runs_within_use_tool _ _ _ _ _)).
      destruct (skip_isort args); [done|]. by destruct (no_install args).
    + apply (runs_within_weaken _ _ _ (runs_within_use_tool _ _ _ _ _)).
      destruct (skip_black args); [done|]. by destruct (no_install args).
  - intros _. destruct (files SH) as [|p ps]; [apply runs_within_ret|].
    apply runs_within_bind; [|intros _].
    + apply (runs_within_weaken _ _ _ (runs_within_use_tool _ _ _ _ _)).
      by destruct (skip_shellcheck args).
    + apply (runs_within_weaken _ _ _ (runs_within_use_tool _ _ _ _ _)).
      by destruct (skip_shfmt args).
Qed.

End ToolsFacts.

Section MainFacts.

Context {world : Type}.
Variable which : world -> list N -> bool.
Variable subprocess_run : world -> list (list N) -> world * result Z.
Variable sys_executable : list N.

Local Abbreviation session := (session (world := world)).
Local Abbreviation action := (action (world := world)).

Lemma bind_returns {A B : Type} (m : action A) (f : A -> action B)
    (st : session) (b : B) :
  (bind m f st).1 = Return b ->
  exists a st1, m st = (Return a, st1) /\ bind m f st = f a st1.
Proof.
  unfold bind. destruct (m st) as [[a|e] st1]; [|discriminate].
  intros _. by exists a, st1.
Qed.

Lemma use_tool_ran (cli_name : list N) (pip_name : option (list N))
    (allow_install : bool) (cmd : list (list N)) (st : session) :
  (forall w, which w cli_name = true) ->
  cmd ∈ ran (use_tool which subprocess_run sys_executable false cli_name
               pip_name allow_install cmd st).2.
Proof.
  intros Hwhich.
  unfold use_tool, ensure_tool, bind, shutil_which, ret, say, run_command.
  rewrite Hwhich. cbn [sys ran said].
  destruct (subprocess_run (sys st) cmd) as [w [code|e]]; [|destruct e];
    cbn [snd ran]; apply elem_of_app; right; by left.
Qed.

Lemma bind_result {A B : Type} (m : action A) (f : A -> action B)
    (st st1 : session) (b : B) :
  bind m f st = (Return b, st1) ->
  exists a st2, m st = (Return a, st2) /\ f a st2 = (Return b, st1).
Proof.
  unfold bind. destruct (m st) as [[a|e] st2]; [|discriminate].
  intros H. by exists a, st2.
Qed.

Lemma apply_formatting_tools_shfmt (str_path : fspath -> list N)
    (files : kind -> list fspath) (args : arguments) (st st1 : session)
    (a : unit) :
  skip_shfmt args = false ->
  files SH <> [] ->
  (forall w, which w (lit "shfmt") = true) ->
  apply_formatting_tools which subprocess_run sys_executable str_path
    files args st = (Return a, st1) ->
  shfmt_command (map str_path (files SH)) ∈ ran st1.
Proof.
  intros Hskip Hsh Hwhich H. unfold apply_formatting_tools in H.
  apply bind_result in H as (u & st2 & _ & H).
  destruct (files SH) as [|p ps] eqn:Hfiles; [done|].
  rewrite Hskip in H. apply bind_result in H as (u2 & st3 & _ & H).
  pose proof (use_tool_ran (lit "shfmt") None (negb (no_install args))
                (shfmt_command (map str_path (p :: ps))) st3 Hwhich) as Hran.
  by rewrite H in Hran.
Qed.

End MainFacts.

(** X20.  Whatever the tools answer, the command lines that
    [apply_formatting_tools] hands to [subprocess.run] are a selection, in
    this order, of: pip install, then the run, of ruff, isort and black when
    there are Python files, then shellcheck and shfmt when there are shell
    files, each only when its skip flag is off, and an installation only
    without [--no-install].  The shell tools are never installed. *)
Theorem apply_formatting_tools_commands {world : Type}
    (which : world -> list N -> bool)
    (subprocess_run : world -> list (list N) -> world * result Z)
    (sys_executable : list N) (str_path : fspath -> list N)
    (files : kind -> list fspath) (args : arguments)
    (st : session (world := world)) :
  exists new,
    ran (apply_formatting_tools which subprocess_run sys_executable str_path
           files args st).2 = ran st ++ new /\
    new `sublist_of` permitted_commands sys_executable str_path files args.
Proof. apply apply_formatting_tools_runs_within. Qed.

Ltac other_command Hin Hsc Hfmt :=
  first
    [ by (apply (f_equal (fun c : list (list N) => c !! 2%nat)) in Hin;
          vm_compute in Hin; discriminate Hin)
    | by (apply (f_equal head) in Hin; cbn in Hin; injection Hin as Hin;
          first [apply Hsc | apply Hfmt]; exact Hin) ].

(** X21.  With [--no-install], and an interpreter that is not itself
    called shellcheck or shfmt, [apply_formatting_tools] never runs
    pip install, whatever tools are missing. *)
Theorem no_install_never_installs {world : Type}
    (which : world -> list N -> bool)
    (subprocess_run : world -> list (list N) -> world * result Z)
    (sys_executable : list N) (str_path : fspath -> list N)
    (files : kind -> list fspath) (args : arguments)
    (st : session (world := world)) (pip_name : list N) :
  no_install args = true ->
  sys_executable <> lit "shellcheck" ->
  sys_executable <> lit "shfmt" ->
  pip_install sys_executable pip_name ∉ ran st ->
  pip_install sys_executable pip_name ∉
    ran (apply_formatting_tools which subprocess_run sys_executable str_path
           files args st).2.
Proof.
  intros Hno Hsc Hfmt Hst Hin.
  destruct (apply_formatting_tools_runs_within which subprocess_run
              sys_executable str_path files args st) as (new & E & Hsub).
  rewrite E in Hin. apply elem_of_app in Hin as [Hin|Hin]; [done|].
  apply (elem_of_sublist _ _ _ Hin) in Hsub. clear Hin E new Hst.
  unfold permitted_commands in Hsub. rewrite Hno in Hsub.
  destruct (files PY), (files SH), (skip_ruff args), (skip_isort args),
    (skip_black args), (skip_shellcheck args), (skip_shfmt args);
    cbn [app] in Hsub;
    repeat (apply elem_of_cons in Hsub as [Hin|Hsub];
            [other_command Hin Hsc Hfmt|]);
    by apply elem_of_nil in Hsub.
Qed.

Lemma no_install_never_installs_witness :
  no_install Machine.no_install_args = true /\
  pip_install Machine.sys_executable (lit "ruff") ∉
    ran (apply_formatting_tools Machine.nothing_installed
           Machine.subprocess_run Machine.sys_executable Machine.str_path
           (discover_source_files sample_fs [[lit "project"]; [lit "run.sh"]])
           Machine.no_install_args (mkSession tt [] [])).2.
Proof.
  split; [reflexivity|].
  apply no_install_never_installs.
  - reflexivity.
  - intros H. vm_compute in H. discriminate H.
  - intros H. vm_compute in H. discriminate H.
  - apply not_elem_of_nil.
Defined.

Lemma discover_source_files_or_raise_seen
    (status : fspath -> result (option tree)) (paths : list fspath)
    (d : kind -> list fspath) :
  discover_source_files_or_raise status paths = Return d ->
  d = discover_source_files (seen status) paths.
Proof.
  unfold discover_source_files_or_raise, discover_source_files.
  generalize (fun _ : kind => @nil fspath).
  induction paths as [|root paths IH]; intros d0; cbn [fold_left].
  - by intros [= ->].
  - unfold discover_step at 2, seen at 2.
    destruct (status root) as [[[|entries]|]|e]; try apply IH.
    assert (forall l, fold_left (discover_step status) l (Raise e) = Raise e)
      as Hraise by (induction l; [done | by cbn]).
    by rewrite Hraise.
Qed.

(** X22.  Unless [--only-comments] or [--skip-shfmt] is given, a run of
    [main] that finds a shell file and returns has run [shfmt -w] on all
    the shell files found, when shfmt is on the path: neither
    [--dry-run] nor [--skip-sh] keeps the formatter from the files. *)
Theorem main_runs_shfmt {world : Type}
    (which : world -> list N -> bool)
    (subprocess_run : world -> list (list N) -> world * result Z)
    (sys_executable : list N) (str_path : fspath -> list N)
    (lower : list N -> list N) (isalnum : N -> bool)
    (tokenize : list N -> list TokenInfo * option exn)
    (untokenize : list TokenInfo -> result (list N))
    (read_text : world -> fspath -> result (list N))
    (write_text : world -> fspath -> list N -> world * option exn)
    (resolve : world -> fspath -> result fspath)
    (cwd : world -> result fspath)
    (status : world -> fspath -> result (option tree))
    (args : arguments) (w : world) (code : Z)
    (source_files : kind -> list fspath) :
  let outcome :=
    main which subprocess_run sys_executable str_path lower isalnum tokenize
      untokenize read_text write_text resolve cwd status args w in
  find_sources resolve cwd status args w = Return source_files ->
  only_comments args = false ->
  skip_shfmt args = false ->
  source_files SH <> [] ->
  (forall w', which w' (lit "shfmt") = true) ->
  outcome.1 = Return code ->
  shfmt_command (map str_path (source_files SH)) ∈ ran outcome.2.
Proof.
  intros outcome Hfound Honly Hskip Hsh Hwhich Hret.
  unfold outcome, main in *. rewrite Hfound in *. cbv zeta in *.
  destruct (forallb _ _) eqn:Hnone.
  { exfalso. rewrite forallb_forall in Hnone.
    assert (In SH [PY; SH; HTML; CSS; JS]) as HSH by (right; by left).
    apply Hnone, bool_decide_eq_true in HSH. done. }
  rewrite Honly in *.
  apply bind_returns in Hret as (a & st1 & E1 & E2). rewrite E2.
  change (shfmt_command (map str_path (source_files SH)) ∈ ran st1).
  eapply apply_formatting_tools_shfmt;
    [exact Hskip | exact Hsh | exact Hwhich | exact E1].
Qed.

Lemma main_runs_shfmt_witness :
  shfmt_command
    (map Machine.str_path (file_found [lit "run.sh"] (fun _ => []) SH))
  ∈ ran (main Machine.which Machine.subprocess_run Machine.sys_executable
           Machine.str_path lower_ascii isalnum_ascii Recorded.tokenize
           Untokenizer.untokenize Machine.read_text Machine.write_text
           Machine.resolve Machine.cwd Machine.status
           Machine.dry_run_args tt).2.
Proof.
  apply (main_runs_shfmt Machine.which Machine.subprocess_run
           Machine.sys_executable Machine.str_path lower_ascii isalnum_ascii
           Recorded.tokenize Untokenizer.untokenize Machine.read_text
           Machine.write_text Machine.resolve Machine.cwd Machine.status
           Machine.dry_run_args tt 0%Z
           (file_found [lit "run.sh"] (fun _ => []))).
  - reflexivity.
  - reflexivity.
  - reflexivity.
  - intros H. vm_compute in H. discriminate H.
  - reflexivity.
  - by vm_compute.
Defined.



(** ** What the stripping phase leaves on the disk *)

Section PhaseOnDisk.

Context {path world : Type}.
Variable read_text : world -> path -> result (list N).
Variable write_text : world -> path -> list N -> world * option exn.
Variable relative_to_cwd : path -> result path.

(** A write changes no other file. *)
Hypothesis write_elsewhere :
  forall w p s q, q <> p -> read_text (write_text w p s).1 q = read_text w q.

Local Abbreviation step := (process_file read_text write_text relative_to_cwd).
Local Abbreviation holds := (settled read_text).

Lemma process_file_elsewhere (f : list N -> result (list N)) (dry : bool)
    (st : state) (p q : path) :
  q <> p -> read_text (disk (step f dry st p)) q = read_text (disk st) q.
Proof.
  intros Hq. unfold process_file, failed.
  destruct (read_text (disk st) p) as [original|e]; [|done].
  destruct (f original) as [cleaned|e]; [|done].
  unfold write_if_changed. case_bool_decide; [done|].
  destruct dry.
  - by destruct (relative_to_cwd p).
  - pose proof (write_elsewhere (disk st) p cleaned q Hq) as Hw.
    by destruct (write_text (disk st) p cleaned) as [w' [e|]].
Qed.

Lemma process_file_printed (f : list N -> result (list N)) (dry : bool)
    (st : state) (p : path) :
  printed st `prefix_of` printed (step f dry st p).
Proof.
  unfold process_file, failed.
  destruct (read_text (disk st) p) as [original|e];
    [|by apply prefix_app_r].
  destruct (f original) as [cleaned|e]; [|by apply prefix_app_r].
  destruct (write_if_changed _ _ _ _ _ dry) as [[[|]|e] w];
    [|done|by apply prefix_app_r].
  destruct dry; [|done].
  by destruct (relative_to_cwd p); apply prefix_app_r.
Qed.

Lemma process_file_written (f : list N -> result (list N)) (st : state)
    (p : path) (s cleaned : list N) :
  read_text (disk st) p = Return s -> f s = Return cleaned ->
  (forall w w', write_text w p cleaned = (w', None) ->
                read_text w' p = Return cleaned) ->
  read_text (disk (step f false st p)) p = Return cleaned \/
  exists e, ErrorFile p e ∈ printed (step f false st p).
Proof.
  intros Hread Hf read_after_write.
  unfold process_file, failed, write_if_changed.
  rewrite Hread, Hf. case_bool_decide as Hsame.
  - left. cbn [disk]. congruence.
  - destruct (write_text (disk st) p cleaned) as [w' [e|]] eqn:Hw.
    + right. exists e. cbn [printed]. apply elem_of_app. right. by left.
    + left. cbn [disk]. by apply (read_after_write (disk st)).
Qed.

Lemma process_files_elsewhere (f : list N -> result (list N)) (dry : bool)
    (files : list path) (st : state) (q : path) :
  q ∉ files ->
  read_text (disk (fold_left (step f dry) files st)) q = read_text (disk st) q.
Proof.
  revert st. induction files as [|p files IH]; intros st Hq; [done|].
  apply not_elem_of_cons in Hq as [Hne Hq]. cbn [fold_left].
  by rewrite IH, process_file_elsewhere.
Qed.

Lemma process_files_printed (f : list N -> result (list N)) (dry : bool)
    (files : list path) (st : state) :
  printed st `prefix_of` printed (fold_left (step f dry) files st).
Proof.
  revert st. induction files as [|p files IH]; intros st; [done|].
  cbn [fold_left]. etransitivity; [apply process_file_printed | apply IH].
Qed.

Lemma settled_stays (st st' : state) (p : path) (cleaned : list N) :
  read_text (disk st') p = read_text (disk st) p ->
  printed st `prefix_of` printed st' ->
  holds st p cleaned -> holds st' p cleaned.
Proof.
  intros Hread [rest Hprinted] [H|[e H]].
  - left. by rewrite Hread.
  - right. exists e. rewrite Hprinted. apply elem_of_app. by left.
Qed.

Lemma process_files_written (f : list N -> result (list N))
    (files : list path) (st : state) (p : path) (s cleaned : list N) :
  NoDup files -> p ∈ files ->
  read_text (disk st) p = Return s -> f s = Return cleaned ->
  (forall w w', write_text w p cleaned = (w', None) ->
                read_text w' p = Return cleaned) ->
  holds (fold_left (step f false) files st) p cleaned.
Proof.
  revert st.
  induction files as [|p0 files IH]; intros st Hnd Hin Hread Hf Hback.
  - by apply elem_of_nil in Hin.
  - apply NoDup_cons in Hnd as [Hp0 Hnd]. cbn [fold_left].
    apply elem_of_cons in Hin as [->|Hin].
    + apply (settled_stays (step f false st p0)).
      * by apply process_files_elsewhere.
      * apply process_files_printed.
      * by apply (process_file_written f st p0 s).
    + apply IH; [done | done | | done | done].
      rewrite process_file_elsewhere; [done|]. by intros ->.
Qed.

Local Abbreviation turn :=
  (process_kind read_text write_text relative_to_cwd).

Lemma process_kind_elsewhere (source_files : kind -> list path) (dry : bool)
    (st : state) (entry : kind * ((list N -> result (list N)) * bool))
    (q : path) :
  q ∉ source_files entry.1 ->
  read_text (disk (turn source_files dry st entry)) q = read_text (disk st) q.
Proof.
  destruct entry as [file_type [f skip]]. cbn [process_kind fst].
  intros Hq. destruct skip; [done|].
  destruct (source_files file_type) as [|p files] eqn:E; [done|].
  by rewrite process_files_elsewhere.
Qed.

Lemma process_kind_printed (source_files : kind -> list path) (dry : bool)
    (st : state) (entry : kind * ((list N -> result (list N)) * bool)) :
  printed st `prefix_of` printed (turn source_files dry st entry).
Proof.
  destruct entry as [file_type [f skip]]. cbn [process_kind].
  destruct skip; [done|].
  destruct (source_files file_type) as [|p files] eqn:E; [done|].
  etransitivity; [|apply process_files_printed]. by apply prefix_app_r.
Qed.

Lemma process_kinds_elsewhere (source_files : kind -> list path) (dry : bool)
    (entries : list (kind * ((list N -> result (list N)) * bool)))
    (st : state) (q : path) :
  q ∉ concat (map (fun entry => source_files entry.1) entries) ->
  read_text (disk (fold_left (turn source_files dry) entries st)) q
  = read_text (disk st) q.
Proof.
  revert st. induction entries as [|entry entries IH]; intros st Hq; [done|].
  cbn [map concat] in Hq. apply not_elem_of_app in Hq as [Hq1 Hq2].
  cbn [fold_left]. by rewrite IH, process_kind_elsewhere.
Qed.

Lemma process_kinds_printed (source_files : kind -> list path) (dry : bool)
    (entries : list (kind * ((list N -> result (list N)) * bool)))
    (st : state) :
  printed st `prefix_of`
    printed (fold_left (turn source_files dry) entries st).
Proof.
  revert st. induction entries as [|entry entries IH]; intros st; [done|].
  cbn [fold_left]. etransitivity; [apply process_kind_printed | apply IH].
Qed.

Lemma process_kinds_written (source_files : kind -> list path)
    (entries : list (kind * ((list N -> result (list N)) * bool)))
    (st : state) :
  NoDup (concat (map (fun entry => source_files entry.1) entries)) ->
  Forall (fun entry : kind * ((list N -> result (list N)) * bool) =>
            entry.2.2 = false ->
            Forall (fun p => forall s cleaned,
                      read_text (disk st) p = Return s ->
                      entry.2.1 s = Return cleaned ->
                      (forall w w', write_text w p cleaned = (w', None) ->
                                    read_text w' p = Return cleaned) ->
                      holds (fold_left (turn source_files false) entries st)
                        p cleaned)
              (source_files entry.1))
    entries.
Proof.
  revert st. induction entries as [|entry entries IH]; intros st Hnd;
    [constructor|].
  cbn [map concat] in Hnd. apply NoDup_app in Hnd as (Hnd1 & Hapart & Hnd2).
  cbn [fold_left]. apply Forall_cons. split.
  - intros Hskip. apply Forall_forall. intros p Hp s cleaned Hread Hf Hback.
    apply (settled_stays (turn source_files false st entry)).
    + apply process_kinds_elsewhere. by apply Hapart.
    + apply process_kinds_printed.
    + destruct entry as [file_type [f skip]]. cbn [fst snd] in *. subst skip.
      cbn [process_kind].
      destruct (source_files file_type) as [|p0 files] eqn:E;
        [by apply elem_of_nil in Hp|].
      by apply (process_files_written f _ _ p s).
  - specialize (IH (turn source_files false st entry) Hnd2).
    rewrite Forall_forall in IH |- *. intros entry' Hin Hskip.
    specialize (IH entry' Hin Hskip).
    rewrite Forall_forall in IH |- *. intros p Hp s cleaned Hread Hf Hback.
    apply (IH p Hp s cleaned); [|done|done].
    rewrite process_kind_elsewhere; [done|].
    intros Hp0. apply (Hapart p Hp0).
    apply list_elem_of_In, in_concat. exists (source_files entry'.1).
    split; [|by apply list_elem_of_In].
    apply in_map_iff. exists entry'. split; [done|]. by apply list_elem_of_In.
Qed.

End PhaseOnDisk.

Lemma Disk_write_elsewhere (w : Disk.world) (p q : string) (s : list N) :
  q <> p ->
  Disk.read_text (Disk.write_text w p s).1 q = Disk.read_text w q.
Proof.
  intros Hq. unfold Disk.write_text, Disk.read_text, Disk.world in *.
  destruct (w !! p) as [[| |]|] eqn:E; cbn [fst]; try done;
    by rewrite lookup_insert_ne.
Qed.

(** X24.  On a disk where writing one file changes no other, the
    stripping phase of [main] leaves every file that is not among the
    files found as it was. *)
Theorem strip_phase_touches_only_its_files {path world : Type}
    (lower : list N -> list N) (isalnum : N -> bool)
    (tokenize : list N -> list TokenInfo * option exn)
    (untokenize : list TokenInfo -> result (list N))
    (read_text : world -> path -> result (list N))
    (write_text : world -> path -> list N -> world * option exn)
    (relative_to_cwd : path -> result path)
    (source_files : kind -> list path) (args : arguments) (w : world)
    (q : path) :
  (forall w p s q, q <> p -> read_text (write_text w p s).1 q = read_text w q) ->
  (forall k, q ∉ source_files k) ->
  read_text (disk (strip_phase lower isalnum tokenize untokenize read_text
                     write_text relative_to_cwd source_files args w)) q
  = read_text w q.
Proof.
  intros Helsewhere Hq. unfold strip_phase. destruct (forallb _ _); [done|].
  cbn [disk]. rewrite process_kinds_elsewhere; [done | done |].
  unfold processors. cbn [map concat fst].
  rewrite !not_elem_of_app. repeat split; try apply Hq. apply not_elem_of_nil.
Qed.

Lemma strip_phase_touches_only_its_files_witness :
  Disk.read_text
    (disk (strip_phase lower_ascii isalnum_ascii Recorded.tokenize
             Untokenizer.untokenize Disk.read_text Disk.write_text
             (fun p : string => Return p) one_page plain_args commented_site))
    "notes.txt"%string
  = Disk.read_text commented_site "notes.txt"%string.
Proof.
  apply strip_phase_touches_only_its_files.
  - intros w p s q. apply Disk_write_elsewhere.
  - intros [| | | |]; cbn [one_page]; try apply not_elem_of_nil.
    intros H. apply list_elem_of_singleton in H. discriminate H.
Defined.

(** X25.  On a disk where a write changes no other file, and when no file
    is listed twice, a run without [--dry-run] leaves in every file that
    could be read and stripped the text that its stripper made of what the
    file held before the run, or has reported an error for the file,
    provided that this text, once written to the file, is read back from
    it. *)
Theorem strip_phase_writes_stripped_text {path world : Type}
    (lower : list N -> list N) (isalnum : N -> bool)
    (tokenize : list N -> list TokenInfo * option exn)
    (untokenize : list TokenInfo -> result (list N))
    (read_text : world -> path -> result (list N))
    (write_text : world -> path -> list N -> world * option exn)
    (relative_to_cwd : path -> result path)
    (source_files : kind -> list path) (args : arguments) (w : world) :
  (forall w p s q, q <> p -> read_text (write_text w p s).1 q = read_text w q) ->
  dry_run args = false ->
  NoDup (source_files PY ++ source_files SH ++ source_files HTML
         ++ source_files CSS ++ source_files JS) ->
  Forall (fun entry : kind * ((list N -> result (list N)) * bool) =>
            entry.2.2 = false ->
            Forall (fun p => forall s cleaned,
                      read_text w p = Return s ->
                      entry.2.1 s = Return cleaned ->
                      (forall w0 w', write_text w0 p cleaned = (w', None) ->
                                     read_text w' p = Return cleaned) ->
                      settled read_text
                        (strip_phase lower isalnum tokenize untokenize
                           read_text write_text relative_to_cwd
                           source_files args w)
                        p cleaned)
              (source_files entry.1))
    (processors lower isalnum tokenize untokenize source_files args).
Proof.
  intros Helsewhere Hdry Hnd. unfold strip_phase.
  destruct (forallb _ _) eqn:Hnone.
  - apply Forall_forall. intros entry _ _.
    assert (source_files entry.1 = []) as ->; [|constructor].
    rewrite forallb_forall in Hnone.
    apply (bool_decide_eq_true_1 _), Hnone.
    destruct entry.1; simpl; tauto.
  - rewrite Hdry.
    assert (NoDup (concat (map (fun entry : kind * ((list N -> result (list N)) * bool) =>
                                  source_files entry.1)
                             (processors lower isalnum tokenize untokenize
                                source_files args)))) as Hnd'.
    { unfold processors. cbn [map concat fst]. by rewrite app_nil_r. }
    pose proof (process_kinds_written read_text write_text relative_to_cwd
                  Helsewhere source_files _ (mkPhase w 0 []) Hnd') as H.
    eapply Forall_impl; [exact H|]. intros entry Hentry Hskip.
    eapply Forall_impl; [exact (Hentry Hskip)|].
    intros p Hp s cleaned Hread Hf Hback.
    eapply settled_stays; [| |exact (Hp s cleaned Hread Hf Hback)].
    + done.
    + by apply prefix_app_r.
Qed.

Lemma strip_phase_writes_stripped_text_witness :
  settled read_text_translating
    (strip_phase lower_ascii isalnum_ascii Recorded.tokenize
       Untokenizer.untokenize read_text_translating Disk.write_text
       (fun p : string => Return p) one_page plain_args commented_site)
    "index.html"%string (lit "<p>hi</p>\n").
Proof.
  pose proof (strip_phase_writes_stripped_text lower_ascii isalnum_ascii
                Recorded.tokenize Untokenizer.untokenize
                read_text_translating Disk.write_text
                (fun p : string => Return p) one_page plain_args
                commented_site) as H.
  assert (Forall
            (fun p : string => forall s cleaned,
                read_text_translating commented_site p = Return s ->
                Return (strip_html_comments s) = Return cleaned ->
                (forall w0 w', Disk.write_text w0 p cleaned = (w', None) ->
                               read_text_translating w' p = Return cleaned) ->
                settled read_text_translating
                  (strip_phase lower_ascii isalnum_ascii Recorded.tokenize
                     Untokenizer.untokenize read_text_translating
                     Disk.write_text (fun p : string => Return p) one_page
                     plain_args commented_site)
                  p cleaned)
            ["index.html"%string]) as Hpage.
  { refine (List.Forall_inv
              (List.Forall_inv_tail (List.Forall_inv_tail (H _ eq_refl _)))
              eq_refl).
    - intros w p s q Hq. unfold read_text_translating.
      by rewrite Disk_write_elsewhere.
    - cbn [one_page app]. apply NoDup_singleton. }
  apply (List.Forall_inv Hpage (lit "<p>hi</p><!-- to do -->\n")).
  - reflexivity.
  - reflexivity.
  - intros w0 w'. by apply Disk_read_back.
Defined.

(** ** The colon guard of the JS stripper *)

Lemma uncomment_lines_copy (a : list N) (prev : option N) (c : list N) :
  free_of [SLASH; SLASH] a ->
  uncomment_lines false prev (a ++ COLON :: c) =
  a ++ COLON :: uncomment_lines false (Some COLON) c.
Proof.
  revert prev. induction a as [|x a IH]; intros prev Hfree.
  - cbn [app uncomment_lines]. change (lit "//") with [SLASH; SLASH].
    cbn [startswith]. change (COLON =? SLASH) with false.
    by rewrite andb_false_r.
  - cbn [app uncomment_lines]. change (lit "//") with [SLASH; SLASH].
    destruct (negb _ && startswith (x :: a ++ COLON :: c) [SLASH; SLASH])
      eqn:E.
    + exfalso. apply andb_true_iff in E as [_ E].
      apply startswith_two in E as [t E].
      destruct a as [|y a]; [by injection E|].
      injection E as -> -> _. by apply (Hfree [] a).
    + rewrite IH; [done|]. by apply (free_of_app_r _ [x]).
Qed.

Lemma uncomment_lines_rest_of_line (p : option N) (line rest : list N) :
  LF ∉ line ->
  rest = [] \/ startswith rest [LF] = true ->
  uncomment_lines true p (line ++ rest) = uncomment_lines false None rest.
Proof.
  revert p. induction line as [|x line IH]; intros p Hline Hrest.
  - cbn [app]. destruct Hrest as [->|Hrest]; [done|].
    destruct rest as [|y rest]; [done|]. cbn [startswith] in Hrest.
    rewrite andb_true_r in Hrest. apply N.eqb_eq in Hrest as ->.
    cbn [uncomment_lines]. by rewrite andb_false_r.
  - apply not_elem_of_cons in Hline as [Hx Hline].
    cbn [app uncomment_lines].
    destruct (x =? LF) eqn:E; [apply N.eqb_eq in E; congruence|].
    by apply IH.
Qed.

(** C7 (as stated, refuted).  In ["a:///b"] the first two slashes follow a
    colon, yet the second of them is removed: with the third slash it
    forms a [//] that follows a slash, not a colon. *)
Lemma strip_js_comments_colon_guard_counterexample :
  contains (lit "a:///b") (lit "://") = true /\
  strip_js_comments (lit "a:///b") = lit "a:/\n" /\
  contains (strip_js_comments (lit "a:///b")) (lit "://") = false.
Proof. repeat split; by vm_compute. Qed.

(** C7 (amended).  [strip_js_comments] first removes every span from a
    [/*] to the nearest [*/] after it; then, from left to right, every
    [//] that is met outside a removal and does not follow a colon is
    removed with the rest of its line; the result is normalised.  A [//]
    that follows a colon starts no removal: a text in which every [//]
    follows a colon is left as it is by the second pass.  It is not kept
    from a removal that starts elsewhere: in [:///] the removal starts at
    the second slash. *)
Theorem strip_js_comments_passes :
  (forall s,
      strip_js_comments s =
      cleanup_empty_lines
        (remove_line_comments (remove_spans (lit "/*") (lit "*/") s))) /\
  (forall t,
      (forall p q, t = p ++ lit "//" ++ q -> exists p', p = p' ++ [COLON]) ->
      sub LINE_COMMENT_RE [] t = t) /\
  (forall a line rest,
      free_of (lit "//") a ->
      LF ∉ line ->
      rest = [] \/ startswith rest (lit "\n") = true ->
      sub LINE_COMMENT_RE [] (a ++ lit ":///" ++ line ++ rest) =
      a ++ lit ":/" ++ sub LINE_COMMENT_RE [] rest).
Proof.
  split; [|split].
  - intros s. unfold strip_js_comments.
    by rewrite sub_block_comments, sub_line_comments.
  - intros t Hg. rewrite sub_line_comments. unfold remove_line_comments.
    apply uncomment_lines_guarded. intros p q Hpq.
    destruct (Hg p q Hpq) as [p' ->]. unfold last_seen. by rewrite last_snoc.
  - intros a line rest Hfree Hline Hrest. rewrite !sub_line_comments.
    unfold remove_line_comments.
    change (lit ":///") with ([COLON; SLASH] ++ [SLASH; SLASH]).
    change (lit ":/") with [COLON; SLASH].
    cbn [app]. rewrite uncomment_lines_copy by done.
    do 2 f_equal. cbn [uncomment_lines]. change (lit "//") with [SLASH; SLASH].
    rewrite bool_decide_eq_true_2 by done. cbn [negb andb]. f_equal.
    cbn [startswith]. change (SLASH =? SLASH) with true.
    rewrite bool_decide_eq_false_2 by done. cbn [negb andb].
    change (SLASH =? LF) with false. cbn iota.
    by apply uncomment_lines_rest_of_line.
Qed.

Lemma strip_js_comments_passes_witness :
  sub LINE_COMMENT_RE [] (lit "a://b") = lit "a://b" /\
  sub LINE_COMMENT_RE [] (lit "see file" ++ lit ":///" ++ lit "etc/x" ++ lit "\nok") =
  lit "see file" ++ lit ":/" ++ sub LINE_COMMENT_RE [] (lit "\nok").
Proof.
  destruct strip_js_comments_passes as (_ & H2 & H3). split.
  - apply H2. intros p q H.
    change (lit "a://b") with [97; COLON; SLASH; SLASH; 98] in H.
    change (lit "//") with [SLASH; SLASH] in H.
    destruct p as [|x0 [|x1 [|x2 [|x3 [|x4 [|x5 p]]]]]]; try discriminate H.
    cbn [app] in H. injection H as <- <- _. by exists [97].
  - apply H3.
    + by apply contains_free.
    + by apply (bool_decide_unpack _).
    + by right.
Defined.

(** ** The second pass of the Python stripper *)

Lemma first_line_app (s : list N) : (first_line s).1 ++ (first_line s).2 = s.
Proof.
  induction s as [|c s IH]; [done|]. cbn [first_line].
  destruct (islinebreak c).
  - destruct s as [|d s]; [done|]. by destruct ((c =? CR) && (d =? LF)).
  - destruct (first_line s) as [l r]. cbn in *. by rewrite IH.
Qed.

Lemma first_line_nonempty (s : list N) : s <> [] -> (first_line s).1 <> [].
Proof.
  destruct s as [|c s]; [done|]. intros _. cbn [first_line].
  destruct (islinebreak c).
  - destruct s as [|d s]; [done|]. by destruct ((c =? CR) && (d =? LF)).
  - by destruct (first_line s).
Qed.

Lemma splitlines_from_first_line (s cur : list N) :
  cur <> [] \/ s <> [] ->
  splitlines_from cur s =
  (rev cur ++ (first_line s).1) :: splitlines (first_line s).2.
Proof.
  revert cur. induction s as [|c s IH]; intros cur H.
  - destruct H as [H|H]; [|done]. cbn. rewrite app_nil_r.
    by destruct cur.
  - cbn [splitlines_from first_line]. destruct (islinebreak c).
    + destruct s as [|d s]; [done|].
      destruct ((c =? CR) && (d =? LF)); cbn [fst snd rev]; [|done].
      by rewrite <- app_assoc.
    + rewrite IH by (by left).
      destruct (first_line s) as [l r]. cbn [fst snd rev].
      by rewrite <- app_assoc.
Qed.

Lemma splitlines_first_line (s : list N) :
  s <> [] ->
  splitlines s = (first_line s).1 :: splitlines (first_line s).2.
Proof.
  intros H. unfold splitlines at 1.
  by rewrite splitlines_from_first_line by (by right).
Qed.

Lemma first_line_idem (s : list N) :
  first_line (first_line s).1 = ((first_line s).1, []).
Proof.
  induction s as [|c s IH]; [done|]. cbn [first_line].
  destruct (islinebreak c) eqn:Ec.
  - destruct s as [|d s]; cbn [fst].
    + cbn [first_line]. by rewrite Ec.
    + destruct ((c =? CR) && (d =? LF)) eqn:E; cbn [fst first_line];
        by rewrite Ec, ?E.
  - destruct (first_line s) as [l r]. cbn [fst] in *.
    cbn [first_line]. by rewrite Ec, IH.
Qed.

Lemma first_line_ext (s b : list N) :
  (first_line s).1 `prefix_of` (first_line (s ++ b)).1.
Proof.
  induction s as [|c s IH]; [apply prefix_nil|].
  cbn [app first_line]. destruct (islinebreak c).
  - destruct s as [|d s]; cbn [app].
    + destruct b as [|d b]; [done|].
      destruct ((c =? CR) && (d =? LF)); [by exists [d] | done].
    + by destruct ((c =? CR) && (d =? LF)).
  - destruct (first_line s) as [l r], (first_line (s ++ b)) as [l' r'].
    cbn [fst] in *. by apply prefix_cons.
Qed.

Lemma first_line_swap (s l0 : list N) (d : N) (r r' : list N) :
  first_line s = (l0, d :: r) ->
  first_line (l0 ++ d :: r') = (l0, d :: r').
Proof.
  revert l0. induction s as [|c s IH]; intros l0 H; [done|].
  cbn [first_line] in H. destruct (islinebreak c) eqn:Ec.
  - destruct s as [|d' s]; [done|].
    destruct ((c =? CR) && (d' =? LF)) eqn:E.
    + injection H as <- _. cbn [app first_line]. by rewrite Ec, E.
    + injection H as <- -> _. cbn [app first_line]. by rewrite Ec, E.
  - destruct (first_line s) as [l r0] eqn:E. injection H as <- ->.
    cbn [app first_line]. by rewrite Ec, (IH l eq_refl).
Qed.

Lemma has_shebang_app (l y : list N) :
  has_shebang l = true -> has_shebang (l ++ y) = true.
Proof.
  unfold has_shebang. intros [q ->]%startswith_spec.
  apply startswith_spec. exists (q ++ y). by rewrite <- app_assoc.
Qed.

Section SecondPass.

Variable lower : list N -> list N.
Variable isalnum : N -> bool.
Variable tokenize : list N -> list TokenInfo * option exn.
Variable untokenize : list TokenInfo -> result (list N).

Lemma has_encoding_cookie_app (l y : list N) :
  has_encoding_cookie isalnum l = true ->
  has_encoding_cookie isalnum (l ++ y) = true.
Proof.
  unfold has_encoding_cookie, search. rewrite !search_from_spec.
  intros (p & t & -> & Hm).
  apply match_encoding_cookie in Hm as (sep & ws & c & q & -> & H).
  exists p, ((lit "coding" ++ [sep] ++ ws ++ [c] ++ q) ++ y).
  split; [by rewrite <- app_assoc|].
  apply match_encoding_cookie. exists sep, ws, c, (q ++ y).
  split; [by rewrite <- !app_assoc | done].
Qed.

(** The kept head, read off the first two lines. *)
Lemma kept_head_first_line (s : list N) :
  s <> [] ->
  kept_head isalnum s =
  if has_shebang (first_line s).1 then
    match (first_line s).2 with
    | [] => (first_line s).1
    | _ :: _ =>
        if has_encoding_cookie isalnum (first_line (first_line s).2).1
        then (first_line s).1 ++ (first_line (first_line s).2).1
        else (first_line s).1
    end
  else if has_encoding_cookie isalnum (first_line s).1
       then (first_line s).1
       else [].
Proof.
  intros Hs. unfold kept_head, python_prefix.
  rewrite (splitlines_first_line s Hs).
  destruct (has_shebang (first_line s).1).
  - destruct (first_line s).2 as [|d r] eqn:Er.
    + cbn. by rewrite app_nil_r.
    + rewrite (splitlines_first_line (d :: r)) by done. cbn [lookup list_lookup].
      destruct (has_encoding_cookie isalnum (first_line (d :: r)).1);
        cbn; by rewrite app_nil_r.
  - cbn [lookup list_lookup].
    destruct (has_encoding_cookie isalnum (first_line s).1); cbn;
      by rewrite ?app_nil_r.
Qed.

Lemma kept_head_nil : kept_head isalnum [] = [].
Proof. reflexivity. Qed.

(** A text that starts with a kept first line keeps at least that line. *)
Lemma kept_head_first_kept (s y : list N) :
  s <> [] ->
  has_shebang (first_line s).1 = true \/
  has_encoding_cookie isalnum (first_line s).1 = true ->
  (first_line s).1 `prefix_of` kept_head isalnum ((first_line s).1 ++ y).
Proof.
  intros Hs Hkept. pose proof (first_line_nonempty s Hs) as Hl0.
  pose proof (first_line_idem s) as Hidem.
  destruct (first_line s) as [l0 r0]. cbn [fst snd] in *.
  assert (l0 ++ y <> []) as Hne by (by destruct l0).
  rewrite (kept_head_first_line _ Hne).
  pose proof (first_line_ext l0 y) as [x Hx]. rewrite Hidem in Hx.
  cbn [fst] in Hx. rewrite Hx.
  destruct (has_shebang (l0 ++ x)) eqn:Hsb.
  - destruct (first_line (l0 ++ y)).2 as [|d r]; [by exists x|].
    destruct (has_encoding_cookie isalnum (first_line (d :: r)).1);
      [apply prefix_app_r; by exists x | by exists x].
  - destruct Hkept as [Hkept|Hkept].
    + by rewrite (has_shebang_app _ x Hkept) in Hsb.
    + rewrite (has_encoding_cookie_app _ x Hkept). by exists x.
Qed.

(** The kept head of a result holds the kept head of the source. *)
Lemma kept_head_grows (s c : list N) :
  kept_head isalnum s `prefix_of` kept_head isalnum (kept_head isalnum s ++ c).
Proof.
  destruct (decide (s = [])) as [->|Hs]; [apply prefix_nil|].
  rewrite (kept_head_first_line s Hs).
  pose proof (kept_head_first_kept s c Hs) as Hone.
  destruct (has_shebang (first_line s).1) eqn:Hsb.
  - destruct (first_line s).2 as [|d r] eqn:Er; [apply Hone; by left|].
    destruct (has_encoding_cookie isalnum (first_line (d :: r)).1) eqn:Hck;
      [|apply Hone; by left].
    pose proof (first_line_nonempty (d :: r)) as Hl1.
    pose proof (first_line_app (d :: r)) as Happ.
    pose proof (kept_head_first_kept (d :: r) c) as Htwo.
    pose proof (first_line_idem (d :: r)) as Hidem.
    pose proof (first_line_ext (first_line (d :: r)).1 c) as [x Hx].
    rewrite Hidem in Hx. cbn [fst] in Hx.
    destruct (first_line (d :: r)) as [l1 r1]. cbn [fst snd] in *.
    destruct l1 as [|d1 l1]; [by destruct Hl1|].
    injection Happ as -> Happ.
    assert (first_line s = ((first_line s).1, d :: r)) as E0
      by (rewrite <- Er; by destruct (first_line s)).
    pose proof (first_line_swap s _ d r (l1 ++ c) E0) as Hsw.
    assert (((first_line s).1 ++ d :: l1) ++ c <> []) as Hne
      by (by destruct (first_line s).1).
    rewrite (kept_head_first_line _ Hne).
    rewrite <- (assoc_L (++)). cbn [app]. rewrite Hsw. cbn [fst snd].
    pose proof (has_encoding_cookie_app (d :: l1) x Hck) as Hck'.
    cbn [app] in Hx, Hck'. rewrite Hsb, Hx, Hck'.
    exists x. by rewrite <- !app_assoc.
  - destruct (has_encoding_cookie isalnum (first_line s).1) eqn:Hck;
      [apply Hone; by right | apply prefix_nil].
Qed.

Lemma normal_form_suffix (x y : list N) :
  no_trailing_blank (x ++ y) ->
  contains (x ++ y) (lit "\n\n\n") = false ->
  x ++ y = [] \/ endswith (x ++ y) (lit "\n") = true ->
  cleanup_empty_lines y = y.
Proof.
  intros Htidy Hrun Hend. apply cleanup_empty_lines_fixed.
  - intros p ch q -> Hb. apply (Htidy (x ++ p) ch q); [|done].
    by rewrite <- app_assoc.
  - apply contains_free. apply (free_of_app_r _ x). by apply contains_free.
  - destruct (decide (y = [])) as [->|Hy]; [by left|]. right.
    destruct Hend as [Hnil|Hend]; [by apply app_eq_nil in Hnil as [_ ->]|].
    apply endswith_spec in Hend as [q Hq]. apply endswith_spec.
    destruct (exists_last Hy) as (y' & z & ->).
    change (lit "\n") with [LF] in *. rewrite (assoc_L (++)) in Hq.
    apply app_inj_tail in Hq as [_ ->]. by exists y'.
Qed.

(** The analysed text of a result is already normalised. *)
Lemma analysed_text_of_result (s o : list N) (K : gset (list N)) :
  strip_python_comments lower isalnum tokenize untokenize s K = Return o ->
  o = s \/
  cleanup_empty_lines (analysed_text isalnum o) = analysed_text isalnum o.
Proof.
  intros Hs.
  pose proof (strip_python_comments_cases lower isalnum tokenize untokenize s K)
    as Hc.
  rewrite Hs in Hc. destruct Hc as [-> | (processed & _ & Ho)]; [by left|].
  right. destruct (kept_head_grows s (cleanup_empty_lines processed)) as [x Hx].
  rewrite <- Ho in Hx.
  pose proof (kept_head_analysed_text isalnum o) as Hsplit.
  rewrite Ho in Hsplit at 3. rewrite Hx, <- app_assoc in Hsplit.
  apply app_inv_head in Hsplit.
  apply (normal_form_suffix x); rewrite Hsplit.
  - apply cleanup_empty_lines_tidy.
  - apply cleanup_empty_lines_no_run.
  - apply cleanup_empty_lines_end.
Qed.

Lemma strip_python_comments_second_pass (s o : list N) (K : gset (list N)) :
  strip_python_comments lower isalnum tokenize untokenize s K = Return o ->
  match (tokenize (analysed_text isalnum o)).2 with
  | Some e => e = TokenError
  | None =>
      forallb (py_token_kept lower K) (tokenize (analysed_text isalnum o)).1
        = true /\
      untokenize (tokenize (analysed_text isalnum o)).1 =
        Return (analysed_text isalnum o)
  end ->
  strip_python_comments lower isalnum tokenize untokenize o K = Return o.
Proof.
  intros Hs Hrun.
  destruct (analysed_text_of_result s o K Hs) as [-> | Hnormal]; [done|].
  rewrite strip_python_comments_unfold.
  destruct (tokenize (analysed_text isalnum o)) as [yielded [e|]];
    cbn [fst snd] in *.
  - by rewrite Hrun.
  - destruct Hrun as [Hkept Hround].
    rewrite python_loop_spec, filter_all by done. cbn [app].
    rewrite Hround, Hnormal. by rewrite kept_head_analysed_text.
Qed.

End SecondPass.

(** C4 (as stated, refuted).  A second pass can still change the result:
    deleting a comment can bring the two halves of another one together,
    and the Shell and the Python stripper can keep a comment for a keyword
    that ends with a blank which the normaliser then removes. *)
Lemma strippers_not_idempotent_counterexample :
  strip_html_comments (strip_html_comments (lit "<!-<!-- x -->- y -->")) <>
    strip_html_comments (lit "<!-<!-- x -->- y -->") /\
  strip_css_comments (strip_css_comments (lit "//* x */* y */")) <>
    strip_css_comments (lit "//* x */* y */") /\
  strip_js_comments (strip_js_comments (lit "//* x */* y */")) <>
    strip_js_comments (lit "//* x */* y */") /\
  strip_shell_comments lower_ascii
    (strip_shell_comments lower_ascii (lit "# foo \n") {[ lit "foo " ]})
    {[ lit "foo " ]} <>
    strip_shell_comments lower_ascii (lit "# foo \n") {[ lit "foo " ]} /\
  (strip_python_comments lower_ascii isalnum_ascii
     Recorded.tokenize Untokenizer.untokenize
     (lit "x = 1 # foo \n") {[ lit "foo " ]} = Return (lit "x = 1 # foo\n") /\
   strip_python_comments lower_ascii isalnum_ascii
     Recorded.tokenize Untokenizer.untokenize
     (lit "x = 1 # foo\n") {[ lit "foo " ]} <> Return (lit "x = 1 # foo\n")).
Proof.
  split; [vm_compute; discriminate|]. split; [vm_compute; discriminate|].
  split; [vm_compute; discriminate|]. split; [vm_compute; discriminate|].
  split; [by vm_compute | vm_compute; discriminate].
Qed.

(** C4 (amended).  A stripper gives its own output back whenever that
    output holds nothing it would still remove: for HTML, CSS and JS no
    match of their patterns is left in it; for Shell every line of it after
    a first-line shebang passes the keyword test; for Python the tokenizer
    stops on the analysed text of the output with [TokenError], or reads it
    without an exception, yields no comment that is dropped, and
    [untokenize] gives that text back. *)
Theorem strippers_idempotent_when_settled (lower : list N -> list N)
    (isalnum : N -> bool)
    (tokenize : list N -> list TokenInfo * option exn)
    (untokenize : list TokenInfo -> result (list N)) :
  (forall s,
      search HTML_COMMENT_RE (strip_html_comments s) = false ->
      strip_html_comments (strip_html_comments s) = strip_html_comments s) /\
  (forall s,
      search BLOCK_COMMENT_RE (strip_css_comments s) = false ->
      strip_css_comments (strip_css_comments s) = strip_css_comments s) /\
  (forall s,
      search BLOCK_COMMENT_RE (strip_js_comments s) = false ->
      search LINE_COMMENT_RE (strip_js_comments s) = false ->
      strip_js_comments (strip_js_comments s) = strip_js_comments s) /\
  (forall s K,
      forallb (sh_line_kept lower K)
        (sh_tested_lines (splitlines (strip_shell_comments lower s K))) = true ->
      strip_shell_comments lower (strip_shell_comments lower s K) K =
      strip_shell_comments lower s K) /\
  (forall s o K,
      strip_python_comments lower isalnum tokenize untokenize s K = Return o ->
      match (tokenize (analysed_text isalnum o)).2 with
      | Some e => e = TokenError
      | None =>
          forallb (py_token_kept lower K)
            (tokenize (analysed_text isalnum o)).1 = true /\
          untokenize (tokenize (analysed_text isalnum o)).1 =
            Return (analysed_text isalnum o)
      end ->
      strip_python_comments lower isalnum tokenize untokenize o K = Return o).
Proof.
  split; [|split; [|split; [|split]]].
  - intros s H. unfold strip_html_comments at 1.
    rewrite sub_no_match by done. apply cleanup_empty_lines_again.
  - intros s H. unfold strip_css_comments at 1.
    rewrite sub_no_match by done. apply cleanup_empty_lines_again.
  - intros s H1 H2. unfold strip_js_comments at 1.
    rewrite (sub_no_match BLOCK_COMMENT_RE) by done.
    rewrite sub_no_match by done. apply cleanup_empty_lines_again.
  - intros s K H. rewrite (strip_shell_comments_unfold lower _ K).
    rewrite shell_new_lines_spec, filter_all, sh_lines_split, join_splitlines
      by done.
    rewrite strip_shell_comments_unfold. apply cleanup_empty_lines_again.
  - apply strip_python_comments_second_pass.
Qed.

Lemma strippers_idempotent_when_settled_witness :
  strip_html_comments
    (strip_html_comments (lit "<p>keep</p><!-- drop me\nmultiline --><p>also keep</p>")) =
  strip_html_comments (lit "<p>keep</p><!-- drop me\nmultiline --><p>also keep</p>") /\
  strip_css_comments (strip_css_comments (lit "a { color: red; } /* note */\n")) =
  strip_css_comments (lit "a { color: red; } /* note */\n") /\
  strip_js_comments (strip_js_comments (lit "f(); /* a */ g(); // b\n")) =
  strip_js_comments (lit "f(); /* a */ g(); // b\n") /\
  strip_shell_comments lower_ascii
    (strip_shell_comments lower_ascii
       (lit "#!/bin/sh\n# shellcheck disable=SC2086\necho hi  # inline\n# plain comment\n")
       {[ lit "shellcheck" ]})
    {[ lit "shellcheck" ]} =
  strip_shell_comments lower_ascii
    (lit "#!/bin/sh\n# shellcheck disable=SC2086\necho hi  # inline\n# plain comment\n")
    {[ lit "shellcheck" ]} /\
  strip_python_comments lower_ascii isalnum_ascii
    Recorded.tokenize Untokenizer.untokenize (lit "x = 1\n") ∅ =
  Return (lit "x = 1\n").
Proof.
  destruct (strippers_idempotent_when_settled lower_ascii isalnum_ascii
              Recorded.tokenize Untokenizer.untokenize)
    as (H1 & H2 & H3 & H4 & H5).
  split; [apply H1; vm_compute; reflexivity|].
  split; [apply H2; vm_compute; reflexivity|].
  split; [apply H3; vm_compute; reflexivity|].
  split; [apply H4; vm_compute; reflexivity|].
  apply (H5 (lit "x = 1  # note\n")); [by vm_compute|].
  vm_compute. by split.
Defined.
